(** * Mishal: subtask list, status inference and timer guard

    A shallow embedding of the logic of
    [app/src/components/TaskDetailsModal.tsx] and
    [app/src/components/SubtaskTimer.tsx], with the partial unique index of
    [db/fix_timer_collision.sql] as the remote store's constraint.

    - JavaScript numbers are IEEE binary64 values: module [F64] gives the
      two operations [calculateProgress] uses (division, multiplication)
      and [Math.round], computed on integer mantissas and exponents.
    - React state is an explicit record; a handler is a computation in a
      small state-and-trace monad, split at its [await] into the part
      that runs at the call and the part that runs when the remote answer
      arrives.
    - The remote store is an explicit list of rows. *)

From Stdlib Require Import ZArith String Ascii DecimalString DecimalZ Bool List Lia.
From Stdlib Require Import Floats Uint63 Permutation.
From Stdlib Require DecimalPos.
Import ListNotations.
Local Open Scope Z_scope.

(** ** IEEE binary64 arithmetic on non-negative values *)

Module F64.

(** A finite non-negative binary64 value [mant * 2 ^ expo].  The model is
    exact for the normal range with integer operands below [2 ^ 53]; the
    operands of [calculateProgress] are array lengths, below [2 ^ 32]. *)
Record t : Set := mk { mant : Z; expo : Z }.

Definition zero : t := mk 0 0.

(** An integer below [2 ^ 53] is a binary64 value. *)
Definition of_Z (z : Z) : t := mk z 0.

(** Round the rational [num / den] to the nearest integer, ties to even. *)
Definition rne (num den : Z) : Z :=
  let q := num / den in
  let r := num mod den in
  if 2 * r <? den then q
  else if den <? 2 * r then q + 1
  else if Z.even q then q else q + 1.

(** [a / b] scaled by [2 ^ (- e)], as a fraction of integers. *)
Definition scale_num (a e : Z) : Z := a * 2 ^ Z.max 0 (- e).
Definition scale_den (b e : Z) : Z := b * 2 ^ Z.max 0 e.

(** The exponent of the unit in the last place of [a / b]: the [e] with
    [2 ^ 52 <= (a / b) / 2 ^ e < 2 ^ 53]. *)
Definition ulp_exponent (a b : Z) : Z :=
  let e0 := Z.log2 a - Z.log2 b - 53 in
  if 2 ^ 53 * scale_den b e0 <=? scale_num a e0 then e0 + 1 else e0.

(** Round the positive rational [a / b] (with [0 < b]) to 53 significant
    bits, to nearest, ties to even. *)
Definition round_pos (a b : Z) : t :=
  let e := ulp_exponent a b in
  mk (rne (scale_num a e) (scale_den b e)) e.

Definition round (a b : Z) : t :=
  if a <=? 0 then zero else round_pos a b.

(** [x / y] and [x * y], correctly rounded. *)
Definition div (x y : t) : t :=
  round (mant x * 2 ^ Z.max 0 (expo x - expo y))
        (mant y * 2 ^ Z.max 0 (expo y - expo x)).

Definition mul (x y : t) : t :=
  round (mant x * mant y * 2 ^ Z.max 0 (expo x + expo y))
        (2 ^ Z.max 0 (- (expo x + expo y))).

(** [Math.round]: the integer closest to [x], the larger one at a tie,
    that is [floor (x + 1/2)]. *)
Definition js_round (x : t) : Z :=
  if 0 <=? expo x then mant x * 2 ^ expo x
  else (2 * mant x + 2 ^ (- expo x)) / 2 ^ (1 - expo x).

(** Equality of values, for comparing with the reference implementations. *)
Definition eqv (x y : t) : bool :=
  scale_num (mant x) (expo x) * scale_den 1 (expo y)
  =? scale_num (mant y) (expo y) * scale_den 1 (expo x).

Definition of_spec (f : spec_float) : option t :=
  match f with
  | S754_zero false => Some zero
  | S754_finite false m e => Some (mk (Zpos m) e)
  | _ => None
  end.

End F64.

(** ** Data model *)

Module Subtask.
Record t : Set := mk { id : string; title : string; is_completed : bool }.
End Subtask.

(** [items.filter(t => t.is_completed).length] *)
Definition completed_count (items : list Subtask.t) : Z :=
  Z.of_nat (length (filter Subtask.is_completed items)).

Definition total_count (items : list Subtask.t) : Z :=
  Z.of_nat (length items).

(** [Math.round((completed / total) * 100)], the expression of
    [calculateProgress], on the two counts. *)
Definition progress_of_counts (completed total : Z) : Z :=
  F64.js_round
    (F64.mul (F64.div (F64.of_Z completed) (F64.of_Z total)) (F64.of_Z 100)).

(** Ids of statuses and [task.status_id] are untyped ([any]) in the source:
    a number, a string, or [null]/[undefined]. *)
Inductive JsId : Set :=
| IdNum (n : Z)
| IdStr (s : string)
| IdUndefined.

(** JavaScript truthiness, as tested by [if (x)] and [x && y]. *)
Definition truthy (v : JsId) : bool :=
  match v with
  | IdNum n => negb (n =? 0)
  | IdStr s => negb (String.eqb s "")
  | IdUndefined => false
  end.

(** [a === b] *)
Definition strict_eq (a b : JsId) : bool :=
  match a, b with
  | IdNum x, IdNum y => x =? y
  | IdStr x, IdStr y => String.eqb x y
  | IdUndefined, IdUndefined => true
  | _, _ => false
  end.

Module Status.
Record t : Set := mk { id : JsId; label : string }.
End Status.

Module Task.
Record t : Set := mk { id : string; status_id : JsId }.
End Task.

(** ** The three label patterns

    The regular expressions of [checkAutoStatusUpdate] use literals, one
    optional white-space character ([\s?]) and alternation, with the [i]
    flag.  A label is read as its sequence of code units below 256. *)

Module Regex.

Inductive atom : Set :=
| Chr (c : ascii)
| OptSpace.

Definition t : Set := list (list atom).

(** Case folding of the [i] flag: only ASCII letters fold onto ASCII. *)
Definition upper (c : ascii) : N :=
  let n := N_of_ascii c in
  if ((97 <=? n) && (n <=? 122))%N then (n - 32)%N else n.

Definition chr_eq (c x : ascii) : bool := (upper c =? upper x)%N.

(** [\s] on code units below 256: TAB, LF, VT, FF, CR, space, NBSP. *)
Definition is_space (x : ascii) : bool :=
  let n := N_of_ascii x in
  (((9 <=? n) && (n <=? 13)) || (n =? 32) || (n =? 160))%N.

(** Does one alternative match a prefix of [s]? *)
Fixpoint match_here (p : list atom) (s : list ascii) : bool :=
  match p with
  | [] => true
  | Chr c :: p' =>
      match s with
      | x :: s' => chr_eq c x && match_here p' s'
      | [] => false
      end
  | OptSpace :: p' =>
      match s with
      | x :: s' => (is_space x && match_here p' s') || match_here p' s
      | [] => match_here p' s
      end
  end.

(** Does some alternative match somewhere in [s]? *)
Fixpoint search (re : t) (s : list ascii) : bool :=
  existsb (fun p => match_here p s) re
  || match s with
     | [] => false
     | _ :: s' => search re s'
     end.

(** [re.test(label)] *)
Definition test (re : t) (label : string) : bool :=
  search re (list_ascii_of_string label).

Definition lit (s : string) : list atom := map Chr (list_ascii_of_string s).

End Regex.

(** [/to\s?do|backlog|pending|open|not started/i] *)
Definition not_started_re : Regex.t :=
  [ Regex.lit "to" ++ Regex.OptSpace :: Regex.lit "do";
    Regex.lit "backlog"; Regex.lit "pending"; Regex.lit "open";
    Regex.lit "not started" ].

(** [/done|complete|resolved|closed|finish/i] *)
Definition done_re : Regex.t :=
  [ Regex.lit "done"; Regex.lit "complete"; Regex.lit "resolved";
    Regex.lit "closed"; Regex.lit "finish" ].

(** [/progress|review|doing|working/i] *)
Definition in_progress_re : Regex.t :=
  [ Regex.lit "progress"; Regex.lit "review"; Regex.lit "doing";
    Regex.lit "working" ].

(** ** TaskDetailsModal: state, effects and handlers *)

Module Modal.

(** The [useState] cells the subtask logic reads and writes. *)
Record State : Set := mkState {
  subtasks : list Subtask.t;
  statuses : list Status.t;
  progress : Z
}.

(** Requests to the remote store. *)
Inductive Request : Set :=
| SelectSubtasks (task_id : string)
| InsertSubtask (task_id title : string)
| UpdateCompleted (id : string) (is_completed : bool)
| DeleteSubtask (id : string)
| UpdateTitle (id text : string)
| UpdateTaskStatus (task_id : string) (status_id : JsId).

(** What a handler does, in order. *)
Inductive Event : Set :=
| SetSubtasks (items : list Subtask.t)
| SetProgress (p : Z)
| Infer (items : list Subtask.t)
| Send (r : Request)
| ConsoleError (msg : string).

(** State and trace. *)
Definition M (A : Type) : Type := State -> A * State * list Event.

Definition ret {A : Type} (a : A) : M A := fun s => (a, s, []).

Definition bind {A B : Type} (m : M A) (k : A -> M B) : M B :=
  fun s =>
    let '(a, s1, t1) := m s in
    let '(b, s2, t2) := k a s1 in
    (b, s2, t1 ++ t2).

Notation "x <- m ;; k" := (bind m (fun x => k))
  (at level 61, m at next level, right associativity).
Notation "m ;; k" := (bind m (fun _ => k))
  (at level 61, right associativity).

Definition getSubtasks : M (list Subtask.t) := fun s => (subtasks s, s, []).
Definition getStatuses : M (list Status.t) := fun s => (statuses s, s, []).

(** [setSubtasks(prev => f(prev))]; [setSubtasks(l)] is the constant [f]. *)
Definition setSubtasks (f : list Subtask.t -> list Subtask.t) : M unit :=
  fun s =>
    let l := f (subtasks s) in
    (tt, mkState l (statuses s) (progress s), [SetSubtasks l]).

Definition setProgress (p : Z) : M unit :=
  fun s => (tt, mkState (subtasks s) (statuses s) p, [SetProgress p]).

Definition emit (e : Event) : M unit := fun s => (tt, s, [e]).

Definition final_state {A : Type} (r : A * State * list Event) : State :=
  snd (fst r).
Definition trace {A : Type} (r : A * State * list Event) : list Event :=
  snd r.

Definition calculateProgress (items : list Subtask.t) : M unit :=
  if (length items =? 0)%nat then setProgress 0
  else
    let completed := length (filter Subtask.is_completed items) in
    setProgress (progress_of_counts (Z.of_nat completed) (Z.of_nat (length items))).

Definition handleUpdateStatus (task : Task.t) (statusId : JsId) : M unit :=
  emit (Send (UpdateTaskStatus (Task.id task) statusId)).

(** The value of [newStatusId] at the end of [checkAutoStatusUpdate]. *)
Definition newStatusId (sts : list Status.t) (task : Task.t)
    (items : list Subtask.t) : JsId :=
  let total := length items in
  let completed := length (filter Subtask.is_completed items) in
  if (0 <? total)%nat then
    let re :=
      if (completed =? 0)%nat then not_started_re
      else if (completed =? total)%nat then done_re
      else in_progress_re in
    let targetStatusId :=
      match find (fun s => Regex.test re (Status.label s)) sts with
      | Some s => Status.id s
      | None => IdUndefined
      end in
    if truthy targetStatusId
       && negb (strict_eq (Task.status_id task) targetStatusId)
    then targetStatusId
    else IdUndefined
  else IdUndefined.

Definition checkAutoStatusUpdate (task : Task.t) (items : list Subtask.t)
    : M unit :=
  emit (Infer items) ;;
  sts <- getStatuses ;;
  let new := newStatusId sts task items in
  if truthy new then handleUpdateStatus task new else ret tt.

(** The answer of the store to a request: [{ data, error }]. *)
Inductive Response (A : Type) : Type :=
| Failed
| Data (a : A)
| NoData.
Arguments Failed {A}.
Arguments Data {A} a.
Arguments NoData {A}.

(** [loadSubtasks]: only [data] is read. *)
Definition loadSubtasks_send (task : Task.t) : M bool :=
  if String.eqb (Task.id task) "" then ret false
  else emit (Send (SelectSubtasks (Task.id task))) ;; ret true.

Definition loadSubtasks_receive (r : Response (list Subtask.t)) : M unit :=
  match r with
  | Data data => setSubtasks (fun _ => data) ;; calculateProgress data
  | _ => setSubtasks (fun _ => []) ;; setProgress 0
  end.

Definition loadSubtasks (task : Task.t) (r : Response (list Subtask.t))
    : M unit :=
  sent <- loadSubtasks_send task ;;
  if sent then loadSubtasks_receive r else ret tt.

Definition id_is (i : string) (t : Subtask.t) : bool :=
  String.eqb (Subtask.id t) i.

(** [handleAddSubtask], up to the [await]: returns [updatedList]. *)
Definition handleAddSubtask_send (task : Task.t) (text tempId : string)
    : M (list Subtask.t) :=
  current <- getSubtasks ;;
  let newSubtask := Subtask.mk tempId text false in
  let updatedList := current ++ [newSubtask] in
  setSubtasks (fun _ => updatedList) ;;
  calculateProgress updatedList ;;
  emit (Send (InsertSubtask (Task.id task) text)) ;;
  ret updatedList.

(** [handleAddSubtask], from the answer on. *)
Definition handleAddSubtask_receive (task : Task.t) (tempId : string)
    (updatedList : list Subtask.t) (r : Response Subtask.t) : M unit :=
  match r with
  | Data data =>
      setSubtasks (map (fun t => if id_is tempId t then data else t))
  | NoData => ret tt
  | Failed =>
      emit (ConsoleError "Error adding subtask:") ;;
      setSubtasks (filter (fun t => negb (id_is tempId t)))
  end ;;
  checkAutoStatusUpdate task updatedList.

Definition handleAddSubtask (task : Task.t) (text tempId : string)
    (r : Response Subtask.t) : M unit :=
  updatedList <- handleAddSubtask_send task text tempId ;;
  handleAddSubtask_receive task tempId updatedList r.

Definition set_completed (b : bool) (t : Subtask.t) : Subtask.t :=
  Subtask.mk (Subtask.id t) (Subtask.title t) b.

Definition set_title (text : string) (t : Subtask.t) : Subtask.t :=
  Subtask.mk (Subtask.id t) text (Subtask.is_completed t).

Definition handleToggleSubtask_send (task : Task.t) (id : string)
    (isCompleted : bool) : M unit :=
  current <- getSubtasks ;;
  let updatedList :=
    map (fun t => if id_is id t then set_completed isCompleted t else t)
        current in
  setSubtasks (fun _ => updatedList) ;;
  calculateProgress updatedList ;;
  checkAutoStatusUpdate task updatedList ;;
  emit (Send (UpdateCompleted id isCompleted)).

Definition handleToggleSubtask_receive (id : string) (isCompleted : bool)
    (r : Response unit) : M unit :=
  match r with
  | Failed =>
      emit (ConsoleError "Error toggling subtask:") ;;
      setSubtasks
        (map (fun t => if id_is id t then set_completed (negb isCompleted) t
                       else t))
  | _ => ret tt
  end.

Definition handleToggleSubtask (task : Task.t) (id : string)
    (isCompleted : bool) (r : Response unit) : M unit :=
  handleToggleSubtask_send task id isCompleted ;;
  handleToggleSubtask_receive id isCompleted r.

(** [handleDeleteSubtask], up to the [await]: returns [deletedTask]. *)
Definition handleDeleteSubtask_send (task : Task.t) (id : string)
    : M (option Subtask.t) :=
  current <- getSubtasks ;;
  let deletedTask := find (id_is id) current in
  let updatedList := filter (fun t => negb (id_is id t)) current in
  setSubtasks (fun _ => updatedList) ;;
  calculateProgress updatedList ;;
  checkAutoStatusUpdate task updatedList ;;
  emit (Send (DeleteSubtask id)) ;;
  ret deletedTask.

Definition handleDeleteSubtask_receive (deletedTask : option Subtask.t)
    (r : Response unit) : M unit :=
  match r with
  | Failed =>
      emit (ConsoleError "Error deleting subtask:") ;;
      match deletedTask with
      | Some d => setSubtasks (fun prev => prev ++ [d])
      | None => ret tt
      end
  | _ => ret tt
  end.

Definition handleDeleteSubtask (task : Task.t) (id : string)
    (r : Response unit) : M unit :=
  deletedTask <- handleDeleteSubtask_send task id ;;
  handleDeleteSubtask_receive deletedTask r.

Definition handleUpdateSubtaskText_send (id text : string) : M unit :=
  current <- getSubtasks ;;
  let updatedList :=
    map (fun t => if id_is id t then set_title text t else t) current in
  setSubtasks (fun _ => updatedList) ;;
  emit (Send (UpdateTitle id text)).

Definition handleUpdateSubtaskText_receive (r : Response unit) : M unit :=
  match r with
  | Failed => emit (ConsoleError "Error updating subtask text:")
  | _ => ret tt
  end.

Definition handleUpdateSubtaskText (id text : string) (r : Response unit)
    : M unit :=
  handleUpdateSubtaskText_send id text ;;
  handleUpdateSubtaskText_receive r.

(** The operations on the subtask list, each with the store's answer. *)
Inductive Op : Type :=
| Load (r : Response (list Subtask.t))
| Add (text tempId : string) (r : Response Subtask.t)
| Toggle (id : string) (isCompleted : bool) (r : Response unit)
| Delete (id : string) (r : Response unit)
| UpdateText (id text : string) (r : Response unit).

Definition run (task : Task.t) (op : Op) : M unit :=
  match op with
  | Load r => loadSubtasks task r
  | Add text tempId r => handleAddSubtask task text tempId r
  | Toggle id b r => handleToggleSubtask task id b r
  | Delete id r => handleDeleteSubtask task id r
  | UpdateText id text r => handleUpdateSubtaskText id text r
  end.

(** [useState([])], [useState(0)] *)
Definition initial : State := mkState [] [] 0.

Definition exec {A : Type} (m : M A) (s : State) : State := final_state (m s).

End Modal.

(** ** SubtaskTimer: time logs, the remote table and the timer guard *)

Definition list_sum_Z (l : list Z) : Z := fold_right Z.add 0 l.

Module SubtaskTimeLog.
(** A row of [subtask_time_logs].  Times are milliseconds since the epoch
    ([Date.getTime()]); [created_at] is the position of the row in the
    table. *)
Record t : Set := mk {
  id : string;
  task_id : string;
  user_id : string;
  subtask_name : string;
  start_time : Z;
  end_time : option Z;
  duration_seconds : option Z
}.
End SubtaskTimeLog.

Module Store.
Import SubtaskTimeLog.

(** The table, oldest row first. *)
Definition t : Set := list SubtaskTimeLog.t.

Record Error : Set := mkError { code : string; message : string }.

Definition is_open (l : SubtaskTimeLog.t) : bool :=
  match end_time l with
  | None => true
  | Some _ => false
  end.

(** The rows the partial unique index ranges over, for one pair. *)
Definition open_for (task user : string) (l : SubtaskTimeLog.t) : bool :=
  String.eqb (task_id l) task && String.eqb (user_id l) user && is_open l.

Definition unique_violation : Error :=
  mkError "23505" "duplicate key value violates unique constraint".

(** [insert(payload).select().single()] under
    [idx_unique_active_timer_per_task_user]. *)
Definition insert (row : SubtaskTimeLog.t) (db : t)
    : (Error + SubtaskTimeLog.t) * t :=
  if is_open row && existsb (open_for (task_id row) (user_id row)) db
  then (inl unique_violation, db)
  else (inr row, db ++ [row]).

(** [update({ end_time, duration_seconds }).eq('id', i)] *)
Definition close (i : string) (endTime durationSeconds : Z) (db : t) : t :=
  map (fun l =>
         if String.eqb (id l) i
         then mk (id l) (task_id l) (user_id l) (subtask_name l)
                 (start_time l) (Some endTime) (Some durationSeconds)
         else l)
      db.

(** [select('*').eq('task_id', ..).eq('user_id', ..).is('end_time', null)
    .maybeSingle()]: the row when there is exactly one. *)
Definition select_open (task user : string) (db : t)
    : option SubtaskTimeLog.t :=
  match filter (open_for task user) db with
  | [l] => Some l
  | _ => None
  end.

(** [select('*').eq('task_id', ..).order('created_at', descending)] *)
Definition select_logs (task : string) (db : t) : list SubtaskTimeLog.t :=
  rev (filter (fun l => String.eqb (task_id l) task) db).

End Store.

Module Timer.

Record ActiveTimer : Set := mkActive {
  id : string;
  subtaskName : string;
  startTime : Z
}.

Record State : Set := mkState {
  activeTimer : option ActiveTimer;
  elapsedSeconds : Z;
  timeLogs : list SubtaskTimeLog.t;
  loading : bool
}.

Inductive Signal : Set :=
| Alert (msg : string)
| ConsoleError (msg : string).

(** The component, the remote table, and what the user was shown. *)
Record World : Set := mkWorld {
  guard : State;
  db : Store.t;
  out : list Signal
}.

Definition setActiveTimer (a : option ActiveTimer) (w : World) : World :=
  mkWorld (mkState a (elapsedSeconds (guard w)) (timeLogs (guard w))
                   (loading (guard w)))
          (db w) (out w).

Definition setElapsedSeconds (n : Z) (w : World) : World :=
  mkWorld (mkState (activeTimer (guard w)) n (timeLogs (guard w))
                   (loading (guard w)))
          (db w) (out w).

Definition setTimeLogs (l : list SubtaskTimeLog.t) (w : World) : World :=
  mkWorld (mkState (activeTimer (guard w)) (elapsedSeconds (guard w)) l
                   (loading (guard w)))
          (db w) (out w).

Definition setLoading (b : bool) (w : World) : World :=
  mkWorld (mkState (activeTimer (guard w)) (elapsedSeconds (guard w))
                   (timeLogs (guard w)) b)
          (db w) (out w).

Definition setDb (d : Store.t) (w : World) : World :=
  mkWorld (guard w) d (out w).

Definition signal (s : Signal) (w : World) : World :=
  mkWorld (guard w) (db w) (out w ++ [s]).

(** [haystack.includes(needle)] *)
Fixpoint includes_at (needle hay : list ascii) : bool :=
  match needle, hay with
  | [], _ => true
  | _ :: _, [] => false
  | a :: needle', b :: hay' => Ascii.eqb a b && includes_at needle' hay'
  end.

Fixpoint includes_list (needle hay : list ascii) : bool :=
  includes_at needle hay
  || match hay with
     | [] => false
     | _ :: hay' => includes_list needle hay'
     end.

Definition includes (hay needle : string) : bool :=
  includes_list (list_ascii_of_string needle) (list_ascii_of_string hay).

(** The test of the [catch] of [handleStartTimer]. *)
Definition is_unique_violation (e : Store.Error) : bool :=
  String.eqb (Store.code e) "23505"
  || includes (Store.message e) "duplicate key value"
  || includes (Store.message e) "unique constraint".

Definition already_running : Signal :=
  Alert "A timer is already running for this task.".

(** [Math.floor((now - start) / 1000)] *)
Definition seconds_between (start now : Z) : Z := (now - start) / 1000.

(** [loadTimeLogs]; [fault] is the error of the query, if it has one: the
    [catch] logs it and the list stays as it was. *)
Definition loadTimeLogs (user : option string) (taskId : string)
    (fault : option Store.Error) (w : World) : World :=
  match user with
  | None => w
  | Some _ =>
      match fault with
      | Some _ => signal (ConsoleError "Error loading time logs:") w
      | None => setTimeLogs (Store.select_logs taskId (db w)) w
      end
  end.

Definition loadActiveTimer (user : option string) (taskId : string) (now : Z)
    (w : World) : World :=
  match user with
  | None => w
  | Some u =>
      match Store.select_open taskId u (db w) with
      | Some data =>
          let startTime := SubtaskTimeLog.start_time data in
          setElapsedSeconds (seconds_between startTime now)
            (setActiveTimer
               (Some (mkActive (SubtaskTimeLog.id data)
                               (SubtaskTimeLog.subtask_name data) startTime))
               w)
      | None => w
      end
  end.

(** The first line of [handleStartTimer]: [if (!user || activeTimer) return]. *)
Definition may_start (user : option string) (w : World) : option string :=
  match user, activeTimer (guard w) with
  | Some u, None => Some u
  | _, _ => None
  end.

(** The request of [handleStartTimer] at the store.  [fault] is a failure
    of the call itself; [new_id] is the id the store gives the row. *)
Definition start_request (fault : option Store.Error) (new_id taskId u
    subtaskName : string) (startTime : Z) (d : Store.t)
    : (Store.Error + SubtaskTimeLog.t) * Store.t :=
  match fault with
  | Some e => (inl e, d)
  | None =>
      Store.insert
        (SubtaskTimeLog.mk new_id taskId u subtaskName startTime None None) d
  end.

(** [handleStartTimer] from the answer on; [later] is the clock when
    [loadActiveTimer] reads it. *)
Definition handleStartTimer_receive (user : option string) (taskId
    subtaskName : string) (startTime later : Z)
    (res : Store.Error + SubtaskTimeLog.t) (w : World) : World :=
  setLoading false
    match res with
    | inr data =>
        setElapsedSeconds 0
          (setActiveTimer
             (Some (mkActive (SubtaskTimeLog.id data) subtaskName startTime))
             w)
    | inl error =>
        if is_unique_violation error
        then loadActiveTimer user taskId later (signal already_running w)
        else signal (Alert "Failed to start timer.")
               (signal (ConsoleError "Error starting timer:") w)
    end.

Definition handleStartTimer (user : option string) (taskId subtaskName
    : string) (now later : Z) (new_id : string) (fault : option Store.Error)
    (w : World) : World :=
  match may_start user w with
  | None => w
  | Some u =>
      let w1 := setLoading true w in
      let '(res, d) :=
        start_request fault new_id taskId u subtaskName now (db w1) in
      handleStartTimer_receive user taskId subtaskName now later res
        (setDb d w1)
  end.

(** [handleStopTimer]; [fault] is the error of the update and
    [logs_fault] that of the query of [loadTimeLogs], if they have one. *)
Definition handleStopTimer (user : option string) (taskId : string)
    (now later : Z) (fault logs_fault : option Store.Error) (w : World)
    : World :=
  match activeTimer (guard w), user with
  | Some active, Some _ =>
      let w1 := setLoading true w in
      let endTime := now in
      let durationSeconds := seconds_between (startTime active) endTime in
      setLoading false
        match fault with
        | Some _ =>
            signal (Alert "Failed to stop timer.")
              (signal (ConsoleError "Error stopping timer:") w1)
        | None =>
            let w2 :=
              setDb (Store.close (id active) endTime durationSeconds (db w1))
                    w1 in
            loadActiveTimer user taskId later
              (loadTimeLogs user taskId logs_fault
                 (setElapsedSeconds 0 (setActiveTimer None w2)))
        end
  | _, _ => w
  end.

(** [log.duration_seconds] as a condition, and [log.duration_seconds || 0]. *)
Definition has_duration (l : SubtaskTimeLog.t) : bool :=
  match SubtaskTimeLog.duration_seconds l with
  | Some d => negb (d =? 0)
  | None => false
  end.

Definition duration_or_zero (l : SubtaskTimeLog.t) : Z :=
  match SubtaskTimeLog.duration_seconds l with
  | Some d => d
  | None => 0
  end.

Definition getTotalTimeForSubtask (s : State) (subtaskName : string) : Z :=
  fold_left (fun total log => total + duration_or_zero log)
    (filter (fun log =>
               String.eqb (SubtaskTimeLog.subtask_name log) subtaskName
               && has_duration log)
            (timeLogs s))
    0.

(** [activeTimer?.subtaskName === task.title] *)
Definition isActive (s : State) (title : string) : bool :=
  match activeTimer s with
  | Some a => String.eqb (subtaskName a) title
  | None => false
  end.

(** The number of seconds a row of the list shows. *)
Definition displayed_seconds (s : State) (title : string) : Z :=
  if isActive s title then elapsedSeconds s
  else getTotalTimeForSubtask s title.

(** [useState(null)], [useState(0)], [useState([])], [useState(false)] *)
Definition initial : State := mkState None 0 [] false.

(** The states of the guard for a pair, as the spec names them. *)
Definition Idle (w : World) : Prop := activeTimer (guard w) = None.

Definition Running (user taskId : string) (a : ActiveTimer) (w : World)
    : Prop :=
  activeTimer (guard w) = Some a /\
  exists row, filter (Store.open_for taskId user) (db w) = [row] /\
              SubtaskTimeLog.id row = id a.

(** The invariant of the partial unique index. *)
Definition unique_open (d : Store.t) : Prop :=
  forall task user,
    (length (filter (Store.open_for task user) d) <= 1)%nat.

(** The spec's aggregate: the durations of the closed rows of a name. *)
Definition is_closed (l : SubtaskTimeLog.t) : bool := negb (Store.is_open l).

Definition closed_total (logs : list SubtaskTimeLog.t) (name : string) : Z :=
  list_sum_Z
    (map duration_or_zero
       (filter (fun l => String.eqb (SubtaskTimeLog.subtask_name l) name
                         && is_closed l)
               logs)).

End Timer.

(** ** The spec's formulas, to compare the code with *)

(** [round (num / den)] on the exact quotient, a tie rounded up as
    [Math.round] does it. *)
Definition round_half_up (num den : Z) : Z := (2 * num + den) / (2 * den).

(** Progress as the spec defines it. *)
Definition spec_progress (items : list Subtask.t) : Z :=
  if total_count items =? 0 then 0
  else round_half_up (100 * completed_count items) (total_count items).

(** The same with a tie rounded to the even neighbour. *)
Definition spec_progress_half_even (items : list Subtask.t) : Z :=
  if total_count items =? 0 then 0
  else F64.rne (100 * completed_count items) (total_count items).

(** Is [100 * completed / total] halfway between two integers? *)
Definition is_tie (items : list Subtask.t) : bool :=
  (200 * completed_count items + total_count items)
    mod (2 * total_count items) =? 0.

(** [n] subtasks with the ids ["s0"], ["s1"], ..., of which the first [c]
    are completed. *)
Definition sample_items (c n : nat) : list Subtask.t :=
  map (fun i =>
         Subtask.mk ("s" ++ NilZero.string_of_uint (Nat.to_uint i)) "Design"
                    (Nat.ltb i c))
      (seq 0 n).

(** The statuses of the spec's example. *)
Definition example_statuses : list Status.t :=
  [ Status.mk (IdNum 1) "To Do";
    Status.mk (IdNum 2) "In Progress";
    Status.mk (IdNum 3) "Done" ].

(** The value [calculateProgress(items)] leaves in [progress]. *)
Definition derived_progress (items : list Subtask.t) : Z :=
  Modal.progress (Modal.exec (Modal.calculateProgress items) Modal.initial).

Definition in_range (p : Z) : Prop := 0 <= p <= 100.

(** A sequence of operations from the state of the first render. *)
Definition run_all (task : Task.t) (ops : list Modal.Op) : Modal.State :=
  fold_left (fun s op => Modal.exec (Modal.run task op) s) ops Modal.initial.

(** What [checkAutoStatusUpdate] leaves in the trace. *)
Definition infer_events (task : Task.t) (sts : list Status.t)
    (items : list Subtask.t) : list Modal.Event :=
  Modal.Infer items ::
  (if truthy (Modal.newStatusId sts task items)
   then [Modal.Send (Modal.UpdateTaskStatus (Task.id task)
                       (Modal.newStatusId sts task items))]
   else []).

(** The statuses pushed in a trace. *)
Definition status_updates (tr : list Modal.Event) : list JsId :=
  flat_map (fun e =>
              match e with
              | Modal.Send (Modal.UpdateTaskStatus _ i) => [i]
              | _ => []
              end)
           tr.

(** The spec's three classes and their patterns. *)
Inductive StatusClass : Set := NotStarted | InProgress | Done.

Definition classify (completed total : Z) : StatusClass :=
  if completed =? 0 then NotStarted
  else if completed =? total then Done
  else InProgress.

Definition pattern_of (c : StatusClass) : Regex.t :=
  match c with
  | NotStarted => not_started_re
  | InProgress => in_progress_re
  | Done => done_re
  end.

Definition matches (c : StatusClass) (st : Status.t) : bool :=
  Regex.test (pattern_of c) (Status.label st).

(** Is [e] an evaluation of the inference? *)
Definition is_infer (e : Modal.Event) : bool :=
  match e with
  | Modal.Infer _ => true
  | _ => false
  end.

(** Binary64 arithmetic of the kernel and of the Standard Library, on the
    expression of [calculateProgress]. *)
Definition reference_prim (c n : Z) : spec_float :=
  Prim2SF
    (PrimFloat.mul
       (PrimFloat.div (PrimFloat.of_uint63 (Uint63.of_Z c))
                      (PrimFloat.of_uint63 (Uint63.of_Z n)))
       (PrimFloat.of_uint63 (Uint63.of_Z 100))).

Definition reference_spec (c n : Z) : spec_float :=
  SF64mul
    (SF64div (binary_normalize prec emax c 0 false)
             (binary_normalize prec emax n 0 false))
    (binary_normalize prec emax 100 0 false).

Definition agrees_at (c n : Z) : bool :=
  let mine := F64.mul (F64.div (F64.of_Z c) (F64.of_Z n)) (F64.of_Z 100) in
  match F64.of_spec (reference_prim c n), F64.of_spec (reference_spec c n) with
  | Some x, Some y => F64.eqv x mine && F64.eqv y mine
  | _, _ => false
  end.

(** All [c <= n] with [1 <= n <= bound]. *)
Definition agrees_up_to (bound : nat) : bool :=
  forallb (fun n =>
             forallb (fun c => agrees_at (Z.of_nat c) (Z.of_nat n))
                     (seq 0 (S n)))
          (seq 1 bound).

(** The two list updates of the optimistic handlers. *)
Definition toggled (id : string) (b : bool) (l : list Subtask.t)
    : list Subtask.t :=
  map (fun t => if Modal.id_is id t then Modal.set_completed b t else t) l.

Definition without (id : string) (l : list Subtask.t) : list Subtask.t :=
  filter (fun t => negb (Modal.id_is id t)) l.

(** What a pattern denotes: the words an alternative matches. *)
Inductive atom_word : Regex.atom -> list ascii -> Prop :=
| word_chr (c x : ascii) : Regex.chr_eq c x = true -> atom_word (Regex.Chr c) [x]
| word_space (x : ascii) : Regex.is_space x = true -> atom_word Regex.OptSpace [x]
| word_no_space : atom_word Regex.OptSpace [].

Inductive alt_word : list Regex.atom -> list ascii -> Prop :=
| word_nil : alt_word [] []
| word_cons (a : Regex.atom) (p : list Regex.atom) (u v : list ascii) :
    atom_word a u -> alt_word p v -> alt_word (a :: p) (u ++ v).

(** [re] matches [s]: some alternative matches a factor of [s]. *)
Definition denotes (re : Regex.t) (s : list ascii) : Prop :=
  exists pre word post p,
    s = pre ++ word ++ post /\ In p re /\ alt_word p word.

(** The shape of the rows as the handlers write them: [duration_seconds]
    is set together with [end_time], on stop. *)
Definition open_rows_have_no_duration (logs : list SubtaskTimeLog.t) : Prop :=
  forall l, In l logs -> Store.is_open l = true ->
            SubtaskTimeLog.duration_seconds l = None.

(** A row after [stop]: [end_time] and [duration_seconds] set, the rest
    as it was. *)
Definition closed_at (now duration : Z) (row : SubtaskTimeLog.t)
    : SubtaskTimeLog.t :=
  SubtaskTimeLog.mk (SubtaskTimeLog.id row) (SubtaskTimeLog.task_id row)
    (SubtaskTimeLog.user_id row) (SubtaskTimeLog.subtask_name row)
    (SubtaskTimeLog.start_time row) (Some now) (Some duration).

(** ** SubtaskListEditor: the input row and the callers of the handlers *)

Module Editor.

(** [String.prototype.trim] on code units below 256: the characters it
    strips are those of [\s]. *)
Fixpoint trim_start (s : list ascii) : list ascii :=
  match s with
  | x :: s' => if Regex.is_space x then trim_start s' else s
  | [] => []
  end.

Definition trim_end (s : list ascii) : list ascii :=
  rev (trim_start (rev s)).

Definition trim_list (s : list ascii) : list ascii :=
  trim_end (trim_start s).

Definition trim (s : string) : string :=
  string_of_list_ascii (trim_list (list_ascii_of_string s)).

(** [handleAddItem]: the argument of the call of [onAdd], if there is one,
    and the value of [newItemText] afterwards. *)
Definition handleAddItem (newItemText : string) : option string * string :=
  if String.eqb (trim newItemText) "" then (None, newItemText)
  else (Some (trim newItemText), ""%string).

End Editor.

(** The [onAdd] of the editor is [handleAddSubtask]. *)
Definition add_from_editor (task : Task.t) (newItemText tempId : string)
    (r : Modal.Response Subtask.t) : Modal.M unit :=
  match fst (Editor.handleAddItem newItemText) with
  | Some text => Modal.handleAddSubtask task text tempId r
  | None => Modal.ret tt
  end.

(** The check box of a row, in [SubtaskTimer] and in [SubtaskListEditor]:
    [onToggle(task.id, !task.is_completed)]. *)
Definition click_toggle (task : Task.t) (row : Subtask.t)
    (r : Modal.Response unit) : Modal.M unit :=
  Modal.handleToggleSubtask task (Subtask.id row)
    (negb (Subtask.is_completed row)) r.

(** ** SubtaskTimer: what a row shows and when its button acts *)

Module Display.

(** [Number.prototype.toString] on an integer. *)
Definition toString (z : Z) : string := NilEmpty.string_of_int (Z.to_int z).

(** [s.padStart(2, '0')] *)
Definition padStart2 (s : string) : string :=
  match String.length s with
  | O => "00"
  | S O => String "0" s
  | _ => s
  end.

(** [formatTime]: [%] is the remainder that takes the sign of the
    dividend. *)
Definition formatTime (seconds : Z) : string :=
  let h := seconds / 3600 in
  let m := Z.rem seconds 3600 / 60 in
  let s := Z.rem seconds 60 in
  (padStart2 (toString h) ++ ":" ++ padStart2 (toString m) ++ ":"
   ++ padStart2 (toString s))%string.

(** The text of the time column of a row. *)
Definition time_column (s : Timer.State) (title : string) : string :=
  formatTime (Timer.displayed_seconds s title).

(** The callback of the one-second interval. *)
Definition tick (now : Z) (w : Timer.World) : Timer.World :=
  match Timer.activeTimer (Timer.guard w) with
  | Some a =>
      Timer.setElapsedSeconds (Timer.seconds_between (Timer.startTime a) now) w
  | None => w
  end.

(** Reading a clock text back: three fields of digits between colons. *)
Fixpoint take_field (s : string) : string * string :=
  match s with
  | EmptyString => (EmptyString, EmptyString)
  | String c r =>
      if Ascii.eqb c ":" then (EmptyString, r)
      else let (f, rest) := take_field r in (String c f, rest)
  end.

Definition field_value (f : string) : option Z :=
  option_map (fun d => Z.of_N (N.of_uint d)) (NilEmpty.uint_of_string f).

Definition read_clock (s : string) : option Z :=
  let (a, r1) := take_field s in
  let (b, r2) := take_field r1 in
  let (c, _) := take_field r2 in
  match field_value a, field_value b, field_value c with
  | Some h, Some m, Some sec => Some (3600 * h + 60 * m + sec)
  | _, _, _ => None
  end.

End Display.

(** ** Sessions sharing the remote table *)

(** What a session does to the table: it starts or stops, in whatever
    state its guard is. *)
Inductive TimerOp : Set :=
| OpStart (user : option string) (taskId subtaskName : string)
          (now later : Z) (new_id : string) (fault : option Store.Error)
| OpStop (user : option string) (taskId : string) (now later : Z)
         (fault logs_fault : option Store.Error).

Definition apply_op (op : TimerOp) (w : Timer.World) : Timer.World :=
  match op with
  | OpStart user taskId name now later new_id fault =>
      Timer.handleStartTimer user taskId name now later new_id fault w
  | OpStop user taskId now later fault logs_fault =>
      Timer.handleStopTimer user taskId now later fault logs_fault w
  end.

(** The tables that sessions can produce from the empty one. *)
Inductive reachable_db : Store.t -> Prop :=
| reach_empty : reachable_db []
| reach_step (g : Timer.State) (o : list Timer.Signal) (d : Store.t)
    (op : TimerOp) :
    reachable_db d ->
    reachable_db (Timer.db (apply_op op (Timer.mkWorld g d o))).

(** The total of a name over a list of rows, as [getTotalTimeForSubtask]
    computes it once the rows are loaded. *)
Definition total_of (logs : list SubtaskTimeLog.t) (name : string) : Z :=
  Timer.getTotalTimeForSubtask (Timer.mkState None 0 logs false) name.

(** ** The colour of the status selector *)

Inductive Colour : Set := Green | Blue | Default.

(** [String.prototype.toLowerCase] on code units below 256. *)
Definition lower (c : ascii) : ascii :=
  let n := N_of_ascii c in
  if (((65 <=? n) && (n <=? 90))
      || ((192 <=? n) && (n <=? 222) && negb (n =? 215)))%N
  then ascii_of_N (n + 32) else c.

Definition toLowerCase (s : string) : string :=
  string_of_list_ascii (map lower (list_ascii_of_string s)).

(** A word of lower-case ASCII letters. *)
Definition lower_word (w : list ascii) : Prop :=
  Forall (fun c => ((97 <=? N_of_ascii c) && (N_of_ascii c <=? 122))%N = true) w.

(** The [color] of the [select]: the status of the task, by its label. *)
Definition status_colour (sts : list Status.t) (task : Task.t) : Colour :=
  let label :=
    match find (fun s => strict_eq (Status.id s) (Task.status_id task)) sts with
    | Some current => toLowerCase (Status.label current)
    | None => ""%string
    end in
  if Timer.includes label "done" || Timer.includes label "complete"
     || Timer.includes label "finish" then Green
  else if Timer.includes label "progress" || Timer.includes label "review"
  then Blue
  else Default.

(** ** The migration script: subtasks out of the legacy HTML *)

Module Migrate.

Definition dq : ascii := ascii_of_nat 34.
Definition lt : ascii := ascii_of_nat 60.
Definition gt : ascii := ascii_of_nat 62.

(** The pieces of the pattern of [migrate]. *)
Inductive node : Set :=
| Lit (c : ascii)
| NotGtStar
| TrueOrFalse
| LazyDots.

Definition lits (s : string) : list node := map Lit (list_ascii_of_string s).

(** [.] stops at a line terminator. *)
Definition is_line_terminator (x : ascii) : bool :=
  let n := N_of_ascii x in ((n =? 10) || (n =? 13))%N.

Definition starts_with (p s : list ascii) : option (list ascii) :=
  (fix go (p s : list ascii) : option (list ascii) :=
     match p with
     | [] => Some s
     | a :: p' =>
         match s with
         | x :: s' => if Ascii.eqb a x then go p' s' else None
         | [] => None
         end
     end) p s.

(** What a match gives: the two captures and what follows the match. *)
Definition result : Set := bool * list ascii * list ascii.

(** [[^>]*]: the longest run first, then shorter ones; [k] is the rest of
    the pattern. *)
Fixpoint greedy (k : list ascii -> option result) (s : list ascii)
    : option result :=
  match s with
  | x :: s' =>
      if Ascii.eqb x gt then k s
      else match greedy k s' with
           | Some r => Some r
           | None => k s
           end
  | [] => k s
  end.

(** [(.*?)]: the shortest run first; [acc] is the capture so far, last
    character first. *)
Fixpoint lazy (k : list ascii -> list ascii -> option result)
    (acc s : list ascii) : option result :=
  match k s (rev acc) with
  | Some r => Some r
  | None =>
      match s with
      | x :: s' => if is_line_terminator x then None else lazy k (x :: acc) s'
      | [] => None
      end
  end.

(** A backtracking matcher; [(true|false)] tries [true] first. *)
Fixpoint run (p : list node) (s : list ascii) (checked : bool)
    (inner : list ascii) : option result :=
  match p with
  | [] => Some (checked, inner, s)
  | Lit c :: p' =>
      match s with
      | x :: s' => if Ascii.eqb c x then run p' s' checked inner else None
      | [] => None
      end
  | NotGtStar :: p' => greedy (fun s' => run p' s' checked inner) s
  | TrueOrFalse :: p' =>
      match
        match starts_with (list_ascii_of_string "true") s with
        | Some s' => run p' s' true inner
        | None => None
        end
      with
      | Some r => Some r
      | None =>
          match starts_with (list_ascii_of_string "false") s with
          | Some s' => run p' s' false inner
          | None => None
          end
      end
  | LazyDots :: p' => lazy (fun s' got => run p' s' checked got) [] s
  end.

(** [<li[^>]*data-type="taskItem"[^>]*data-checked="(true|false)"[^>]*>(.*?)<\/li>] *)
Definition pattern : list node :=
  lits "<li" ++ NotGtStar :: lits "data-type=" ++ Lit dq :: lits "taskItem"
  ++ Lit dq :: NotGtStar :: lits "data-checked=" ++ Lit dq :: TrueOrFalse
  :: Lit dq :: NotGtStar :: Lit gt :: LazyDots :: lits "</li>".

(** [regex.exec] from a position on: the first position with a match. *)
Fixpoint exec (s : list ascii) : option result :=
  match run pattern s false [] with
  | Some r => Some r
  | None =>
      match s with
      | [] => None
      | _ :: s' => exec s'
      end
  end.

(** [replace(/<[^>]*>?/gm, '')] *)
Fixpoint strip (in_tag : bool) (s : list ascii) : list ascii :=
  match s with
  | [] => []
  | x :: s' =>
      if in_tag then strip (negb (Ascii.eqb x gt)) s'
      else if Ascii.eqb x lt then strip true s'
      else x :: strip false s'
  end.

Definition clean (inner : list ascii) : list ascii :=
  Editor.trim_list (strip false inner).

Record LegacySubtask : Set := mk {
  id : string;
  text : string;
  completed : bool
}.

(** The [while] loop of [migrate]; [uuid k] is the [k]-th value of
    [crypto.randomUUID()].  Every match is at least three characters
    long, so the length of the input bounds the number of rounds. *)
Fixpoint collect (rounds : nat) (uuid : nat -> string) (k : nat)
    (s : list ascii) : list LegacySubtask :=
  match rounds with
  | O => []
  | S rounds' =>
      match exec s with
      | None => []
      | Some (isChecked, inner, rest) =>
          match clean inner with
          | [] => collect rounds' uuid k rest
          | text =>
              mk (uuid k) (string_of_list_ascii text) isChecked
              :: collect rounds' uuid (S k) rest
          end
      end
  end.

Definition parse_subtasks (uuid : nat -> string) (html : string)
    : list LegacySubtask :=
  collect (String.length html) uuid 0 (list_ascii_of_string html).

(** What [migrate] writes for a task: nothing when no subtask was found. *)
Definition migrate_task (uuid : nat -> string) (html : string)
    : option (list LegacySubtask) :=
  match parse_subtasks uuid html with
  | [] => None
  | subtasks => Some subtasks
  end.

(** A task item as the legacy editor stored it. *)
Definition render_item (completed : bool) (text : list ascii) : list ascii :=
  list_ascii_of_string "<li data-type="
  ++ dq :: list_ascii_of_string "taskItem" ++ dq
  :: list_ascii_of_string " data-checked=" ++ dq
  :: list_ascii_of_string (if completed then "true" else "false") ++ dq
  :: gt :: text ++ list_ascii_of_string "</li>".

Definition render (items : list (bool * list ascii)) : list ascii :=
  flat_map (fun it => render_item (fst it) (snd it)) items.

(** What a match leaves is never longer than what it was given. *)
Definition shrinks (k : list ascii -> option result) : Prop :=
  forall s r, k s = Some r -> (length (snd r) <= length s)%nat.

(** A text as the loop pushes it: not empty, without [<], trimmed. *)
Definition clean_text (st : LegacySubtask) : Prop :=
  text st <> ""%string /\
  Forall (fun x => Ascii.eqb x lt = false) (list_ascii_of_string (text st)) /\
  Editor.trim (text st) = text st.

(** The subtasks a list of items stands for: the [k]-th one found gets
    the [k]-th id. *)
Fixpoint imported (uuid : nat -> string) (k : nat)
    (items : list (bool * list ascii)) : list LegacySubtask :=
  match items with
  | [] => []
  | it :: items' =>
      mk (uuid k) (string_of_list_ascii (snd it)) (fst it)
      :: imported uuid (S k) items'
  end.

(** A text that comes back as it is: no [<], no line break, not blank at
    either end, not empty. *)
Definition plain (text : list ascii) : Prop :=
  text <> [] /\
  Forall (fun x => Ascii.eqb x lt = false /\ is_line_terminator x = false) text /\
  Editor.trim_list text = text.

End Migrate.

(** ** Shapes of inputs and states used by the properties below *)

(** The ids of the statuses are keys of rows: none is [0], the empty
    string, [null] or [undefined]. *)
Definition ids_are_keys (sts : list Status.t) : Prop :=
  forall st, In st sts -> truthy (Status.id st) = true.

(** An operation the store accepts; an insert is answered with the entity
    as it was inserted, and its temporary id is new to the list. *)
Definition accepted (s : Modal.State) (op : Modal.Op) : Prop :=
  match op with
  | Modal.Load _ => True
  | Modal.Add _ tempId r =>
      match r with
      | Modal.Failed => False
      | Modal.Data data =>
          Subtask.is_completed data = false /\
          forall t, In t (Modal.subtasks s) -> Subtask.id t <> tempId
      | Modal.NoData => True
      end
  | Modal.Toggle _ _ r => r <> Modal.Failed
  | Modal.Delete _ r => r <> Modal.Failed
  | Modal.UpdateText _ _ _ => True
  end.

Fixpoint all_accepted (task : Task.t) (s : Modal.State) (ops : list Modal.Op)
    : Prop :=
  match ops with
  | [] => True
  | op :: ops' =>
      accepted s op /\ all_accepted task (Modal.exec (Modal.run task op) s) ops'
  end.

(** Progress is the Progress of the list. *)
Definition in_sync (s : Modal.State) : Prop :=
  Modal.progress s = derived_progress (Modal.subtasks s).

(** Two labels that differ at most in the case of their ASCII letters
    [a] to [z]. *)
Definition same_ascii_case (a b : string) : Prop :=
  Forall2 (fun x y => Regex.upper x = Regex.upper y)
          (list_ascii_of_string a) (list_ascii_of_string b).

(** An add and a click on its temporary row that overlap: the click is
    made and answered while the insert is under way, and the answer of the
    insert, the entity [data], arrives last. *)
Definition add_overlapping_toggle (task : Task.t) (text tempId : string)
    (data : Subtask.t) (isCompleted : bool) (r : Modal.Response unit)
    : Modal.M unit :=
  Modal.bind (Modal.handleAddSubtask_send task text tempId)
    (fun updatedList =>
       Modal.bind (Modal.handleToggleSubtask task tempId isCompleted r)
         (fun _ =>
            Modal.handleAddSubtask_receive task tempId updatedList
              (Modal.Data data))).

(** * Properties *)

(** ** Rounding *)

Module F64_facts.
Import F64.

Lemma rne_bounds (num den : Z) :
  0 < den ->
  2 * num - den <= 2 * den * rne num den <= 2 * num + den.
Proof.
  intros Hd. unfold rne.
  pose proof (Z.div_mod num den ltac:(lia)) as E.
  pose proof (Z.mod_pos_bound num den Hd) as B.
  set (q := num / den) in *. set (r := num mod den) in *.
  destruct (Z.ltb_spec (2 * r) den); [nia|].
  destruct (Z.ltb_spec den (2 * r)); [nia|].
  destruct (Z.even q); nia.
Qed.

(** Below one, the rounding exponent is not positive and the fraction keeps
    at least 53 bits. *)
Lemma round_pos_spec (a b : Z) :
  0 < a -> 0 < b -> Z.log2 a <= Z.log2 b + 52 ->
  exists E, 0 <= E /\ expo (round_pos a b) = - E /\
    2 ^ 52 * b <= a * 2 ^ E /\
    2 * (a * 2 ^ E) - b <= 2 * b * mant (round_pos a b) <= 2 * (a * 2 ^ E) + b.
Proof.
  intros Ha Hb Hl.
  pose proof (Z.log2_spec a Ha) as [La _].
  pose proof (Z.log2_spec b Hb) as [_ Lb].
  pose proof (Z.log2_nonneg a) as Na. pose proof (Z.log2_nonneg b) as Nb.
  unfold round_pos, ulp_exponent.
  set (e0 := Z.log2 a - Z.log2 b - 53).
  assert (He0 : e0 <= -1) by (unfold e0; lia).
  assert (Hn0 : scale_num a e0 = a * 2 ^ (- e0))
    by (unfold scale_num; rewrite Z.max_r by lia; reflexivity).
  assert (Hd0 : scale_den b e0 = b)
    by (unfold scale_den; rewrite Z.max_l by lia; simpl; lia).
  rewrite Hn0, Hd0.
  destruct (Z.leb_spec (2 ^ 53 * b) (a * 2 ^ (- e0))) as [T|T]; cbn [mant expo].
  - exists (- e0 - 1).
    assert (Hn1 : scale_num a (e0 + 1) = a * 2 ^ (- e0 - 1))
      by (unfold scale_num; rewrite Z.max_r by lia; f_equal; f_equal; lia).
    assert (Hd1 : scale_den b (e0 + 1) = b)
      by (unfold scale_den; rewrite Z.max_l by lia; simpl; lia).
    rewrite Hn1, Hd1.
    assert (P : 2 ^ (- e0) = 2 * 2 ^ (- e0 - 1)).
    { replace (- e0) with (Z.succ (- e0 - 1)) at 1 by lia.
      apply Z.pow_succ_r. lia. }
    split; [lia|]. split; [lia|]. split; [lia|].
    apply rne_bounds; lia.
  - exists (- e0). rewrite Hn0, Hd0.
    split; [lia|]. split; [lia|]. split; [|apply rne_bounds; lia].
    assert (Q : 2 ^ (Z.log2 b + 53) <= a * 2 ^ (- e0)).
    { replace (Z.log2 b + 53) with (Z.log2 a + - e0) by (unfold e0; lia).
      rewrite Z.pow_add_r by lia.
      apply Z.mul_le_mono_nonneg_r; [apply Z.pow_nonneg|]; lia. }
    replace (Z.log2 b + 53) with (Z.succ (Z.log2 b) + 52) in Q by lia.
    rewrite Z.pow_add_r in Q by lia. lia.
Qed.

(** The result has 53 significant bits. *)
Lemma round_pos_precision (a b : Z) :
  0 < a -> 0 < b -> Z.log2 a <= Z.log2 b + 52 ->
  2 ^ 52 <= mant (round_pos a b) <= 2 ^ 53.
Proof.
  intros Ha Hb Hl.
  pose proof (Z.log2_spec a Ha) as [La Ua].
  pose proof (Z.log2_spec b Hb) as [Lb Ub].
  pose proof (Z.log2_nonneg a) as Na. pose proof (Z.log2_nonneg b) as Nb.
  unfold round_pos, ulp_exponent.
  set (e0 := Z.log2 a - Z.log2 b - 53).
  assert (He0 : e0 <= -1) by (unfold e0; lia).
  assert (Hn0 : scale_num a e0 = a * 2 ^ (- e0))
    by (unfold scale_num; rewrite Z.max_r by lia; reflexivity).
  assert (Hd0 : scale_den b e0 = b)
    by (unfold scale_den; rewrite Z.max_l by lia; simpl; lia).
  assert (W : forall num, 2 ^ 52 * b <= num -> num <= 2 ^ 53 * b ->
              2 ^ 52 <= rne num b <= 2 ^ 53).
  { intros num Lo Hi. pose proof (rne_bounds num b Hb) as R.
    change (2 ^ 52) with 4503599627370496 in *.
    change (2 ^ 53) with 9007199254740992 in *.
    split.
    - assert (4503599627370496 - 1 < rne num b); [|lia].
      apply (Z.mul_lt_mono_pos_l (2 * b)); lia.
    - assert (rne num b < 9007199254740992 + 1); [|lia].
      apply (Z.mul_lt_mono_pos_l (2 * b)); lia. }
  rewrite Hn0, Hd0.
  destruct (Z.leb_spec (2 ^ 53 * b) (a * 2 ^ (- e0))) as [T|T]; cbn [mant expo].
  - assert (Hn1 : scale_num a (e0 + 1) = a * 2 ^ (- e0 - 1))
      by (unfold scale_num; rewrite Z.max_r by lia; f_equal; f_equal; lia).
    assert (Hd1 : scale_den b (e0 + 1) = b)
      by (unfold scale_den; rewrite Z.max_l by lia; simpl; lia).
    rewrite Hn1, Hd1.
    assert (P : 2 ^ (- e0) = 2 * 2 ^ (- e0 - 1)).
    { replace (- e0) with (Z.succ (- e0 - 1)) at 1 by lia.
      apply Z.pow_succ_r. lia. }
    apply W; [lia|].
    assert (Q : a * 2 ^ (- e0 - 1) < 2 ^ (Z.log2 b + 53)).
    { replace (Z.log2 b + 53) with (Z.succ (Z.log2 a) + (- e0 - 1))
        by (unfold e0; lia).
      rewrite Z.pow_add_r by lia.
      apply Z.mul_lt_mono_pos_r; [apply Z.pow_pos_nonneg|]; lia. }
    rewrite Z.pow_add_r in Q by lia.
    assert (2 ^ Z.log2 b * 2 ^ 53 <= b * 2 ^ 53)
      by (apply Z.mul_le_mono_nonneg_r; lia).
    lia.
  - rewrite Hn0, Hd0. apply W; [|lia].
    assert (Q : 2 ^ (Z.log2 b + 53) <= a * 2 ^ (- e0)).
    { replace (Z.log2 b + 53) with (Z.log2 a + - e0) by (unfold e0; lia).
      rewrite Z.pow_add_r by lia.
      apply Z.mul_le_mono_nonneg_r; [apply Z.pow_nonneg|]; lia. }
    replace (Z.log2 b + 53) with (Z.succ (Z.log2 b) + 52) in Q by lia.
    rewrite Z.pow_add_r in Q by lia. lia.
Qed.

Lemma js_round_spec (m E : Z) :
  0 <= E ->
  let p := js_round (mk m (- E)) in
  2 * 2 ^ E * p <= 2 * m + 2 ^ E < 2 * 2 ^ E * p + 2 * 2 ^ E.
Proof.
  intros HE p. subst p. unfold js_round. cbn [mant expo].
  assert (0 < 2 ^ E) by (apply Z.pow_pos_nonneg; lia).
  destruct (Z.leb_spec 0 (- E)).
  - assert (E = 0) by lia. subst E. change (- 0) with 0. rewrite !Z.pow_0_r. lia.
  - replace (- - E) with E by lia.
    replace (1 - - E) with (Z.succ E) by lia.
    rewrite Z.pow_succ_r by lia.
    pose proof (Z.div_mod (2 * m + 2 ^ E) (2 * 2 ^ E) ltac:(lia)).
    pose proof (Z.mod_pos_bound (2 * m + 2 ^ E) (2 * 2 ^ E) ltac:(lia)).
    nia.
Qed.

Lemma div_of_Z (c n : Z) :
  0 < c -> div (of_Z c) (of_Z n) = round_pos c n.
Proof.
  intros Hc. unfold div, of_Z, round. cbn [mant expo].
  change (Z.max 0 (0 - 0)) with 0. rewrite Z.pow_0_r, !Z.mul_1_r.
  destruct (Z.leb_spec c 0); [lia|reflexivity].
Qed.

Lemma mul_of_Z (m E k : Z) :
  0 < m -> 0 < k -> 0 <= E ->
  mul (mk m (- E)) (of_Z k) = round_pos (m * k) (2 ^ E).
Proof.
  intros Hm Hk HE. unfold mul, of_Z, round. cbn [mant expo].
  replace (Z.max 0 (- E + 0)) with 0 by lia.
  replace (Z.max 0 (- (- E + 0))) with E by lia.
  rewrite Z.pow_0_r, Z.mul_1_r.
  destruct (Z.leb_spec (m * k) 0); [nia|reflexivity].
Qed.

Lemma progress_of_zero (n : Z) : progress_of_counts 0 n = 0.
Proof. reflexivity. Qed.

(** The two roundings of [(c / n) * 100]: [m1 / P1] is the quotient,
    [m2 / P2] the product, each within half a unit of its last place. *)
Lemma progress_steps (c n : Z) :
  0 < c <= n ->
  exists P1 P2 m1 m2 : Z,
    0 < P1 /\ 0 < P2 /\
    2 ^ 52 * n <= c * P1 /\
    2 * (c * P1) - n <= 2 * n * m1 <= 2 * (c * P1) + n /\
    2 ^ 52 * P1 <= m1 * 100 * P2 /\
    2 * (m1 * 100 * P2) - P1 <= 2 * P1 * m2 <= 2 * (m1 * 100 * P2) + P1 /\
    2 * P2 * progress_of_counts c n <= 2 * m2 + P2
      < 2 * P2 * progress_of_counts c n + 2 * P2.
Proof.
  intros [Hc Hn].
  unfold progress_of_counts. rewrite div_of_Z by exact Hc.
  destruct (round_pos_spec c n) as (E1 & HE1 & He1 & N1 & B1); [lia|lia| |].
  { pose proof (Z.log2_le_mono c n Hn). lia. }
  destruct (round_pos c n) as [m1 e1]. cbn [mant expo] in *. subst e1.
  assert (HP1 : 0 < 2 ^ E1) by (apply Z.pow_pos_nonneg; lia).
  assert (Hm1 : 0 < m1 <= 2 ^ E1) by nia.
  rewrite mul_of_Z by lia.
  destruct (round_pos_spec (m1 * 100) (2 ^ E1)) as (E2 & HE2 & He2 & N2 & B2);
    [lia|lia| |].
  { rewrite Z.log2_pow2 by lia.
    assert (Z.log2 (m1 * 100) < E1 + 53); [|lia].
    apply Z.log2_lt_pow2; [lia|].
    rewrite Z.pow_add_r by lia.
    change (2 ^ 53) with 9007199254740992. lia. }
  destruct (round_pos (m1 * 100) (2 ^ E1)) as [m2 e2].
  cbn [mant expo] in *. subst e2.
  assert (HP2 : 0 < 2 ^ E2) by (apply Z.pow_pos_nonneg; lia).
  exists (2 ^ E1), (2 ^ E2), m1, m2.
  split; [exact HP1|]. split; [exact HP2|].
  split; [exact N1|]. split; [exact B1|]. split; [exact N2|]. split; [exact B2|].
  apply (js_round_spec m2 E2 HE2).
Qed.

End F64_facts.

(** ** Progress *)

Lemma cancel_le (k a b : Z) : 0 < k -> k * a <= k * b -> a <= b.
Proof. intros Hk H. apply (Z.mul_le_mono_pos_l a b k Hk). exact H. Qed.

Lemma cancel_lt (k a b : Z) : 0 < k -> k * a < k * b -> a < b.
Proof. intros Hk H. apply (Z.mul_lt_mono_pos_l k a b Hk). exact H. Qed.

(** The rounded quotient of [c <= n] is at most one. *)
Lemma quotient_le_one (c n P1 m1 : Z) :
  0 < c <= n -> 0 < P1 ->
  2 * (c * P1) - n <= 2 * n * m1 <= 2 * (c * P1) + n ->
  0 <= m1 <= P1.
Proof.
  intros Hc HP1 B1.
  assert (c * P1 <= n * P1) by (apply Z.mul_le_mono_nonneg_r; lia).
  assert (0 < c * P1) by (apply Z.mul_pos_pos; lia).
  split.
  - assert (-1 < m1); [|lia]. apply (cancel_lt (2 * n)); lia.
  - assert (m1 < P1 + 1); [|lia]. apply (cancel_lt (2 * n)); lia.
Qed.

Lemma range_arith (c n p P1 P2 m1 m2 : Z) :
  0 < c <= n -> 0 < P1 -> 0 < P2 ->
  2 * (c * P1) - n <= 2 * n * m1 <= 2 * (c * P1) + n ->
  2 * (m1 * 100 * P2) - P1 <= 2 * P1 * m2 <= 2 * (m1 * 100 * P2) + P1 ->
  2 * P2 * p <= 2 * m2 + P2 < 2 * P2 * p + 2 * P2 ->
  0 <= p <= 100.
Proof.
  intros Hc HP1 HP2 B1 B2 R.
  destruct (quotient_le_one c n P1 m1 Hc HP1 B1) as [M0 M1].
  assert (Q0 : 0 <= m1 * 100 * P2)
    by (apply Z.mul_nonneg_nonneg; lia).
  assert (Q1 : m1 * (100 * P2) <= P1 * (100 * P2))
    by (apply Z.mul_le_mono_nonneg_r; lia).
  assert (Hm2 : 0 <= m2 <= 100 * P2).
  { split.
    - assert (-1 < m2); [|lia]. apply (cancel_lt (2 * P1)); lia.
    - assert (m2 < 100 * P2 + 1); [|lia]. apply (cancel_lt (2 * P1)); lia. }
  split.
  - assert (-1 < p); [|lia]. apply (cancel_lt (2 * P2)); lia.
  - assert (p < 101); [|lia]. apply (cancel_lt (2 * P2)); lia.
Qed.

(** With fewer than [2 ^ 32] items the two rounding errors together stay
    below [1 / (2 * n)], the distance of [100 * c / n + 1/2] from the next
    integer. *)
Lemma window_arith (c n t p P1 P2 m1 m2 : Z) :
  0 < c <= n -> n < 4294967296 -> 0 < P1 -> 0 < P2 ->
  4503599627370496 * n <= c * P1 ->
  2 * (c * P1) - n <= 2 * n * m1 <= 2 * (c * P1) + n ->
  4503599627370496 * P1 <= m1 * 100 * P2 ->
  2 * (m1 * 100 * P2) - P1 <= 2 * P1 * m2 <= 2 * (m1 * 100 * P2) + P1 ->
  2 * P2 * p <= 2 * m2 + P2 < 2 * P2 * p + 2 * P2 ->
  (2 * n * t + 1 <= 200 * c + n -> t <= p) /\
  (200 * c + n + 1 <= 2 * n * t -> p < t).
Proof.
  intros Hc Hn HP1 HP2 N1 B1 N2 B2 R.
  destruct (quotient_le_one c n P1 m1 Hc HP1 B1) as [_ Hm1].
  assert (K1 : 4503599627370496 <= P1).
  { apply (cancel_le n); [lia|].
    assert (c * P1 <= n * P1) by (apply Z.mul_le_mono_nonneg_r; lia). lia. }
  assert (K2 : 4503599627370496 <= 100 * P2).
  { apply (cancel_le P1); [lia|].
    assert (m1 * (100 * P2) <= P1 * (100 * P2))
      by (apply Z.mul_le_mono_nonneg_r; lia). lia. }
  assert (Hsmall : n * (100 * P2) + n * P1 < P1 * P2).
  { assert (2 * (n * (100 * P2)) <= P1 * P2).
    { replace (2 * (n * (100 * P2))) with ((200 * n) * P2) by ring.
      apply Z.mul_le_mono_nonneg_r; lia. }
    assert (2 * (n * P1) < P2 * P1).
    { replace (2 * (n * P1)) with ((2 * n) * P1) by ring.
      apply Z.mul_lt_mono_pos_r; lia. }
    lia. }
  assert (Q1 : 100 * P2 * (2 * n * m1) <= 100 * P2 * (2 * (c * P1) + n))
    by (apply Z.mul_le_mono_nonneg_l; lia).
  assert (Q2 : 100 * P2 * (2 * (c * P1) - n) <= 100 * P2 * (2 * n * m1))
    by (apply Z.mul_le_mono_nonneg_l; lia).
  assert (Q3 : n * (2 * P1 * m2) <= n * (2 * (m1 * 100 * P2) + P1))
    by (apply Z.mul_le_mono_nonneg_l; lia).
  assert (Q4 : n * (2 * (m1 * 100 * P2) - P1) <= n * (2 * P1 * m2))
    by (apply Z.mul_le_mono_nonneg_l; lia).
  assert (HnP1 : 0 < n * P1) by (apply Z.mul_pos_pos; lia).
  assert (HPP : 0 < P1 * P2) by (apply Z.mul_pos_pos; lia).
  assert (R1 : n * P1 * (2 * P2 * p) <= n * P1 * (2 * m2 + P2))
    by (apply Z.mul_le_mono_nonneg_l; lia).
  assert (R2 : n * P1 * (2 * m2 + P2) < n * P1 * (2 * P2 * p + 2 * P2))
    by (apply Z.mul_lt_mono_pos_l; lia).
  split; intros Ht.
  - apply Z.nlt_ge. intros Hlt.
    assert (T0 : 2 * n * (p + 1) <= 2 * n * t)
      by (apply Z.mul_le_mono_nonneg_l; lia).
    assert (T1 : P1 * P2 * (2 * n * (p + 1)) <= P1 * P2 * (2 * n * t))
      by (apply Z.mul_le_mono_nonneg_l; lia).
    assert (T2 : P1 * P2 * (2 * n * t + 1) <= P1 * P2 * (200 * c + n))
      by (apply Z.mul_le_mono_nonneg_l; lia).
    lia.
  - apply Z.nle_gt. intros Hle.
    assert (T0 : 2 * n * t <= 2 * n * p)
      by (apply Z.mul_le_mono_nonneg_l; lia).
    assert (T1 : P1 * P2 * (2 * n * t) <= P1 * P2 * (2 * n * p))
      by (apply Z.mul_le_mono_nonneg_l; lia).
    assert (T2 : P1 * P2 * (200 * c + n + 1) <= P1 * P2 * (2 * n * t))
      by (apply Z.mul_le_mono_nonneg_l; lia).
    lia.
Qed.

Lemma progress_of_counts_range (c n : Z) :
  0 <= c <= n -> 0 <= progress_of_counts c n <= 100.
Proof.
  intros [Hc Hn].
  destruct (Z.eq_dec c 0) as [->|Hc0].
  - rewrite F64_facts.progress_of_zero. lia.
  - destruct (F64_facts.progress_steps c n) as
      (P1 & P2 & m1 & m2 & HP1 & HP2 & _ & B1 & _ & B2 & R); [lia|].
    apply (range_arith c n _ P1 P2 m1 m2); auto; lia.
Qed.

Lemma progress_of_counts_window (c n t : Z) :
  0 < c <= n -> n < 2 ^ 32 ->
  (2 * n * t + 1 <= 200 * c + n -> t <= progress_of_counts c n) /\
  (200 * c + n + 1 <= 2 * n * t -> progress_of_counts c n < t).
Proof.
  intros Hc Hn.
  destruct (F64_facts.progress_steps c n Hc) as
    (P1 & P2 & m1 & m2 & HP1 & HP2 & N1 & B1 & N2 & B2 & R).
  apply (window_arith c n t _ P1 P2 m1 m2); assumption.
Qed.

(** [Math.round((c / n) * 100)] is an integer nearest to [100 * c / n], and
    the one [round_half_up] gives unless [100 * c / n] is a tie. *)
Lemma progress_of_counts_nearest (c n : Z) :
  0 <= c <= n -> 0 < n < 2 ^ 32 ->
  Z.abs (2 * n * progress_of_counts c n - 200 * c) <= n /\
  ((200 * c + n) mod (2 * n) <> 0 ->
   progress_of_counts c n = round_half_up (100 * c) n).
Proof.
  intros [Hc Hcn] [Hn Hn32].
  unfold round_half_up. replace (2 * (100 * c) + n) with (200 * c + n) by ring.
  pose proof (Z.div_mod (200 * c + n) (2 * n) ltac:(lia)) as D.
  pose proof (Z.mod_pos_bound (200 * c + n) (2 * n) ltac:(lia)) as B.
  set (k := (200 * c + n) / (2 * n)) in *.
  set (r := (200 * c + n) mod (2 * n)) in *.
  destruct (Z.eq_dec c 0) as [->|Hc0].
  - rewrite F64_facts.progress_of_zero.
    assert (k = 0) by nia. split; [lia|]. intros _. lia.
  - assert (Hc' : 0 < c <= n) by lia.
    destruct (Z.eq_dec r 0) as [Hr|Hr].
    + destruct (progress_of_counts_window c n (k - 1) Hc' Hn32) as [Lo _].
      destruct (progress_of_counts_window c n (k + 1) Hc' Hn32) as [_ Hi].
      assert (k - 1 <= progress_of_counts c n) by (apply Lo; nia).
      assert (progress_of_counts c n < k + 1) by (apply Hi; nia).
      split; [|intros T; contradiction].
      assert (E : progress_of_counts c n = k - 1 \/ progress_of_counts c n = k)
        by lia.
      destruct E as [-> | ->]; nia.
    + destruct (progress_of_counts_window c n k Hc' Hn32) as [Lo _].
      destruct (progress_of_counts_window c n (k + 1) Hc' Hn32) as [_ Hi].
      assert (k <= progress_of_counts c n) by (apply Lo; nia).
      assert (progress_of_counts c n < k + 1) by (apply Hi; nia).
      assert (E : progress_of_counts c n = k) by lia.
      split; [rewrite E; nia|intros _; exact E].
Qed.

Lemma completed_le_total (items : list Subtask.t) :
  0 <= completed_count items <= total_count items.
Proof.
  unfold completed_count, total_count.
  pose proof (filter_length_le Subtask.is_completed items). lia.
Qed.

Lemma derived_progress_eq (items : list Subtask.t) :
  derived_progress items =
  if total_count items =? 0 then 0
  else progress_of_counts (completed_count items) (total_count items).
Proof.
  unfold derived_progress, Modal.exec, Modal.final_state,
    Modal.calculateProgress, total_count, completed_count.
  destruct items as [|x l]; reflexivity.
Qed.

Lemma calculateProgress_run (items : list Subtask.t) (s : Modal.State) :
  Modal.calculateProgress items s =
  (tt, Modal.mkState (Modal.subtasks s) (Modal.statuses s)
                     (derived_progress items),
   [Modal.SetProgress (derived_progress items)]).
Proof.
  unfold derived_progress, Modal.exec, Modal.final_state,
    Modal.calculateProgress.
  destruct items as [|x l]; reflexivity.
Qed.

Lemma derived_progress_range (items : list Subtask.t) :
  in_range (derived_progress items).
Proof.
  rewrite derived_progress_eq. unfold in_range.
  destruct (Z.eqb_spec (total_count items) 0); [lia|].
  apply progress_of_counts_range. apply completed_le_total.
Qed.

(** The model of binary64 division and multiplication gives the values of
    the kernel's floats and of the Standard Library's [SpecFloat] on the
    expression of [calculateProgress], for every list of up to 64 items. *)
Lemma F64_agrees_with_reference : agrees_up_to 64 = true.
Proof. vm_compute. reflexivity. Qed.

(** The kernel's floats on 23 of 40: [(23 / 40) * 100] is
    [8092405580431359 * 2 ^ (-47)], just below 57.5. *)
Lemma kernel_floats_on_23_of_40 :
  reference_prim 23 40 = S754_finite false 8092405580431359 (-47) /\
  option_map F64.js_round (F64.of_spec (reference_prim 23 40)) = Some 57.
Proof. vm_compute. split; reflexivity. Qed.

(** C1, as amended.  After [calculateProgress(items)], Progress is [0] for
    an empty list; for a non-empty list (of fewer than [2 ^ 32] items, as
    every array) it is an integer nearest to [100 * completed / total], and
    it is [round (100 * completed / total)] unless that quotient lies
    exactly halfway between two integers. *)
Theorem progress_is_nearest_percentage
    (items : list Subtask.t) (s : Modal.State) :
  total_count items < 2 ^ 32 ->
  let p := Modal.progress (Modal.exec (Modal.calculateProgress items) s) in
  (items = [] -> p = 0) /\
  (items <> [] ->
   Z.abs (2 * total_count items * p - 200 * completed_count items)
     <= total_count items /\
   (is_tie items = false -> p = spec_progress items)).
Proof.
  intros Hlen p. subst p.
  unfold Modal.exec, Modal.final_state. rewrite calculateProgress_run.
  cbn [fst snd Modal.progress].
  split.
  - intros ->. reflexivity.
  - intros Hne. rewrite derived_progress_eq. unfold spec_progress, is_tie.
    assert (Hn : 0 < total_count items).
    { unfold total_count. destruct items; [contradiction|simpl; lia]. }
    destruct (Z.eqb_spec (total_count items) 0) as [E|_]; [lia|].
    pose proof (completed_le_total items) as Hc.
    destruct (progress_of_counts_nearest (completed_count items)
                (total_count items) Hc (conj Hn Hlen)) as [Near Exact].
    split; [exact Near|].
    intros T. apply Exact. apply Z.eqb_neq. exact T.
Qed.

Lemma progress_is_nearest_percentage_witness :
  total_count (sample_items 1 3) < 2 ^ 32 /\
  Modal.progress
    (Modal.exec (Modal.calculateProgress (sample_items 1 3)) Modal.initial)
  = spec_progress (sample_items 1 3).
Proof.
  assert (H : total_count (sample_items 1 3) < 2 ^ 32) by (vm_compute; reflexivity).
  split; [exact H|].
  apply (progress_is_nearest_percentage (sample_items 1 3) Modal.initial H).
  - discriminate.
  - vm_compute; reflexivity.
Defined.

(** C1, the claim as written fails: with 23 of 40 subtasks completed the
    quotient is 57.5, which rounds to 58 (upwards and to even alike), and
    [calculateProgress] stores 57, for [(23 / 40) * 100] is
    57.49999999999999 in binary64. *)
Lemma progress_of_23_of_40 :
  derived_progress (sample_items 23 40) = 57 /\
  spec_progress (sample_items 23 40) = 58 /\
  spec_progress_half_even (sample_items 23 40) = 58 /\
  derived_progress (sample_items 23 40) <> spec_progress (sample_items 23 40).
Proof. vm_compute. repeat split; discriminate. Qed.

(** ** Handlers of the subtask list, evaluated *)

Lemma checkAutoStatusUpdate_run (task : Task.t) (items : list Subtask.t)
    (s : Modal.State) :
  Modal.checkAutoStatusUpdate task items s =
  (tt, s, infer_events task (Modal.statuses s) items).
Proof.
  unfold Modal.checkAutoStatusUpdate, infer_events, Modal.bind, Modal.emit,
    Modal.getStatuses, Modal.handleUpdateStatus, Modal.ret.
  destruct (truthy (Modal.newStatusId (Modal.statuses s) task items));
    reflexivity.
Qed.

Ltac run_handler :=
  unfold Modal.bind, Modal.getSubtasks, Modal.setSubtasks, Modal.setProgress,
    Modal.emit, Modal.ret;
  cbn [Modal.subtasks Modal.statuses Modal.progress];
  repeat (rewrite ?calculateProgress_run, ?checkAutoStatusUpdate_run;
          cbn [Modal.subtasks Modal.statuses Modal.progress app]).

Lemma handleAddSubtask_send_run (task : Task.t) (text tempId : string)
    (s : Modal.State) :
  let updatedList := Modal.subtasks s ++ [Subtask.mk tempId text false] in
  Modal.handleAddSubtask_send task text tempId s =
  (updatedList,
   Modal.mkState updatedList (Modal.statuses s) (derived_progress updatedList),
   [Modal.SetSubtasks updatedList;
    Modal.SetProgress (derived_progress updatedList);
    Modal.Send (Modal.InsertSubtask (Task.id task) text)]).
Proof.
  intros updatedList. unfold Modal.handleAddSubtask_send. run_handler.
  reflexivity.
Qed.

Lemma handleAddSubtask_receive_run (task : Task.t) (tempId : string)
    (updatedList : list Subtask.t) (r : Modal.Response Subtask.t)
    (s : Modal.State) :
  Modal.handleAddSubtask_receive task tempId updatedList r s =
  match r with
  | Modal.Data data =>
      let l := map (fun t => if Modal.id_is tempId t then data else t)
                   (Modal.subtasks s) in
      (tt, Modal.mkState l (Modal.statuses s) (Modal.progress s),
       Modal.SetSubtasks l :: infer_events task (Modal.statuses s) updatedList)
  | Modal.NoData =>
      (tt, s, infer_events task (Modal.statuses s) updatedList)
  | Modal.Failed =>
      let l := without tempId (Modal.subtasks s) in
      (tt, Modal.mkState l (Modal.statuses s) (Modal.progress s),
       Modal.ConsoleError "Error adding subtask:" :: Modal.SetSubtasks l
         :: infer_events task (Modal.statuses s) updatedList)
  end.
Proof.
  unfold Modal.handleAddSubtask_receive.
  destruct r; run_handler; reflexivity.
Qed.

Lemma handleToggleSubtask_send_run (task : Task.t) (id : string) (b : bool)
    (s : Modal.State) :
  let updatedList := toggled id b (Modal.subtasks s) in
  Modal.handleToggleSubtask_send task id b s =
  (tt,
   Modal.mkState updatedList (Modal.statuses s) (derived_progress updatedList),
   Modal.SetSubtasks updatedList
     :: Modal.SetProgress (derived_progress updatedList)
     :: infer_events task (Modal.statuses s) updatedList
     ++ [Modal.Send (Modal.UpdateCompleted id b)]).
Proof.
  intros updatedList. unfold Modal.handleToggleSubtask_send. run_handler.
  reflexivity.
Qed.

Lemma handleToggleSubtask_receive_run (id : string) (b : bool)
    (r : Modal.Response unit) (s : Modal.State) :
  Modal.handleToggleSubtask_receive id b r s =
  match r with
  | Modal.Failed =>
      let l := toggled id (negb b) (Modal.subtasks s) in
      (tt, Modal.mkState l (Modal.statuses s) (Modal.progress s),
       [Modal.ConsoleError "Error toggling subtask:"; Modal.SetSubtasks l])
  | _ => (tt, s, [])
  end.
Proof.
  unfold Modal.handleToggleSubtask_receive.
  destruct r; run_handler; reflexivity.
Qed.

Lemma handleDeleteSubtask_send_run (task : Task.t) (id : string)
    (s : Modal.State) :
  let updatedList := without id (Modal.subtasks s) in
  Modal.handleDeleteSubtask_send task id s =
  (find (Modal.id_is id) (Modal.subtasks s),
   Modal.mkState updatedList (Modal.statuses s) (derived_progress updatedList),
   Modal.SetSubtasks updatedList
     :: Modal.SetProgress (derived_progress updatedList)
     :: infer_events task (Modal.statuses s) updatedList
     ++ [Modal.Send (Modal.DeleteSubtask id)]).
Proof.
  intros updatedList. unfold Modal.handleDeleteSubtask_send. run_handler.
  reflexivity.
Qed.

Lemma handleDeleteSubtask_receive_progress (d : option Subtask.t)
    (r : Modal.Response unit) (s : Modal.State) :
  Modal.progress (Modal.exec (Modal.handleDeleteSubtask_receive d r) s)
  = Modal.progress s.
Proof.
  unfold Modal.handleDeleteSubtask_receive, Modal.exec, Modal.final_state.
  destruct r; try reflexivity. destruct d; reflexivity.
Qed.

Lemma exec_bind {A B : Type} (m : Modal.M A) (k : A -> Modal.M B)
    (s : Modal.State) :
  Modal.exec (Modal.bind m k) s
  = Modal.exec (k (fst (fst (m s)))) (Modal.final_state (m s)).
Proof.
  unfold Modal.exec, Modal.final_state, Modal.bind.
  destruct (m s) as [[a s1] t1]. cbn [fst snd].
  destruct (k a s1) as [[b s2] t2]. reflexivity.
Qed.

Lemma trace_bind {A B : Type} (m : Modal.M A) (k : A -> Modal.M B)
    (s : Modal.State) :
  Modal.trace (Modal.bind m k s)
  = Modal.trace (m s)
    ++ Modal.trace (k (fst (fst (m s))) (Modal.final_state (m s))).
Proof.
  unfold Modal.trace, Modal.final_state, Modal.bind.
  destruct (m s) as [[a s1] t1]. cbn [fst snd].
  destruct (k a s1) as [[b s2] t2]. reflexivity.
Qed.

(** ** C10: Progress stays a percentage *)

Lemma add_progress (task : Task.t) (text tempId : string)
    (r : Modal.Response Subtask.t) (s : Modal.State) :
  Modal.progress (Modal.exec (Modal.handleAddSubtask task text tempId r) s)
  = derived_progress (Modal.subtasks s ++ [Subtask.mk tempId text false]).
Proof.
  unfold Modal.handleAddSubtask. rewrite exec_bind.
  rewrite handleAddSubtask_send_run. cbn [fst snd Modal.final_state].
  unfold Modal.exec. rewrite handleAddSubtask_receive_run.
  destruct r; reflexivity.
Qed.

Lemma toggle_progress (task : Task.t) (id : string) (b : bool)
    (r : Modal.Response unit) (s : Modal.State) :
  Modal.progress (Modal.exec (Modal.handleToggleSubtask task id b r) s)
  = derived_progress (toggled id b (Modal.subtasks s)).
Proof.
  unfold Modal.handleToggleSubtask. rewrite exec_bind.
  rewrite handleToggleSubtask_send_run. cbn [fst snd Modal.final_state].
  unfold Modal.exec. rewrite handleToggleSubtask_receive_run.
  destruct r; reflexivity.
Qed.

Lemma delete_progress (task : Task.t) (id : string)
    (r : Modal.Response unit) (s : Modal.State) :
  Modal.progress (Modal.exec (Modal.handleDeleteSubtask task id r) s)
  = derived_progress (without id (Modal.subtasks s)).
Proof.
  unfold Modal.handleDeleteSubtask. rewrite exec_bind.
  rewrite handleDeleteSubtask_send_run. cbn [fst snd Modal.final_state].
  rewrite handleDeleteSubtask_receive_progress. reflexivity.
Qed.

Lemma load_progress (task : Task.t) (r : Modal.Response (list Subtask.t))
    (s : Modal.State) :
  Modal.progress (Modal.exec (Modal.loadSubtasks task r) s)
  = if String.eqb (Task.id task) "" then Modal.progress s
    else match r with
         | Modal.Data data => derived_progress data
         | _ => 0
         end.
Proof.
  unfold Modal.loadSubtasks, Modal.loadSubtasks_send.
  destruct (String.eqb (Task.id task) ""); [reflexivity|].
  unfold Modal.loadSubtasks_receive, Modal.exec, Modal.final_state.
  destruct r; run_handler; reflexivity.
Qed.

Lemma updateText_progress (id text : string) (r : Modal.Response unit)
    (s : Modal.State) :
  Modal.progress (Modal.exec (Modal.handleUpdateSubtaskText id text r) s)
  = Modal.progress s.
Proof.
  unfold Modal.handleUpdateSubtaskText, Modal.handleUpdateSubtaskText_send,
    Modal.handleUpdateSubtaskText_receive, Modal.exec, Modal.final_state.
  destruct r; reflexivity.
Qed.

Lemma in_range_0 : in_range 0.
Proof. unfold in_range. lia. Qed.

(** The invariant behind C10: every operation keeps Progress a percentage. *)
Lemma run_keeps_range (task : Task.t) (op : Modal.Op) (s : Modal.State) :
  in_range (Modal.progress s) ->
  in_range (Modal.progress (Modal.exec (Modal.run task op) s)).
Proof.
  intros H. destruct op; cbn [Modal.run].
  - rewrite load_progress.
    destruct (String.eqb (Task.id task) ""); [exact H|].
    destruct r; auto using derived_progress_range, in_range_0.
  - rewrite add_progress. apply derived_progress_range.
  - rewrite toggle_progress. apply derived_progress_range.
  - rewrite delete_progress. apply derived_progress_range.
  - rewrite updateText_progress. exact H.
Qed.

Lemma run_all_in_range (task : Task.t) (ops : list Modal.Op) :
  in_range (Modal.progress (run_all task ops)).
Proof.
  unfold run_all.
  assert (G : forall s, in_range (Modal.progress s) ->
            in_range (Modal.progress
              (fold_left (fun s op => Modal.exec (Modal.run task op) s) ops s))).
  { induction ops as [|op ops IH]; intros s Hs; cbn [fold_left]; [exact Hs|].
    apply IH. apply run_keeps_range. exact Hs. }
  apply G. apply in_range_0.
Qed.

(** C10.  After [load] (with the subtasks fetched, with an empty list, or
    with the fetch failed), [add], [toggle] and [delete], whatever the
    state before and whatever the store answers, Progress is an integer
    from 0 to 100; and so it is in every state that operations reach from
    the first render. *)
Theorem progress_between_0_and_100 (task : Task.t) (s : Modal.State) :
  (forall r, Task.id task <> ""%string ->
     in_range (Modal.progress (Modal.exec (Modal.loadSubtasks task r) s))) /\
  (forall text tempId r,
     in_range (Modal.progress
                 (Modal.exec (Modal.handleAddSubtask task text tempId r) s))) /\
  (forall id b r,
     in_range (Modal.progress
                 (Modal.exec (Modal.handleToggleSubtask task id b r) s))) /\
  (forall id r,
     in_range (Modal.progress
                 (Modal.exec (Modal.handleDeleteSubtask task id r) s))) /\
  (forall ops, in_range (Modal.progress (run_all task ops))).
Proof.
  split; [|split; [|split; [|split]]].
  - intros r Hid. rewrite load_progress.
    destruct (String.eqb_spec (Task.id task) ""); [contradiction|].
    destruct r; auto using derived_progress_range, in_range_0.
  - intros. rewrite add_progress. apply derived_progress_range.
  - intros. rewrite toggle_progress. apply derived_progress_range.
  - intros. rewrite delete_progress. apply derived_progress_range.
  - apply run_all_in_range.
Qed.

(** ** C5, C8: [add] and its rollback *)

Lemma without_fresh (tempId : string) (l : list Subtask.t) :
  (forall t, In t l -> Subtask.id t <> tempId) -> without tempId l = l.
Proof.
  intros H. unfold without. induction l as [|x l IH]; [reflexivity|].
  cbn [filter]. unfold Modal.id_is at 1.
  destruct (String.eqb_spec (Subtask.id x) tempId) as [E|_].
  - exfalso. apply (H x); [left; reflexivity|exact E].
  - cbn [negb]. f_equal. apply IH. intros t Ht. apply H. right. exact Ht.
Qed.

Lemma without_added (tempId text : string) (l : list Subtask.t) :
  (forall t, In t l -> Subtask.id t <> tempId) ->
  without tempId (l ++ [Subtask.mk tempId text false]) = l.
Proof.
  intros H. unfold without. rewrite filter_app. fold (without tempId l).
  rewrite (without_fresh tempId l H). cbn [filter].
  unfold Modal.id_is. cbn [Subtask.id]. rewrite String.eqb_refl.
  cbn [negb]. apply app_nil_r.
Qed.

Lemma handleAddSubtask_run (task : Task.t) (text tempId : string)
    (r : Modal.Response Subtask.t) (s : Modal.State) :
  let updatedList := Modal.subtasks s ++ [Subtask.mk tempId text false] in
  Modal.handleAddSubtask task text tempId r s =
  let after :=
    match r with
    | Modal.Data data =>
        map (fun t => if Modal.id_is tempId t then data else t) updatedList
    | Modal.NoData => updatedList
    | Modal.Failed => without tempId updatedList
    end in
  (tt,
   Modal.mkState after (Modal.statuses s) (derived_progress updatedList),
   [Modal.SetSubtasks updatedList;
    Modal.SetProgress (derived_progress updatedList);
    Modal.Send (Modal.InsertSubtask (Task.id task) text)]
   ++ match r with
      | Modal.Data _ => [Modal.SetSubtasks after]
      | Modal.NoData => []
      | Modal.Failed =>
          [Modal.ConsoleError "Error adding subtask:"; Modal.SetSubtasks after]
      end
   ++ infer_events task (Modal.statuses s) updatedList).
Proof.
  intros updatedList. unfold Modal.handleAddSubtask, Modal.bind.
  rewrite handleAddSubtask_send_run. fold updatedList.
  rewrite handleAddSubtask_receive_run.
  destruct r; reflexivity.
Qed.

(** C5, as amended.  When the remote create of [add(text)] fails, the
    temporary entry is removed and the list is again the list before the
    call (the temporary id being fresh); Progress is not recomputed: it
    keeps the value computed from the list with the temporary entry, and
    the only [setProgress] of the call precedes the request. *)
Theorem add_failure_restores_list (task : Task.t) (text tempId : string)
    (s : Modal.State) :
  (forall t, In t (Modal.subtasks s) -> Subtask.id t <> tempId) ->
  let r := Modal.handleAddSubtask task text tempId Modal.Failed s in
  let optimistic := Modal.subtasks s ++ [Subtask.mk tempId text false] in
  Modal.subtasks (Modal.final_state r) = Modal.subtasks s /\
  Modal.progress (Modal.final_state r) = derived_progress optimistic /\
  Modal.trace r =
    [Modal.SetSubtasks optimistic;
     Modal.SetProgress (derived_progress optimistic);
     Modal.Send (Modal.InsertSubtask (Task.id task) text);
     Modal.ConsoleError "Error adding subtask:";
     Modal.SetSubtasks (Modal.subtasks s)]
    ++ infer_events task (Modal.statuses s) optimistic.
Proof.
  intros Hfresh r optimistic. subst r.
  rewrite handleAddSubtask_run. fold optimistic.
  pose proof (without_added tempId text _ Hfresh) as W. fold optimistic in W.
  cbv zeta. rewrite W.
  cbn [Modal.final_state Modal.trace fst snd Modal.subtasks Modal.progress app].
  repeat split; reflexivity.
Qed.

Lemma add_failure_restores_list_witness :
  let s := Modal.mkState (sample_items 1 1) example_statuses 100 in
  (forall t, In t (Modal.subtasks s) -> Subtask.id t <> "tmp"%string) /\
  Modal.subtasks
    (Modal.final_state
       (Modal.handleAddSubtask (Task.mk "t" (IdNum 3)) "x" "tmp"
          Modal.Failed s))
  = Modal.subtasks s.
Proof.
  intros s.
  assert (H : forall t, In t (Modal.subtasks s) -> Subtask.id t <> "tmp"%string).
  { intros t [<-|[]]. discriminate. }
  split; [exact H|].
  apply (add_failure_restores_list (Task.mk "t" (IdNum 3)) "x" "tmp" s H).
Defined.

(** C5, the claim as written fails: one completed subtask, Progress 100;
    [add("x")] fails; the list is back to the one subtask, but Progress
    stays at the 50 computed with the temporary entry. *)
Lemma add_failure_leaves_progress_stale :
  let s := Modal.mkState (sample_items 1 1) example_statuses 100 in
  let s' := Modal.exec
              (Modal.handleAddSubtask (Task.mk "t" (IdNum 3)) "x" "tmp"
                 Modal.Failed) s in
  Modal.progress s = derived_progress (Modal.subtasks s) /\
  Modal.subtasks s' = Modal.subtasks s /\
  Modal.progress s' = 50 /\
  Modal.progress s' <> Modal.progress s /\
  Modal.progress s' <> derived_progress (Modal.subtasks s').
Proof. vm_compute. repeat split; discriminate. Qed.

(** C8 at a concrete call: one open subtask, the statuses of the spec's
    example, task in status 3; [add("x")] with the create failing.  The
    inference on the list with the temporary entry is evaluated after the
    request was sent and after the rollback, and pushes status 1. *)
Lemma add_infers_after_rollback :
  let s := Modal.mkState (sample_items 0 1) example_statuses 0 in
  let task := Task.mk "t" (IdNum 3) in
  let updatedList := Modal.subtasks s ++ [Subtask.mk "tmp" "x" false] in
  Modal.trace (Modal.handleAddSubtask task "x" "tmp" Modal.Failed s) =
  [Modal.SetSubtasks updatedList;
   Modal.SetProgress 0;
   Modal.Send (Modal.InsertSubtask "t" "x");
   Modal.ConsoleError "Error adding subtask:";
   Modal.SetSubtasks (Modal.subtasks s);
   Modal.Infer updatedList;
   Modal.Send (Modal.UpdateTaskStatus "t" (IdNum 1))].
Proof. vm_compute. reflexivity. Qed.

(** C8 in general: the part of [handleAddSubtask] that runs before the
    answer never evaluates the inference; the part that runs on the answer
    evaluates it last, on the list with the temporary entry.  The sibling
    [handleToggleSubtask] evaluates it before it sends its request. *)
Lemma add_infers_on_answer (task : Task.t) (text tempId : string)
    (r : Modal.Response Subtask.t) (s : Modal.State) :
  let sent := Modal.handleAddSubtask_send task text tempId s in
  let updatedList := fst (fst sent) in
  updatedList = Modal.subtasks s ++ [Subtask.mk tempId text false] /\
  existsb is_infer (Modal.trace sent) = false /\
  exists before,
    Modal.trace (Modal.handleAddSubtask_receive task tempId updatedList r
                   (Modal.final_state sent))
    = before ++ infer_events task (Modal.statuses s) updatedList /\
    existsb is_infer before = false.
Proof.
  intros sent updatedList. subst updatedList sent.
  rewrite handleAddSubtask_send_run.
  cbn [fst snd Modal.trace Modal.final_state].
  split; [reflexivity|]. split; [reflexivity|].
  rewrite handleAddSubtask_receive_run. cbn [Modal.statuses Modal.subtasks].
  destruct r.
  - eexists [_; _]. split; reflexivity.
  - eexists [_]. split; reflexivity.
  - exists []. split; reflexivity.
Qed.

Lemma toggle_infers_before_request (task : Task.t) (id : string) (b : bool)
    (s : Modal.State) :
  exists mid,
    Modal.trace (Modal.handleToggleSubtask_send task id b s)
    = Modal.SetSubtasks (toggled id b (Modal.subtasks s))
      :: Modal.SetProgress (derived_progress (toggled id b (Modal.subtasks s)))
      :: Modal.Infer (toggled id b (Modal.subtasks s))
      :: mid ++ [Modal.Send (Modal.UpdateCompleted id b)].
Proof.
  rewrite handleToggleSubtask_send_run. cbn [Modal.trace snd].
  unfold infer_events. eexists. reflexivity.
Qed.

(** ** C6: [toggleCompletion] and its rollback *)

Lemma toggled_toggled (id : string) (b b' : bool) (l : list Subtask.t) :
  toggled id b' (toggled id b l) = toggled id b' l.
Proof.
  unfold toggled. rewrite map_map. apply map_ext. intros t.
  destruct (Modal.id_is id t) eqn:E.
  - unfold Modal.id_is, Modal.set_completed in *. cbn [Subtask.id].
    rewrite E. reflexivity.
  - rewrite E. reflexivity.
Qed.

Lemma toggled_nth (id : string) (b : bool) (l : list Subtask.t) (i : nat) :
  nth_error (toggled id b l) i
  = option_map
      (fun t => if Modal.id_is id t then Modal.set_completed b t else t)
      (nth_error l i).
Proof. unfold toggled. apply nth_error_map. Qed.

Lemma set_completed_same (t : Subtask.t) :
  Modal.set_completed (Subtask.is_completed t) t = t.
Proof. destruct t; reflexivity. Qed.

Lemma handleToggleSubtask_run (task : Task.t) (id : string) (b : bool)
    (s : Modal.State) :
  let optimistic := toggled id b (Modal.subtasks s) in
  let rolled_back := toggled id (negb b) (Modal.subtasks s) in
  Modal.handleToggleSubtask task id b Modal.Failed s =
  (tt,
   Modal.mkState rolled_back (Modal.statuses s) (derived_progress optimistic),
   (Modal.SetSubtasks optimistic
      :: Modal.SetProgress (derived_progress optimistic)
      :: infer_events task (Modal.statuses s) optimistic
      ++ [Modal.Send (Modal.UpdateCompleted id b)])
   ++ [Modal.ConsoleError "Error toggling subtask:";
       Modal.SetSubtasks rolled_back]).
Proof.
  intros optimistic rolled_back.
  unfold Modal.handleToggleSubtask, Modal.bind.
  rewrite handleToggleSubtask_send_run. fold optimistic.
  rewrite handleToggleSubtask_receive_run.
  cbn [Modal.subtasks Modal.statuses Modal.progress]. unfold optimistic.
  rewrite toggled_toggled. reflexivity.
Qed.

(** C6.  For every entry of the list, when [toggleCompletion(id,
    newValue)] is called on its id with the negation of the value the
    entry holds, as the check box of a row calls it, and the remote update
    fails: the entry is back as it was before the call, and so is every
    entry of another id; in particular [toggleCompletion(id, true)] that
    fails leaves the entry not completed.  After the rollback nothing
    recomputes Progress or evaluates the inference: the rollback is the
    last step, and Progress keeps the value computed from the optimistic
    list. *)
Theorem toggle_failure_rolls_back (task : Task.t) (id : string)
    (newValue : bool) (s : Modal.State) (i : nat) (entry : Subtask.t) :
  nth_error (Modal.subtasks s) i = Some entry ->
  Subtask.id entry = id ->
  newValue = negb (Subtask.is_completed entry) ->
  let r := Modal.handleToggleSubtask task id newValue Modal.Failed s in
  let optimistic := toggled id newValue (Modal.subtasks s) in
  nth_error optimistic i = Some (Modal.set_completed newValue entry) /\
  nth_error (Modal.subtasks (Modal.final_state r)) i = Some entry /\
  (newValue = true ->
   option_map Subtask.is_completed
     (nth_error (Modal.subtasks (Modal.final_state r)) i) = Some false) /\
  (forall j other, nth_error (Modal.subtasks s) j = Some other ->
     Subtask.id other <> id ->
     nth_error (Modal.subtasks (Modal.final_state r)) j = Some other) /\
  Modal.progress (Modal.final_state r) = derived_progress optimistic /\
  exists before,
    Modal.trace r
    = before ++ [Modal.Send (Modal.UpdateCompleted id newValue);
                 Modal.ConsoleError "Error toggling subtask:";
                 Modal.SetSubtasks (Modal.subtasks (Modal.final_state r))].
Proof.
  intros Hnth Hid Hnew r optimistic. subst r optimistic.
  rewrite handleToggleSubtask_run.
  cbn [Modal.final_state Modal.trace fst snd Modal.subtasks Modal.progress].
  assert (Hrolled : nth_error (toggled id (negb newValue) (Modal.subtasks s)) i
                    = Some entry).
  { rewrite toggled_nth, Hnth. cbn [option_map].
    unfold Modal.id_is. rewrite Hid, String.eqb_refl. f_equal.
    rewrite Hnew, negb_involutive. apply set_completed_same. }
  split; [|split; [exact Hrolled|split; [|split; [|split]]]].
  - rewrite toggled_nth, Hnth. cbn [option_map].
    unfold Modal.id_is. rewrite Hid, String.eqb_refl. reflexivity.
  - intros Ht. rewrite Hrolled. cbn [option_map]. f_equal.
    rewrite Ht in Hnew. destruct (Subtask.is_completed entry);
      [discriminate|reflexivity].
  - intros j other Hj Hother. rewrite toggled_nth, Hj. cbn [option_map].
    unfold Modal.id_is.
    destruct (String.eqb_spec (Subtask.id other) id); [contradiction|].
    reflexivity.
  - reflexivity.
  - eexists (_ :: _ :: _). cbn [app]. rewrite <- app_assoc. reflexivity.
Qed.

Lemma toggle_failure_rolls_back_witness :
  let s := Modal.mkState [Subtask.mk "a" "Design" false] example_statuses 0 in
  nth_error (Modal.subtasks s) 0 = Some (Subtask.mk "a" "Design" false) /\
  nth_error
    (Modal.subtasks
       (Modal.final_state
          (Modal.handleToggleSubtask (Task.mk "t" (IdNum 1)) "a" true
             Modal.Failed s))) 0
  = Some (Subtask.mk "a" "Design" false).
Proof.
  intros s. split; [reflexivity|].
  destruct (toggle_failure_rolls_back (Task.mk "t" (IdNum 1)) "a" true s 0
              (Subtask.mk "a" "Design" false) eq_refl eq_refl eq_refl)
    as (_ & Back & _).
  exact Back.
Defined.

(** ** C9: operations on an id that is not in the list *)

Lemma toggled_absent (id : string) (b : bool) (l : list Subtask.t) :
  (forall t, In t l -> Subtask.id t <> id) -> toggled id b l = l.
Proof.
  intros H. unfold toggled. rewrite <- (map_id l) at 2.
  apply map_ext_in. intros t Ht. unfold Modal.id_is.
  destruct (String.eqb_spec (Subtask.id t) id) as [E|_]; [|reflexivity].
  exfalso. exact (H t Ht E).
Qed.

Lemma replaced_absent (id : string) (data : Subtask.t) (l : list Subtask.t) :
  (forall t, In t l -> Subtask.id t <> id) ->
  map (fun t => if Modal.id_is id t then data else t) l = l.
Proof.
  intros H. rewrite <- (map_id l) at 2.
  apply map_ext_in. intros t Ht. unfold Modal.id_is.
  destruct (String.eqb_spec (Subtask.id t) id) as [E|_]; [|reflexivity].
  exfalso. exact (H t Ht E).
Qed.

Lemma retitled_absent (id text : string) (l : list Subtask.t) :
  (forall t, In t l -> Subtask.id t <> id) ->
  map (fun t => if Modal.id_is id t then Modal.set_title text t else t) l = l.
Proof.
  intros H. rewrite <- (map_id l) at 2.
  apply map_ext_in. intros t Ht. unfold Modal.id_is.
  destruct (String.eqb_spec (Subtask.id t) id) as [E|_]; [|reflexivity].
  exfalso. exact (H t Ht E).
Qed.

Lemma find_absent (id : string) (l : list Subtask.t) :
  (forall t, In t l -> Subtask.id t <> id) -> find (Modal.id_is id) l = None.
Proof.
  intros H. induction l as [|x l IH]; [reflexivity|].
  cbn [find]. unfold Modal.id_is at 1.
  destruct (String.eqb_spec (Subtask.id x) id) as [E|_].
  - exfalso. exact (H x (or_introl eq_refl) E).
  - apply IH. intros t Ht. apply H. right. exact Ht.
Qed.

Lemma state_eta (s : Modal.State) :
  Modal.mkState (Modal.subtasks s) (Modal.statuses s) (Modal.progress s) = s.
Proof. destruct s; reflexivity. Qed.

Ltac same_state :=
  cbn [Modal.subtasks Modal.statuses Modal.progress]; apply state_eta.

(** C9.  With an id that no entry of the current list has, the
    reconciliations leave the local state as it is: the rollback of a
    toggle, the confirmation and the rollback of an add, and the rollback of
    a delete that removed nothing.  The mutations [toggle], [updateText] and
    [delete] on such an id leave the list as it is; [toggle] and [delete]
    recompute Progress from that same list, so the whole state is unchanged
    when Progress was the Progress of the list.  All of them are total:
    none raises. *)
Theorem absent_id_is_noop (s : Modal.State) (id : string) :
  (forall t, In t (Modal.subtasks s) -> Subtask.id t <> id) ->
  (forall b,
     Modal.exec (Modal.handleToggleSubtask_receive id b Modal.Failed) s = s) /\
  (forall task updatedList r,
     Modal.exec (Modal.handleAddSubtask_receive task id updatedList r) s = s) /\
  (forall text r,
     Modal.exec (Modal.handleUpdateSubtaskText id text r) s = s) /\
  (forall task b r,
     let s' := Modal.exec (Modal.handleToggleSubtask task id b r) s in
     Modal.subtasks s' = Modal.subtasks s /\
     (Modal.progress s = derived_progress (Modal.subtasks s) -> s' = s)) /\
  (forall task r,
     let s' := Modal.exec (Modal.handleDeleteSubtask task id r) s in
     Modal.subtasks s' = Modal.subtasks s /\
     (Modal.progress s = derived_progress (Modal.subtasks s) -> s' = s)).
Proof.
  intros Habs.
  split; [|split; [|split; [|split]]].
  - intros b. unfold Modal.exec. rewrite handleToggleSubtask_receive_run.
    cbn [Modal.final_state fst snd].
    rewrite (toggled_absent id _ _ Habs). same_state.
  - intros task updatedList r. unfold Modal.exec.
    rewrite handleAddSubtask_receive_run.
    destruct r; cbn [Modal.final_state fst snd].
    + rewrite (without_fresh id _ Habs). same_state.
    + rewrite (replaced_absent id _ _ Habs). same_state.
    + reflexivity.
  - intros text r.
    unfold Modal.handleUpdateSubtaskText, Modal.handleUpdateSubtaskText_send,
      Modal.handleUpdateSubtaskText_receive, Modal.exec, Modal.final_state.
    run_handler. rewrite (retitled_absent id text _ Habs).
    destruct r; cbn [fst snd]; same_state.
  - intros task b r s'. subst s'.
    unfold Modal.handleToggleSubtask. rewrite exec_bind.
    rewrite handleToggleSubtask_send_run.
    cbn [Modal.final_state fst snd]. unfold Modal.exec.
    rewrite handleToggleSubtask_receive_run.
    rewrite (toggled_absent id b _ Habs).
    destruct r; cbn [Modal.final_state fst snd Modal.subtasks];
      rewrite ?(toggled_absent id _ _ Habs);
      (split; [reflexivity|intros <-; same_state]).
  - intros task r s'. subst s'.
    unfold Modal.handleDeleteSubtask. rewrite exec_bind.
    rewrite handleDeleteSubtask_send_run.
    cbn [Modal.final_state fst snd]. rewrite (find_absent id _ Habs).
    rewrite (without_fresh id _ Habs).
    unfold Modal.handleDeleteSubtask_receive, Modal.exec, Modal.final_state.
    destruct r; cbn [fst snd Modal.subtasks];
      (split; [reflexivity|intros <-; same_state]).
Qed.

Lemma absent_id_is_noop_witness :
  let s := Modal.mkState [Subtask.mk "a" "Design" true] example_statuses 100 in
  (forall t, In t (Modal.subtasks s) -> Subtask.id t <> "gone"%string) /\
  Modal.exec (Modal.handleToggleSubtask_receive "gone" true Modal.Failed) s = s.
Proof.
  intros s.
  assert (H : forall t, In t (Modal.subtasks s) -> Subtask.id t <> "gone"%string).
  { intros t [<-|[]]. discriminate. }
  split; [exact H|].
  apply (absent_id_is_noop s "gone" H).
Defined.

Lemma without_is_absent (id : string) (l : list Subtask.t) :
  forall t, In t (without id l) -> Subtask.id t <> id.
Proof.
  intros t Ht. unfold without in Ht. apply filter_In in Ht as [_ Hn].
  unfold Modal.id_is in Hn. apply negb_true_iff in Hn.
  apply String.eqb_neq. exact Hn.
Qed.

(** The example of the spec: a toggle is sent, the entry is deleted, and
    then the toggle fails.  Its rollback finds no entry and changes
    nothing. *)
Lemma toggle_rollback_after_delete (task : Task.t) (id : string) (b : bool)
    (s : Modal.State) :
  let s1 := Modal.exec (Modal.handleToggleSubtask_send task id b) s in
  let s2 := Modal.exec (Modal.handleDeleteSubtask task id (Modal.Data tt)) s1 in
  Modal.exec (Modal.handleToggleSubtask_receive id b Modal.Failed) s2 = s2.
Proof.
  intros s1 s2.
  assert (Habs : forall t, In t (Modal.subtasks s2) -> Subtask.id t <> id).
  { subst s2. unfold Modal.handleDeleteSubtask. rewrite exec_bind.
    rewrite handleDeleteSubtask_send_run.
    cbn [Modal.final_state fst snd].
    unfold Modal.handleDeleteSubtask_receive, Modal.exec, Modal.final_state,
      Modal.ret.
    cbn [fst snd Modal.subtasks]. apply without_is_absent. }
  unfold Modal.exec. rewrite handleToggleSubtask_receive_run.
  cbn [Modal.final_state fst snd].
  rewrite (toggled_absent id _ _ Habs). same_state.
Qed.

(** ** C2: status inference *)

Lemma match_here_sound (p : list Regex.atom) (s : list ascii) :
  Regex.match_here p s = true ->
  exists word rest, s = word ++ rest /\ alt_word p word.
Proof.
  revert s. induction p as [|a p IH]; intros s H.
  - exists [], s. split; [reflexivity|constructor].
  - destruct a as [c|]; cbn [Regex.match_here] in H.
    + destruct s as [|x s]; [discriminate|].
      apply andb_true_iff in H as [Hc Hr].
      destruct (IH s Hr) as (w & rest & -> & Hw).
      exists (x :: w), rest. split; [reflexivity|].
      apply (word_cons (Regex.Chr c) p [x] w); [constructor; exact Hc|exact Hw].
    + assert (C : (exists x s', s = x :: s' /\ Regex.is_space x = true
                                /\ Regex.match_here p s' = true)
                  \/ Regex.match_here p s = true).
      { destruct s as [|x s]; [right; exact H|].
        apply orb_true_iff in H as [H|H]; [|right; exact H].
        apply andb_true_iff in H as [Hs Hr]. left. eauto. }
      destruct C as [(x & s' & -> & Hs & Hr)|Hr].
      * destruct (IH s' Hr) as (w & rest & -> & Hw).
        exists (x :: w), rest. split; [reflexivity|].
        apply (word_cons Regex.OptSpace p [x] w); [constructor; exact Hs|exact Hw].
      * destruct (IH s Hr) as (w & rest & -> & Hw).
        exists w, rest. split; [reflexivity|].
        apply (word_cons Regex.OptSpace p [] w); [constructor|exact Hw].
Qed.

Lemma match_here_complete (p : list Regex.atom) (word rest : list ascii) :
  alt_word p word -> Regex.match_here p (word ++ rest) = true.
Proof.
  intros H. induction H as [|a p u v Ha Hp IH]; [reflexivity|].
  destruct Ha as [c x Hc|x Hs|]; cbn [Regex.match_here app].
  - rewrite Hc, IH. reflexivity.
  - rewrite Hs, IH. reflexivity.
  - destruct (v ++ rest) as [|y t] eqn:E; [exact IH|].
    rewrite IH. apply orb_true_r.
Qed.

(** The matcher decides what the pattern denotes. *)
Lemma search_spec (re : Regex.t) (s : list ascii) :
  Regex.search re s = true <-> denotes re s.
Proof.
  split.
  - induction s as [|x s IH]; cbn [Regex.search]; intros H.
    + rewrite orb_false_r in H. apply existsb_exists in H as (p & Hp & Hm).
      destruct (match_here_sound p [] Hm) as (w & rest & E & Hw).
      exists [], w, rest, p. auto.
    + apply orb_true_iff in H as [H|H].
      * apply existsb_exists in H as (p & Hp & Hm).
        destruct (match_here_sound p (x :: s) Hm) as (w & rest & E & Hw).
        exists [], w, rest, p. auto.
      * destruct (IH H) as (pre & w & post & p & -> & Hp & Hw).
        exists (x :: pre), w, post, p. auto.
  - intros (pre & w & post & p & -> & Hp & Hw).
    induction pre as [|x pre IH]; cbn [app].
    + assert (M : existsb (fun p => Regex.match_here p (w ++ post)) re = true).
      { apply existsb_exists. exists p. split; [exact Hp|].
        apply match_here_complete. exact Hw. }
      destruct (w ++ post); cbn [Regex.search]; rewrite M; reflexivity.
    + cbn [Regex.search]. rewrite IH. apply orb_true_r.
Qed.

Lemma strict_eq_spec (a b : JsId) : strict_eq a b = true <-> a = b.
Proof.
  destruct a as [x|x|], b as [y|y|]; cbn [strict_eq];
    try (split; [discriminate|intros [=]]); try (split; reflexivity).
  - rewrite Z.eqb_eq. split; [intros ->; reflexivity|intros [=]; assumption].
  - rewrite String.eqb_eq. split; [intros ->; reflexivity|intros [=]; assumption].
Qed.

Lemma find_first {A : Type} (f : A -> bool) (before : list A) (x : A)
    (after : list A) :
  (forall y, In y before -> f y = false) -> f x = true ->
  find f (before ++ x :: after) = Some x.
Proof.
  intros Hb Hx. induction before as [|y before IH]; cbn [app find].
  - rewrite Hx. reflexivity.
  - rewrite (Hb y (or_introl eq_refl)). apply IH.
    intros z Hz. apply Hb. right. exact Hz.
Qed.

Lemma find_none_all {A : Type} (f : A -> bool) (l : list A) :
  (forall y, In y l -> f y = false) -> find f l = None.
Proof.
  intros H. induction l as [|y l IH]; [reflexivity|]. cbn [find].
  rewrite (H y (or_introl eq_refl)). apply IH.
  intros z Hz. apply H. right. exact Hz.
Qed.

Lemma status_updates_infer (task : Task.t) (items : list Subtask.t)
    (s : Modal.State) :
  status_updates (Modal.trace (Modal.checkAutoStatusUpdate task items s))
  = if truthy (Modal.newStatusId (Modal.statuses s) task items)
    then [Modal.newStatusId (Modal.statuses s) task items]
    else [].
Proof.
  rewrite checkAutoStatusUpdate_run. unfold infer_events, Modal.trace.
  cbn [snd]. destruct (truthy _); reflexivity.
Qed.

(** [newStatusId] on the counts and the class of the spec. *)
Lemma newStatusId_eq (sts : list Status.t) (task : Task.t)
    (items : list Subtask.t) :
  Modal.newStatusId sts task items =
  if total_count items =? 0 then IdUndefined
  else
    let target :=
      match find (matches (classify (completed_count items)
                                    (total_count items))) sts with
      | Some st => Status.id st
      | None => IdUndefined
      end in
    if truthy target && negb (strict_eq (Task.status_id task) target)
    then target else IdUndefined.
Proof.
  unfold Modal.newStatusId, total_count, completed_count, classify, matches.
  set (n := length items). set (c := length (filter Subtask.is_completed items)).
  destruct (Nat.ltb_spec 0 n) as [Hn|Hn];
    destruct (Z.eqb_spec (Z.of_nat n) 0) as [E|E]; try lia; [|reflexivity].
  cbv zeta.
  destruct (Nat.eqb_spec c 0) as [Hc|Hc];
    destruct (Z.eqb_spec (Z.of_nat c) 0) as [Ec|Ec]; try lia; [reflexivity|].
  destruct (Nat.eqb_spec c n) as [Hcn|Hcn];
    destruct (Z.eqb_spec (Z.of_nat c) (Z.of_nat n)) as [Ecn|Ecn]; try lia;
    reflexivity.
Qed.

(** C2.  For every list of subtasks and every set of statuses whose ids
    are keys of rows: with no subtasks the inference pushes nothing.
    Otherwise the class is not-started for no completed subtask, done when
    all are completed and in-progress else; when no status label matches
    the pattern of the class nothing is pushed; and with [st] the first
    status whose label matches, the id of [st] is pushed if and only if it
    differs from the task's [status_id], and nothing else is ever pushed.
    With the spec's three statuses and three subtasks, 0, 2 and 3
    completed infer the statuses 1, 2 and 3, pushed unless the task is in
    that status already. *)
Theorem status_inference (task : Task.t) (items : list Subtask.t)
    (s : Modal.State) :
  ids_are_keys (Modal.statuses s) ->
  let total := total_count items in
  let cls := classify (completed_count items) total in
  let pushed :=
    status_updates (Modal.trace (Modal.checkAutoStatusUpdate task items s)) in
  (total = 0 -> pushed = []) /\
  (0 < total ->
   (forall st, In st (Modal.statuses s) -> matches cls st = false) ->
   pushed = []) /\
  (0 < total ->
   forall before st after,
     Modal.statuses s = before ++ st :: after ->
     (forall x, In x before -> matches cls x = false) ->
     matches cls st = true ->
     (pushed = [Status.id st] <-> Status.id st <> Task.status_id task) /\
     (pushed = [] \/ pushed = [Status.id st])) /\
  (forall tid cur,
     let t := Task.mk tid cur in
     let run n :=
       status_updates
         (Modal.trace
            (Modal.checkAutoStatusUpdate t (sample_items n 3)
               (Modal.mkState (sample_items n 3) example_statuses 0))) in
     run 0%nat = (if strict_eq cur (IdNum 1) then [] else [IdNum 1]) /\
     run 2%nat = (if strict_eq cur (IdNum 2) then [] else [IdNum 2]) /\
     run 3%nat = (if strict_eq cur (IdNum 3) then [] else [IdNum 3])).
Proof.
  intros Hkeys total cls pushed. subst pushed.
  rewrite status_updates_infer, newStatusId_eq. fold total. fold cls.
  split; [|split; [|split]].
  - intros ->. reflexivity.
  - intros Ht Hnone.
    destruct (Z.eqb_spec total 0); [lia|].
    rewrite (find_none_all _ _ Hnone). reflexivity.
  - intros Ht before st after Hsts Hbefore Hst.
    destruct (Z.eqb_spec total 0); [lia|].
    rewrite Hsts, (find_first _ before st after Hbefore Hst). cbv zeta.
    assert (Tr : truthy (Status.id st) = true).
    { apply Hkeys. rewrite Hsts. apply in_or_app. right. left. reflexivity. }
    rewrite Tr. cbn [andb].
    destruct (strict_eq (Task.status_id task) (Status.id st)) eqn:Eq;
      cbn [negb].
    + apply strict_eq_spec in Eq. cbn [truthy].
      split; [|left; reflexivity].
      split; [discriminate|]. intros Hne. exfalso. apply Hne.
      symmetry. exact Eq.
    + rewrite Tr. split; [|right; reflexivity].
      split; [|reflexivity]. intros _.
      intros E. rewrite E in Eq.
      assert (strict_eq (Task.status_id task) (Task.status_id task) = true)
        by (apply strict_eq_spec; reflexivity).
      congruence.
  - intros tid cur t run. subst run t. cbv beta.
    rewrite !status_updates_infer. cbn [Modal.statuses].
    unfold Modal.newStatusId.
    repeat split; cbn; destruct cur as [z| |]; cbn; try reflexivity;
      match goal with
      | |- context [(z =? ?k)%Z] => destruct (z =? k)%Z
      end; reflexivity.
Qed.

Lemma status_inference_witness :
  let s := Modal.mkState (sample_items 2 3) example_statuses 0 in
  let task := Task.mk "t" (IdNum 1) in
  ids_are_keys (Modal.statuses s) /\
  total_count (sample_items 2 3) = 3 /\
  status_updates
    (Modal.trace (Modal.checkAutoStatusUpdate task (sample_items 2 3) s))
  = [IdNum 2].
Proof.
  intros s task.
  assert (K : ids_are_keys (Modal.statuses s)).
  { intros st [<-|[<-|[<-|[]]]]; reflexivity. }
  split; [exact K|]. split; [reflexivity|].
  destruct (status_inference task (sample_items 2 3) s K)
    as (_ & _ & First & _).
  apply (First ltac:(reflexivity)
               [Status.mk (IdNum 1) "To Do"] (Status.mk (IdNum 2) "In Progress")
               [Status.mk (IdNum 3) "Done"] eq_refl).
  - intros x [<-|[]]. reflexivity.
  - reflexivity.
  - discriminate.
Defined.

(** ** C7: total time of a subtask name *)

Lemma fold_left_sum (f : SubtaskTimeLog.t -> Z) (l : list SubtaskTimeLog.t)
    (acc : Z) :
  fold_left (fun total log => total + f log) l acc
  = acc + list_sum_Z (map f l).
Proof.
  revert acc. induction l as [|x l IH]; intros acc; cbn [fold_left map].
  - unfold list_sum_Z. cbn. lia.
  - rewrite IH. unfold list_sum_Z. cbn [fold_right]. lia.
Qed.

(** Rows that count for nothing may be dropped from a sum. *)
Lemma sum_filter_irrelevant (f g : SubtaskTimeLog.t -> bool)
    (l : list SubtaskTimeLog.t) :
  (forall x, In x l -> f x = true -> g x = false -> Timer.duration_or_zero x = 0) ->
  (forall x, In x l -> g x = true -> f x = false -> Timer.duration_or_zero x = 0) ->
  list_sum_Z (map Timer.duration_or_zero (filter f l))
  = list_sum_Z (map Timer.duration_or_zero (filter g l)).
Proof.
  intros Hf Hg. induction l as [|x l IH]; [reflexivity|].
  assert (IH' : list_sum_Z (map Timer.duration_or_zero (filter f l))
                = list_sum_Z (map Timer.duration_or_zero (filter g l))).
  { apply IH; intros y Hy; [apply Hf|apply Hg]; right; exact Hy. }
  pose proof (Hf x (or_introl eq_refl)) as Fx.
  pose proof (Hg x (or_introl eq_refl)) as Gx.
  cbn [filter]. destruct (f x), (g x); cbn [map]; unfold list_sum_Z in *;
    cbn [fold_right]; rewrite ?IH'; try reflexivity.
  - rewrite Fx by reflexivity. lia.
  - rewrite Gx by reflexivity. lia.
Qed.

Lemma getTotalTimeForSubtask_closed (s : Timer.State) (name : string) :
  open_rows_have_no_duration (Timer.timeLogs s) ->
  Timer.getTotalTimeForSubtask s name = Timer.closed_total (Timer.timeLogs s) name.
Proof.
  intros Hwf. unfold Timer.getTotalTimeForSubtask, Timer.closed_total.
  rewrite fold_left_sum, Z.add_0_l.
  apply sum_filter_irrelevant.
  - intros x Hx Hf Hg. apply andb_true_iff in Hf as [Hn Hd].
    rewrite Hn in Hg. cbn [andb] in Hg. unfold Timer.is_closed in Hg.
    apply negb_false_iff in Hg.
    unfold Timer.has_duration in Hd. rewrite (Hwf x Hx Hg) in Hd. discriminate.
  - intros x Hx Hg Hf. apply andb_true_iff in Hg as [Hn Hc].
    rewrite Hn in Hf. cbn [andb] in Hf.
    unfold Timer.has_duration, Timer.duration_or_zero in *.
    destruct (SubtaskTimeLog.duration_seconds x) as [d|]; [|reflexivity].
    apply negb_false_iff in Hf. apply Z.eqb_eq in Hf. exact Hf.
Qed.

(** C7.  For every title and every list of time logs (in which, as the
    store writes them, a row without [end_time] has no [duration_seconds]),
    the total of the title is the sum of [duration_seconds] over the closed
    rows whose [subtask_name] is the title; it is what the row of a
    subtask with that title displays unless that title is being timed; the
    rows carry no subtask id at all; and an open row adds nothing. *)
Theorem total_time_sums_closed_entries (s : Timer.State) (title : string) :
  open_rows_have_no_duration (Timer.timeLogs s) ->
  Timer.getTotalTimeForSubtask s title
    = Timer.closed_total (Timer.timeLogs s) title /\
  (Timer.isActive s title = false ->
   Timer.displayed_seconds s title
     = Timer.closed_total (Timer.timeLogs s) title) /\
  (forall running,
     Store.is_open running = true ->
     SubtaskTimeLog.duration_seconds running = None ->
     Timer.getTotalTimeForSubtask
       (Timer.mkState (Timer.activeTimer s) (Timer.elapsedSeconds s)
                      (running :: Timer.timeLogs s) (Timer.loading s))
       title
     = Timer.getTotalTimeForSubtask s title).
Proof.
  intros Hwf. split; [|split].
  - apply getTotalTimeForSubtask_closed. exact Hwf.
  - intros Hact. unfold Timer.displayed_seconds. rewrite Hact.
    apply getTotalTimeForSubtask_closed. exact Hwf.
  - intros running Hopen Hdur.
    unfold Timer.getTotalTimeForSubtask. cbn [Timer.timeLogs filter].
    unfold Timer.has_duration at 1. rewrite Hdur, andb_false_r. reflexivity.
Qed.

Lemma total_time_sums_closed_entries_witness :
  let logs :=
    [ SubtaskTimeLog.mk "l3" "t" "u" "Design" 9000 None None;
      SubtaskTimeLog.mk "l2" "t" "v" "Design" 5000 (Some 8000) (Some 3);
      SubtaskTimeLog.mk "l1" "t" "u" "Review" 2000 (Some 4000) (Some 2);
      SubtaskTimeLog.mk "l0" "t" "u" "Design" 0 (Some 65000) (Some 65) ] in
  let s := Timer.mkState None 0 logs false in
  open_rows_have_no_duration (Timer.timeLogs s) /\
  Timer.getTotalTimeForSubtask s "Design" = 68.
Proof.
  intros logs s.
  assert (H : open_rows_have_no_duration (Timer.timeLogs s)).
  { intros l [<-|[<-|[<-|[<-|[]]]]]; cbn; intros E; try reflexivity;
      discriminate. }
  split; [exact H|].
  destruct (total_time_sums_closed_entries s "Design" H) as [E _].
  rewrite E. reflexivity.
Defined.

(** ** The remote table *)

Lemma filter_nil_iff {A : Type} (f : A -> bool) (l : list A) :
  (forall x, In x l -> f x = false) -> filter f l = [].
Proof.
  intros H. induction l as [|x l IH]; [reflexivity|]. cbn [filter].
  rewrite (H x (or_introl eq_refl)). apply IH.
  intros y Hy. apply H. right. exact Hy.
Qed.

Lemma existsb_false_filter {A : Type} (f : A -> bool) (l : list A) :
  existsb f l = false -> filter f l = [].
Proof.
  intros H. apply filter_nil_iff. intros x Hx.
  destruct (f x) eqn:E; [|reflexivity].
  assert (existsb f l = true) by (apply existsb_exists; eauto). congruence.
Qed.

Lemma filter_cons_existsb {A : Type} (f : A -> bool) (l : list A) (x : A)
    (r : list A) :
  filter f l = x :: r -> existsb f l = true.
Proof.
  intros H. apply existsb_exists. exists x.
  apply filter_In. rewrite H. left. reflexivity.
Qed.

(** The partial unique index does its work: an insert never leaves two
    open rows for a pair. *)
Lemma insert_keeps_unique (row : SubtaskTimeLog.t) (d : Store.t) :
  Timer.unique_open d -> Timer.unique_open (snd (Store.insert row d)).
Proof.
  intros U. unfold Store.insert.
  destruct (Store.is_open row) eqn:Ho; cbn [andb].
  - destruct (existsb _ d) eqn:Ex; cbn [snd]; [exact U|].
    intros task user. rewrite filter_app, length_app. cbn [filter].
    destruct (Store.open_for task user row) eqn:Of.
    + unfold Store.open_for in Of.
      apply andb_true_iff in Of as [Of _]. apply andb_true_iff in Of as [T Us].
      apply String.eqb_eq in T. apply String.eqb_eq in Us. subst task user.
      rewrite (existsb_false_filter _ _ Ex). cbn. lia.
    + pose proof (U task user). cbn [length]. lia.
  - cbn [snd]. intros task user. rewrite filter_app, length_app. cbn [filter].
    unfold Store.open_for at 2. rewrite Ho, andb_false_r.
    pose proof (U task user). cbn [length]. lia.
Qed.

Lemma close_not_open (i : string) (e dur : Z) (task user : string)
    (d : Store.t) :
  filter (Store.open_for task user) (Store.close i e dur d)
  = filter (fun l => Store.open_for task user l
                     && negb (String.eqb (SubtaskTimeLog.id l) i)) d.
Proof.
  unfold Store.close. induction d as [|x d IH]; [reflexivity|].
  cbn [map filter]. rewrite IH.
  destruct (String.eqb (SubtaskTimeLog.id x) i) eqn:E; cbn [negb].
  - unfold Store.open_for at 1. cbn [Store.is_open SubtaskTimeLog.end_time].
    rewrite !andb_false_r. reflexivity.
  - rewrite andb_true_r. reflexivity.
Qed.

(** Closing the only open row of a pair leaves the pair without one. *)
Lemma close_only_open (i : string) (e dur : Z) (task user : string)
    (d : Store.t) (row : SubtaskTimeLog.t) :
  filter (Store.open_for task user) d = [row] ->
  SubtaskTimeLog.id row = i ->
  filter (Store.open_for task user) (Store.close i e dur d) = [].
Proof.
  intros Hone Hid. rewrite close_not_open. apply filter_nil_iff.
  intros x Hx. destruct (Store.open_for task user x) eqn:Of; [|reflexivity].
  assert (In x (filter (Store.open_for task user) d))
    by (apply filter_In; auto).
  rewrite Hone in H. destruct H as [<-|[]].
  rewrite Hid, String.eqb_refl. reflexivity.
Qed.

(** Starting and stopping keep open rows without a duration. *)
Lemma insert_keeps_shape (new_id task user name : string) (start : Z)
    (d : Store.t) :
  open_rows_have_no_duration d ->
  open_rows_have_no_duration
    (snd (Store.insert
            (SubtaskTimeLog.mk new_id task user name start None None) d)).
Proof.
  intros H. unfold Store.insert.
  destruct (_ && _); cbn [snd]; [exact H|].
  intros l Hl Ho. apply in_app_iff in Hl as [Hl|[<-|[]]]; [|reflexivity].
  exact (H l Hl Ho).
Qed.

Lemma close_keeps_shape (i : string) (e dur : Z) (d : Store.t) :
  open_rows_have_no_duration d ->
  open_rows_have_no_duration (Store.close i e dur d).
Proof.
  intros H l Hl Ho. unfold Store.close in Hl.
  apply in_map_iff in Hl as (x & E & Hx).
  destruct (String.eqb (SubtaskTimeLog.id x) i).
  - subst l. discriminate.
  - subst l. exact (H x Hx Ho).
Qed.

(** ** C3: stopping the timer *)

Lemma stop_success (user taskId : string) (a : Timer.ActiveTimer)
    (now later : Z) (logs_fault : option Store.Error) (w : Timer.World) :
  Timer.Running user taskId a w ->
  Timer.handleStopTimer (Some user) taskId now later None logs_fault w
  = let d := Store.close (Timer.id a) now
               (Timer.seconds_between (Timer.startTime a) now) (Timer.db w) in
    match logs_fault with
    | None =>
        Timer.mkWorld (Timer.mkState None 0 (Store.select_logs taskId d) false)
                      d (Timer.out w)
    | Some _ =>
        Timer.mkWorld
          (Timer.mkState None 0 (Timer.timeLogs (Timer.guard w)) false) d
          (Timer.out w ++ [Timer.ConsoleError "Error loading time logs:"])
    end.
Proof.
  intros [Hact (row & Hone & Hid)].
  unfold Timer.handleStopTimer. rewrite Hact. cbv zeta.
  unfold Timer.loadActiveTimer, Timer.loadTimeLogs, Store.select_open.
  destruct logs_fault as [e|];
    cbn [Timer.db Timer.setTimeLogs Timer.setElapsedSeconds
         Timer.setActiveTimer Timer.setDb Timer.setLoading Timer.guard
         Timer.out Timer.signal Timer.timeLogs];
    rewrite (close_only_open _ _ _ _ _ _ row Hone Hid);
    reflexivity.
Qed.

Lemma stop_failure (user taskId : string) (a : Timer.ActiveTimer)
    (now later : Z) (e : Store.Error) (logs_fault : option Store.Error)
    (w : Timer.World) :
  Timer.activeTimer (Timer.guard w) = Some a ->
  Timer.handleStopTimer (Some user) taskId now later (Some e) logs_fault w
  = Timer.mkWorld
      (Timer.mkState (Some a) (Timer.elapsedSeconds (Timer.guard w))
                     (Timer.timeLogs (Timer.guard w)) false)
      (Timer.db w)
      ((Timer.out w ++ [Timer.ConsoleError "Error stopping timer:"])
         ++ [Timer.Alert "Failed to stop timer."]).
Proof.
  intros Hact. unfold Timer.handleStopTimer. rewrite Hact. cbv zeta.
  unfold Timer.signal, Timer.setLoading.
  cbn [Timer.guard Timer.db Timer.out Timer.activeTimer Timer.elapsedSeconds
       Timer.timeLogs].
  rewrite Hact. reflexivity.
Qed.

Lemma start_from_nothing (user taskId name : string) (now later : Z)
    (new_id : string) (w : Timer.World) :
  Timer.Idle w ->
  filter (Store.open_for taskId user) (Timer.db w) = [] ->
  Timer.handleStartTimer (Some user) taskId name now later new_id None w
  = Timer.mkWorld
      (Timer.mkState (Some (Timer.mkActive new_id name now)) 0
                     (Timer.timeLogs (Timer.guard w)) false)
      (Timer.db w
         ++ [SubtaskTimeLog.mk new_id taskId user name now None None])
      (Timer.out w).
Proof.
  intros Hidle Hnone. unfold Timer.Idle in Hidle.
  unfold Timer.handleStartTimer, Timer.may_start. rewrite Hidle.
  unfold Timer.start_request, Store.insert.
  cbn [Timer.db Timer.setLoading SubtaskTimeLog.task_id SubtaskTimeLog.user_id
       Store.is_open SubtaskTimeLog.end_time andb].
  assert (Ex : existsb (Store.open_for taskId user) (Timer.db w) = false).
  { destruct (existsb _ _) eqn:E; [|reflexivity].
    apply existsb_exists in E as (x & Hx & Hf).
    assert (In x (filter (Store.open_for taskId user) (Timer.db w)))
      by (apply filter_In; auto).
    rewrite Hnone in H. destruct H. }
  rewrite Ex. reflexivity.
Qed.

(** C3.  From any Running state, [stop()] takes [now - start_time], in
    whole seconds of the millisecond clock, and closes the tracked row
    with [end_time = now] and that duration.  When the store accepts, the
    guard is Idle, with no active timer and no elapsed seconds, and no row
    of the pair is open, whether or not the reload of the logs that
    follows succeeds; when the call fails, the store is untouched and the
    guard is Running as before, with the same active timer, and the
    failure is shown.  [start("Design")] and, 65 seconds later, [stop()]
    leave one row, closed, of 65 seconds, and the guard Idle. *)
Theorem stop_closes_tracked_entry (user taskId : string)
    (a : Timer.ActiveTimer) (now later : Z) (logs_fault : option Store.Error)
    (w : Timer.World) :
  Timer.Running user taskId a w ->
  let duration := (now - Timer.startTime a) / 1000 in
  (let w' := Timer.handleStopTimer (Some user) taskId now later None
               logs_fault w in
   Timer.db w'
     = map (fun row => if String.eqb (SubtaskTimeLog.id row) (Timer.id a)
                       then closed_at now duration row else row)
           (Timer.db w) /\
   Timer.Idle w' /\
   Timer.elapsedSeconds (Timer.guard w') = 0 /\
   filter (Store.open_for taskId user) (Timer.db w') = []) /\
  (forall e,
     let w' := Timer.handleStopTimer (Some user) taskId now later (Some e)
                 logs_fault w in
     Timer.Running user taskId a w' /\
     Timer.db w' = Timer.db w /\
     Timer.elapsedSeconds (Timer.guard w')
       = Timer.elapsedSeconds (Timer.guard w) /\
     In (Timer.Alert "Failed to stop timer.") (Timer.out w')) /\
  (forall t0 new_id,
     let w0 := Timer.mkWorld Timer.initial [] [] in
     let w1 := Timer.handleStartTimer (Some user) taskId "Design" t0 t0
                 new_id None w0 in
     let w2 := Timer.handleStopTimer (Some user) taskId (t0 + 65000)
                 (t0 + 65000) None logs_fault w1 in
     Timer.db w2
       = [SubtaskTimeLog.mk new_id taskId user "Design" t0
            (Some (t0 + 65000)) (Some 65)] /\
     Timer.Idle w2).
Proof.
  intros Hrun duration. split; [|split].
  - cbv zeta. rewrite (stop_success user taskId a now later logs_fault w Hrun).
    cbv zeta. destruct Hrun as [_ (row & Hone & Hid)].
    assert (C : filter (Store.open_for taskId user)
                  (Store.close (Timer.id a) now
                     (Timer.seconds_between (Timer.startTime a) now)
                     (Timer.db w)) = [])
      by (apply (close_only_open _ _ _ _ _ _ row Hone Hid)).
    destruct logs_fault;
      cbn [Timer.db Timer.guard Timer.elapsedSeconds];
      (split; [reflexivity|]); (split; [reflexivity|]);
      (split; [reflexivity|exact C]).
  - intros e w'. subst w'. destruct Hrun as [Hact Hrow].
    rewrite (stop_failure user taskId a now later e logs_fault w Hact).
    cbn [Timer.db Timer.guard Timer.elapsedSeconds Timer.out].
    split; [split; [reflexivity|exact Hrow]|].
    split; [reflexivity|]. split; [reflexivity|].
    apply in_or_app. right. left. reflexivity.
  - intros t0 new_id w0 w1 w2. subst w2 w1.
    rewrite (start_from_nothing user taskId "Design" t0 t0 new_id w0
               eq_refl eq_refl).
    subst w0. cbn [Timer.db Timer.guard Timer.out Timer.timeLogs Timer.initial app].
    rewrite (stop_success user taskId (Timer.mkActive new_id "Design" t0)).
    + cbv zeta. cbn [Timer.db Timer.id Timer.startTime].
      unfold Store.close. cbn [map SubtaskTimeLog.id].
      rewrite String.eqb_refl. unfold Timer.seconds_between.
      replace (t0 + 65000 - t0) with 65000 by lia.
      destruct logs_fault; split; reflexivity.
    + split; [reflexivity|].
      eexists. cbn [Timer.db filter]. unfold Store.open_for.
      cbn [SubtaskTimeLog.task_id SubtaskTimeLog.user_id Store.is_open
           SubtaskTimeLog.end_time].
      rewrite !String.eqb_refl. cbn [andb]. split; reflexivity.
Qed.

Lemma stop_closes_tracked_entry_witness :
  let row := SubtaskTimeLog.mk "l1" "t" "u" "Design" 1000 None None in
  let a := Timer.mkActive "l1" "Design" 1000 in
  let w := Timer.mkWorld (Timer.mkState (Some a) 0 [] false) [row] [] in
  Timer.Running "u" "t" a w /\
  Timer.db
    (Timer.handleStopTimer (Some "u"%string) "t" 66999 66999 None None w)
  = [closed_at 66999 65 row].
Proof.
  intros row a w.
  assert (H : Timer.Running "u" "t" a w).
  { split; [reflexivity|]. exists row. split; reflexivity. }
  split; [exact H|].
  destruct (stop_closes_tracked_entry "u" "t" a 66999 66999 None w H)
    as [[E _] _].
  rewrite E. reflexivity.
Defined.

(** ** C4: a second start *)

Lemma start_keeps_unique (user : option string) (taskId name : string)
    (now later : Z) (new_id : string) (fault : option Store.Error)
    (w : Timer.World) :
  Timer.unique_open (Timer.db w) ->
  Timer.unique_open
    (Timer.db (Timer.handleStartTimer user taskId name now later new_id
                 fault w)).
Proof.
  intros U. unfold Timer.handleStartTimer.
  destruct (Timer.may_start user w) as [u|]; [|exact U].
  assert (D : forall res d w0,
            Timer.db (Timer.handleStartTimer_receive user taskId name now
                        later res (Timer.setDb d w0)) = d).
  { intros res d w0. unfold Timer.handleStartTimer_receive.
    destruct res as [e|data]; [|reflexivity].
    destruct (Timer.is_unique_violation e); [|reflexivity].
    unfold Timer.loadActiveTimer. destruct user as [u'|]; [|reflexivity].
    cbn [Timer.db Timer.signal Timer.setDb].
    destruct (Store.select_open taskId u' d); reflexivity. }
  unfold Timer.start_request. destruct fault as [e|].
  - rewrite D. exact U.
  - cbn [Timer.db Timer.setLoading].
    pose proof (insert_keeps_unique
                  (SubtaskTimeLog.mk new_id taskId u name now None None)
                  (Timer.db w) U) as I.
    destruct (Store.insert _ (Timer.db w)) as [res d]. rewrite D. exact I.
Qed.

Lemma start_when_running (user : option string) (taskId name : string)
    (now later : Z) (new_id : string) (fault : option Store.Error)
    (a : Timer.ActiveTimer) (w : Timer.World) :
  Timer.activeTimer (Timer.guard w) = Some a ->
  Timer.handleStartTimer user taskId name now later new_id fault w = w.
Proof.
  intros Hact. unfold Timer.handleStartTimer, Timer.may_start.
  rewrite Hact. destruct user; reflexivity.
Qed.

Lemma start_rejected (user taskId name : string) (now later : Z)
    (new_id : string) (row : SubtaskTimeLog.t) (w : Timer.World) :
  Timer.Idle w ->
  filter (Store.open_for taskId user) (Timer.db w) = [row] ->
  Timer.handleStartTimer (Some user) taskId name now later new_id None w
  = Timer.mkWorld
      (Timer.mkState
         (Some (Timer.mkActive (SubtaskTimeLog.id row)
                               (SubtaskTimeLog.subtask_name row)
                               (SubtaskTimeLog.start_time row)))
         (Timer.seconds_between (SubtaskTimeLog.start_time row) later)
         (Timer.timeLogs (Timer.guard w)) false)
      (Timer.db w)
      (Timer.out w ++ [Timer.already_running]).
Proof.
  intros Hidle Hone. unfold Timer.Idle in Hidle.
  unfold Timer.handleStartTimer, Timer.may_start. rewrite Hidle.
  unfold Timer.start_request, Store.insert.
  cbn [Timer.db Timer.setLoading SubtaskTimeLog.task_id SubtaskTimeLog.user_id
       Store.is_open SubtaskTimeLog.end_time andb].
  rewrite (filter_cons_existsb _ _ _ _ Hone).
  unfold Timer.handleStartTimer_receive.
  change (Timer.is_unique_violation Store.unique_violation) with true.
  unfold Timer.loadActiveTimer, Store.select_open.
  cbn [Timer.db Timer.signal Timer.setDb]. rewrite Hone. reflexivity.
Qed.

Lemma unique_open_nil : Timer.unique_open [].
Proof. intros task user. cbn. lia. Qed.

(** Two [start()] calls of one guard that both pass the first line before
    either answer arrives: the store accepts the first insert and rejects
    the second; in whichever order the answers are handled, the guard ends
    Running on the first row and the second caller is told. *)
Lemma overlapping_starts (user taskId name1 name2 : string)
    (t1 t2 later : Z) (id1 id2 : string) (w : Timer.World) :
  Timer.Idle w ->
  filter (Store.open_for taskId user) (Timer.db w) = [] ->
  let '(res1, d1) :=
    Timer.start_request None id1 taskId user name1 t1 (Timer.db w) in
  let '(res2, d2) :=
    Timer.start_request None id2 taskId user name2 t2 d1 in
  let sent := Timer.setDb d2 (Timer.setLoading true w) in
  let receive1 :=
    Timer.handleStartTimer_receive (Some user) taskId name1 t1 later res1 in
  let receive2 :=
    Timer.handleStartTimer_receive (Some user) taskId name2 t2 later res2 in
  Timer.may_start (Some user) w = Some user /\
  d2 = Timer.db w ++ [SubtaskTimeLog.mk id1 taskId user name1 t1 None None] /\
  Timer.Running user taskId (Timer.mkActive id1 name1 t1)
    (receive2 (receive1 sent)) /\
  Timer.Running user taskId (Timer.mkActive id1 name1 t1)
    (receive1 (receive2 sent)) /\
  Timer.out (receive2 (receive1 sent)) = Timer.out w ++ [Timer.already_running] /\
  Timer.out (receive1 (receive2 sent)) = Timer.out w ++ [Timer.already_running].
Proof.
  intros Hidle Hnone.
  set (row := SubtaskTimeLog.mk id1 taskId user name1 t1 None None).
  assert (Ex : existsb (Store.open_for taskId user) (Timer.db w) = false).
  { destruct (existsb _ _) eqn:E; [|reflexivity].
    apply existsb_exists in E as (x & Hx & Hf).
    assert (In x (filter (Store.open_for taskId user) (Timer.db w)))
      by (apply filter_In; auto).
    rewrite Hnone in H. destruct H. }
  assert (Hopen : filter (Store.open_for taskId user) (Timer.db w ++ [row])
                  = [row]).
  { rewrite filter_app, Hnone. cbn [app filter]. unfold Store.open_for, row.
    cbn [SubtaskTimeLog.task_id SubtaskTimeLog.user_id Store.is_open
         SubtaskTimeLog.end_time].
    rewrite !String.eqb_refl. reflexivity. }
  unfold Timer.start_request, Store.insert.
  cbn [SubtaskTimeLog.task_id SubtaskTimeLog.user_id Store.is_open
       SubtaskTimeLog.end_time andb].
  rewrite Ex. fold row. rewrite (filter_cons_existsb _ _ _ _ Hopen).
  cbv zeta.
  unfold Timer.handleStartTimer_receive.
  change (Timer.is_unique_violation Store.unique_violation) with true.
  unfold Timer.loadActiveTimer, Store.select_open, Timer.may_start.
  unfold Timer.Idle in Hidle. rewrite Hidle.
  cbn [Timer.db Timer.signal Timer.setDb Timer.setLoading Timer.setActiveTimer
       Timer.setElapsedSeconds Timer.guard Timer.out].
  rewrite Hopen.
  cbn [Timer.db Timer.signal Timer.setDb Timer.setLoading Timer.setActiveTimer
       Timer.setElapsedSeconds Timer.guard Timer.out Timer.activeTimer
       SubtaskTimeLog.id SubtaskTimeLog.subtask_name SubtaskTimeLog.start_time
       row].
  repeat split; try reflexivity;
    (exists row; cbn [Timer.db Timer.id]; split; [exact Hopen|reflexivity]).
Qed.

(** A start from Idle that the store rejects because the pair has its
    open row, or that comes back with any error that names the unique
    index. *)
Lemma start_conflict (user taskId name : string) (now later : Z)
    (new_id : string) (fault : option Store.Error) (row : SubtaskTimeLog.t)
    (w : Timer.World) :
  Timer.Idle w ->
  filter (Store.open_for taskId user) (Timer.db w) = [row] ->
  fault = None \/
  (exists e, fault = Some e /\ Timer.is_unique_violation e = true) ->
  Timer.handleStartTimer (Some user) taskId name now later new_id fault w
  = Timer.mkWorld
      (Timer.mkState
         (Some (Timer.mkActive (SubtaskTimeLog.id row)
                               (SubtaskTimeLog.subtask_name row)
                               (SubtaskTimeLog.start_time row)))
         (Timer.seconds_between (SubtaskTimeLog.start_time row) later)
         (Timer.timeLogs (Timer.guard w)) false)
      (Timer.db w)
      (Timer.out w ++ [Timer.already_running]).
Proof.
  intros Hidle Hone [->|(e & -> & He)].
  - apply start_rejected; assumption.
  - unfold Timer.Idle in Hidle.
    unfold Timer.handleStartTimer, Timer.may_start. rewrite Hidle.
    unfold Timer.start_request, Timer.handleStartTimer_receive. rewrite He.
    unfold Timer.loadActiveTimer, Store.select_open.
    cbn [Timer.db Timer.signal Timer.setDb Timer.setLoading]. rewrite Hone.
    reflexivity.
Qed.

(** C4.  A second [start()] for a (task, user) pair: the guard of the
    caller is Idle, as [start()] requires, and the store holds the open
    row of the pair that the first call created.  However the request
    ends, the table is as it was, with that one open row of the pair.
    When the request reaches the store, which rejects it by the unique
    index, or comes back with any error that names the index, the caller
    is told that a timer is already running, and the guard, rather than
    taking the entry it tried to create, reads the open row from the store
    and ends Running on that one.  So for two calls one after the other,
    in two sessions, and for two calls of one guard that overlap: the
    first creates the row, the second creates none, is told, and ends
    Running on the row of the first. *)
Theorem second_start_creates_no_entry (user taskId name : string)
    (now later : Z) (new_id : string) (row : SubtaskTimeLog.t)
    (w : Timer.World) :
  Timer.Idle w ->
  filter (Store.open_for taskId user) (Timer.db w) = [row] ->
  (forall fault,
     let w' := Timer.handleStartTimer (Some user) taskId name now later
                 new_id fault w in
     Timer.db w' = Timer.db w /\
     filter (Store.open_for taskId user) (Timer.db w') = [row]) /\
  (forall fault,
     fault = None \/
     (exists e, fault = Some e /\ Timer.is_unique_violation e = true) ->
     let w' := Timer.handleStartTimer (Some user) taskId name now later
                 new_id fault w in
     Timer.out w' = Timer.out w ++ [Timer.already_running] /\
     Timer.Running user taskId
       (Timer.mkActive (SubtaskTimeLog.id row)
                       (SubtaskTimeLog.subtask_name row)
                       (SubtaskTimeLog.start_time row)) w' /\
     1000 * Timer.elapsedSeconds (Timer.guard w')
       <= later - SubtaskTimeLog.start_time row
       < 1000 * Timer.elapsedSeconds (Timer.guard w') + 1000) /\
  (forall name1 t1 later1 id1 w0,
     Timer.Idle w0 ->
     filter (Store.open_for taskId user) (Timer.db w0) = [] ->
     let w1 := Timer.handleStartTimer (Some user) taskId name1 t1 later1 id1
                 None w0 in
     Timer.Running user taskId (Timer.mkActive id1 name1 t1) w1 /\
     forall g2 o2,
       Timer.activeTimer g2 = None ->
       let w2 := Timer.handleStartTimer (Some user) taskId name now later
                   new_id None (Timer.mkWorld g2 (Timer.db w1) o2) in
       Timer.db w2 = Timer.db w1 /\
       Timer.out w2 = o2 ++ [Timer.already_running] /\
       Timer.Running user taskId (Timer.mkActive id1 name1 t1) w2) /\
  (forall name1 t1 id1 w0,
     Timer.Idle w0 ->
     filter (Store.open_for taskId user) (Timer.db w0) = [] ->
     let '(res1, d1) :=
       Timer.start_request None id1 taskId user name1 t1 (Timer.db w0) in
     let '(res2, d2) :=
       Timer.start_request None new_id taskId user name now d1 in
     let sent := Timer.setDb d2 (Timer.setLoading true w0) in
     let receive1 :=
       Timer.handleStartTimer_receive (Some user) taskId name1 t1 later res1 in
     let receive2 :=
       Timer.handleStartTimer_receive (Some user) taskId name now later res2 in
     d2 = Timer.db w0 ++ [SubtaskTimeLog.mk id1 taskId user name1 t1 None None] /\
     Timer.Running user taskId (Timer.mkActive id1 name1 t1)
       (receive2 (receive1 sent)) /\
     Timer.Running user taskId (Timer.mkActive id1 name1 t1)
       (receive1 (receive2 sent)) /\
     Timer.out (receive2 (receive1 sent))
     = Timer.out w0 ++ [Timer.already_running] /\
     Timer.out (receive1 (receive2 sent))
     = Timer.out w0 ++ [Timer.already_running]).
Proof.
  intros Hidle Hone. split; [|split; [|split]].
  - intros fault w'. subst w'.
    assert (D : Timer.db
                  (Timer.handleStartTimer (Some user) taskId name now later
                     new_id fault w) = Timer.db w).
    { destruct fault as [e|].
      - unfold Timer.Idle in Hidle.
        unfold Timer.handleStartTimer, Timer.may_start. rewrite Hidle.
        unfold Timer.start_request, Timer.handleStartTimer_receive.
        destruct (Timer.is_unique_violation e); [|reflexivity].
        unfold Timer.loadActiveTimer, Store.select_open.
        cbn [Timer.db Timer.signal Timer.setDb Timer.setLoading].
        rewrite Hone. reflexivity.
      - rewrite (start_rejected user taskId name now later new_id row w
                   Hidle Hone).
        reflexivity. }
    rewrite D. split; [reflexivity|exact Hone].
  - intros fault Hf w'. subst w'.
    rewrite (start_conflict user taskId name now later new_id fault row w
               Hidle Hone Hf).
    cbn [Timer.db Timer.out Timer.guard Timer.elapsedSeconds].
    split; [reflexivity|]. split.
    + split; [reflexivity|]. exists row. cbn [Timer.db Timer.id].
      split; [exact Hone|reflexivity].
    + unfold Timer.seconds_between.
      pose proof (Z.div_mod (later - SubtaskTimeLog.start_time row) 1000
                    ltac:(lia)).
      pose proof (Z.mod_pos_bound (later - SubtaskTimeLog.start_time row) 1000
                    ltac:(lia)).
      lia.
  - intros name1 t1 later1 id1 w0 Hidle0 Hnone w1. subst w1.
    rewrite (start_from_nothing user taskId name1 t1 later1 id1 w0 Hidle0
               Hnone).
    set (row1 := SubtaskTimeLog.mk id1 taskId user name1 t1 None None).
    assert (Hopen : filter (Store.open_for taskId user) (Timer.db w0 ++ [row1])
                    = [row1]).
    { rewrite filter_app, Hnone. cbn [app filter]. unfold Store.open_for, row1.
      cbn [SubtaskTimeLog.task_id SubtaskTimeLog.user_id Store.is_open
           SubtaskTimeLog.end_time].
      rewrite !String.eqb_refl. reflexivity. }
    split.
    + split; [reflexivity|]. exists row1. cbn [Timer.db Timer.id].
      split; [exact Hopen|reflexivity].
    + intros g2 o2 Hg2 w2. subst w2. cbn [Timer.db].
      rewrite (start_rejected user taskId name now later new_id row1);
        [|exact Hg2|exact Hopen].
      cbn [Timer.db Timer.out]. split; [reflexivity|].
      split; [reflexivity|]. split; [reflexivity|].
      exists row1. cbn [Timer.db Timer.id]. split; [exact Hopen|reflexivity].
  - intros name1 t1 id1 w0 Hidle0 Hnone.
    pose proof (overlapping_starts user taskId name1 name t1 now later id1
                  new_id w0 Hidle0 Hnone) as O.
    destruct (Timer.start_request None id1 taskId user name1 t1 (Timer.db w0))
      as [res1 d1].
    destruct (Timer.start_request None new_id taskId user name now d1)
      as [res2 d2].
    cbv zeta in O |- *. destruct O as (_ & O). exact O.
Qed.

Lemma second_start_creates_no_entry_witness :
  let row := SubtaskTimeLog.mk "l1" "t" "u" "Design" 1000 None None in
  let w := Timer.mkWorld Timer.initial [row] [] in
  Timer.Idle w /\
  filter (Store.open_for "t" "u") (Timer.db w) = [row] /\
  Timer.out
    (Timer.handleStartTimer (Some "u"%string) "t" "Review" 2000 2000 "l2"
       None w)
  = [Timer.already_running].
Proof.
  intros row w.
  assert (H1 : Timer.Idle w) by reflexivity.
  assert (H2 : filter (Store.open_for "t" "u") (Timer.db w) = [row])
    by reflexivity.
  split; [exact H1|]. split; [exact H2|].
  destruct (second_start_creates_no_entry "u" "t" "Review" 2000 2000 "l2" row
              w H1 H2) as (_ & C & _).
  destruct (C None (or_introl eq_refl)) as [E _]. exact E.
Defined.

(** * Further properties of the handlers *)

(** ** The subtask list under confirmation, deletion and renaming *)

Lemma derived_progress_counts (l1 l2 : list Subtask.t) :
  total_count l1 = total_count l2 ->
  completed_count l1 = completed_count l2 ->
  derived_progress l1 = derived_progress l2.
Proof.
  intros Ht Hc. rewrite !derived_progress_eq, Ht, Hc. reflexivity.
Qed.

Lemma replaced_added (tempId text : string) (data : Subtask.t)
    (l : list Subtask.t) :
  (forall t, In t l -> Subtask.id t <> tempId) ->
  map (fun t => if Modal.id_is tempId t then data else t)
      (l ++ [Subtask.mk tempId text false])
  = l ++ [data].
Proof.
  intros H. rewrite map_app, (replaced_absent tempId data l H).
  cbn [map]. unfold Modal.id_is. cbn [Subtask.id].
  rewrite String.eqb_refl. reflexivity.
Qed.

Lemma counts_app_one (l : list Subtask.t) (x : Subtask.t) :
  total_count (l ++ [x]) = total_count l + 1 /\
  completed_count (l ++ [x])
  = completed_count l + (if Subtask.is_completed x then 1 else 0).
Proof.
  unfold total_count, completed_count.
  rewrite filter_app, !length_app. cbn [filter length].
  destruct (Subtask.is_completed x); cbn [length]; lia.
Qed.

Lemma handleAddSubtask_data (task : Task.t) (text tempId : string)
    (data : Subtask.t) (s : Modal.State) :
  (forall t, In t (Modal.subtasks s) -> Subtask.id t <> tempId) ->
  let s' := Modal.exec
              (Modal.handleAddSubtask task text tempId (Modal.Data data)) s in
  Modal.subtasks s' = Modal.subtasks s ++ [data] /\
  (Subtask.id data <> tempId ->
   forall t, In t (Modal.subtasks s') -> Subtask.id t <> tempId) /\
  (Subtask.is_completed data = false ->
   Modal.progress s' = derived_progress (Modal.subtasks s')).
Proof.
  intros Hfresh s'. subst s'. unfold Modal.exec.
  rewrite handleAddSubtask_run. cbv zeta.
  cbn [Modal.final_state fst snd Modal.subtasks Modal.progress].
  rewrite (replaced_added tempId text data _ Hfresh).
  split; [reflexivity|]. split.
  - intros Hid t Ht. apply in_app_iff in Ht as [Ht|[<-|[]]]; auto.
  - intros Hc. apply derived_progress_counts.
    + rewrite !(proj1 (counts_app_one _ _)). reflexivity.
    + rewrite !(proj2 (counts_app_one _ _)). cbn [Subtask.is_completed].
      rewrite Hc. reflexivity.
Qed.

(** Add, then confirm: the temporary entry gives way to the entity of the
    store, at the end of the list; the temporary id is gone; and Progress,
    computed before the answer, is the Progress of the confirmed list when
    the store returns the entity not completed, as it was inserted. *)
Theorem add_confirmed (task : Task.t) (text tempId : string)
    (data : Subtask.t) (s : Modal.State) :
  (forall t, In t (Modal.subtasks s) -> Subtask.id t <> tempId) ->
  let s' := Modal.exec
              (Modal.handleAddSubtask task text tempId (Modal.Data data)) s in
  Modal.subtasks s' = Modal.subtasks s ++ [data] /\
  (Subtask.id data <> tempId ->
   forall t, In t (Modal.subtasks s') -> Subtask.id t <> tempId) /\
  (Subtask.is_completed data = false ->
   Modal.progress s' = derived_progress (Modal.subtasks s')).
Proof. exact (handleAddSubtask_data task text tempId data s). Qed.

Lemma add_confirmed_witness :
  let s := Modal.mkState (sample_items 1 2) example_statuses 50 in
  (forall t, In t (Modal.subtasks s) -> Subtask.id t <> "tmp"%string) /\
  Modal.subtasks
    (Modal.exec
       (Modal.handleAddSubtask (Task.mk "t" (IdNum 2)) "x" "tmp"
          (Modal.Data (Subtask.mk "srv" "x" false))) s)
  = sample_items 1 2 ++ [Subtask.mk "srv" "x" false].
Proof.
  intros s.
  assert (H : forall t, In t (Modal.subtasks s) -> Subtask.id t <> "tmp"%string).
  { intros t [<-|[<-|[]]]; discriminate. }
  split; [exact H|].
  apply (add_confirmed (Task.mk "t" (IdNum 2)) "x" "tmp"
           (Subtask.mk "srv" "x" false) s H).
Defined.

Lemma without_split (id : string) (l1 l2 : list Subtask.t) (d : Subtask.t) :
  Subtask.id d = id ->
  ~ In id (map Subtask.id l1) -> ~ In id (map Subtask.id l2) ->
  without id (l1 ++ d :: l2) = l1 ++ l2 /\
  find (Modal.id_is id) (l1 ++ d :: l2) = Some d.
Proof.
  intros Hd H1 H2.
  assert (A1 : forall t, In t l1 -> Subtask.id t <> id)
    by (intros t Ht E; apply H1; rewrite <- E; apply in_map; exact Ht).
  assert (A2 : forall t, In t l2 -> Subtask.id t <> id)
    by (intros t Ht E; apply H2; rewrite <- E; apply in_map; exact Ht).
  split.
  - unfold without. rewrite filter_app. cbn [filter].
    fold (without id l1). fold (without id l2).
    rewrite (without_fresh id l1 A1), (without_fresh id l2 A2).
    unfold Modal.id_is. rewrite Hd, String.eqb_refl. reflexivity.
  - induction l1 as [|x l1 IH]; cbn [app find].
    + unfold Modal.id_is. rewrite Hd, String.eqb_refl. reflexivity.
    + unfold Modal.id_is at 1.
      destruct (String.eqb_spec (Subtask.id x) id) as [E|_].
      * exfalso. apply (A1 x); [left; reflexivity|exact E].
      * apply IH.
        -- intros F. apply H1. right. exact F.
        -- intros t Ht. apply A1. right. exact Ht.
Qed.

Lemma nodup_split (id : string) (l : list Subtask.t) (d : Subtask.t) :
  NoDup (map Subtask.id l) -> In d l -> Subtask.id d = id ->
  exists l1 l2, l = l1 ++ d :: l2 /\
    ~ In id (map Subtask.id l1) /\ ~ In id (map Subtask.id l2).
Proof.
  intros Hnd Hin Hd. apply in_split in Hin as (l1 & l2 & ->).
  exists l1, l2. split; [reflexivity|].
  rewrite map_app in Hnd. cbn [map] in Hnd. rewrite Hd in Hnd.
  pose proof (NoDup_remove_2 _ _ _ Hnd) as N.
  split; intros F; apply N; apply in_or_app; [left|right]; exact F.
Qed.

Lemma handleDeleteSubtask_kept (task : Task.t) (id : string) (r : Modal.Response unit)
    (s : Modal.State) :
  r <> Modal.Failed ->
  let s' := Modal.exec (Modal.handleDeleteSubtask task id r) s in
  Modal.subtasks s'
    = filter (fun t => negb (String.eqb (Subtask.id t) id)) (Modal.subtasks s) /\
  (forall t, In t (Modal.subtasks s') -> Subtask.id t <> id) /\
  (forall t, In t (Modal.subtasks s) -> Subtask.id t <> id ->
             In t (Modal.subtasks s')) /\
  Modal.progress s' = derived_progress (Modal.subtasks s').
Proof.
  intros Hr s'. subst s'.
  unfold Modal.handleDeleteSubtask. rewrite exec_bind.
  rewrite handleDeleteSubtask_send_run. cbn [Modal.final_state fst snd].
  assert (E : forall d st,
            Modal.exec (Modal.handleDeleteSubtask_receive d r) st = st).
  { intros d st. unfold Modal.handleDeleteSubtask_receive.
    destruct r; [contradiction| |]; reflexivity. }
  rewrite E. cbn [Modal.subtasks Modal.progress].
  split; [reflexivity|]. split; [apply without_is_absent|].
  split; [|reflexivity].
  intros t Ht Hne. apply filter_In. split; [exact Ht|].
  unfold Modal.id_is. apply negb_true_iff. apply String.eqb_neq. exact Hne.
Qed.

(** A delete the store accepts removes every entry of that id and keeps
    the others, in their order; Progress is that of the list that is
    left. *)
Theorem delete_accepted (task : Task.t) (id : string) (r : Modal.Response unit)
    (s : Modal.State) :
  r <> Modal.Failed ->
  let s' := Modal.exec (Modal.handleDeleteSubtask task id r) s in
  Modal.subtasks s'
    = filter (fun t => negb (String.eqb (Subtask.id t) id)) (Modal.subtasks s) /\
  (forall t, In t (Modal.subtasks s') -> Subtask.id t <> id) /\
  (forall t, In t (Modal.subtasks s) -> Subtask.id t <> id ->
             In t (Modal.subtasks s')) /\
  Modal.progress s' = derived_progress (Modal.subtasks s').
Proof. exact (handleDeleteSubtask_kept task id r s). Qed.

Lemma delete_accepted_witness :
  let s := Modal.mkState (sample_items 1 2) example_statuses 50 in
  Modal.Data tt <> Modal.Failed /\
  Modal.subtasks
    (Modal.exec
       (Modal.handleDeleteSubtask (Task.mk "t" (IdNum 2)) "s0" (Modal.Data tt))
       s)
  = [Subtask.mk "s1" "Design" false].
Proof.
  intros s.
  assert (H : Modal.Data tt <> @Modal.Failed unit) by discriminate.
  split; [exact H|].
  destruct (delete_accepted (Task.mk "t" (IdNum 2)) "s0" (Modal.Data tt) s H)
    as [E _].
  rewrite E. reflexivity.
Defined.

(** A delete the store refuses: with ids that are unique, the entry comes
    back, but at the end of the list and not where it was; the list has
    the entries it had before the call.  Progress is not recomputed: it is
    the Progress of the list without the entry. *)
Theorem delete_refused (task : Task.t) (id : string) (entry : Subtask.t)
    (s : Modal.State) :
  NoDup (map Subtask.id (Modal.subtasks s)) ->
  In entry (Modal.subtasks s) ->
  Subtask.id entry = id ->
  let s' := Modal.exec (Modal.handleDeleteSubtask task id Modal.Failed) s in
  Modal.subtasks s' = without id (Modal.subtasks s) ++ [entry] /\
  Permutation (Modal.subtasks s) (Modal.subtasks s') /\
  derived_progress (Modal.subtasks s') = derived_progress (Modal.subtasks s) /\
  Modal.progress s' = derived_progress (without id (Modal.subtasks s)).
Proof.
  intros Hnd Hin Hid s'. subst s'.
  destruct (nodup_split id _ entry Hnd Hin Hid) as (l1 & l2 & El & N1 & N2).
  destruct (without_split id l1 l2 entry Hid N1 N2) as [W F].
  unfold Modal.handleDeleteSubtask. rewrite exec_bind.
  rewrite handleDeleteSubtask_send_run. cbn [Modal.final_state fst snd].
  rewrite El, F, W.
  unfold Modal.handleDeleteSubtask_receive, Modal.exec, Modal.final_state.
  run_handler. cbn [fst snd Modal.subtasks Modal.progress].
  assert (P : Permutation (l1 ++ entry :: l2) ((l1 ++ l2) ++ [entry])).
  { apply Permutation_sym.
    rewrite <- app_assoc.
    apply Permutation_app_head.
    apply Permutation_sym. apply Permutation_cons_append. }
  split; [reflexivity|]. split; [exact P|]. split; [|reflexivity].
  apply derived_progress_counts; unfold total_count, completed_count.
  - f_equal. apply Permutation_length.
    apply Permutation_sym. exact P.
  - f_equal. rewrite !filter_app. cbn [filter].
    destruct (Subtask.is_completed entry);
      rewrite ?length_app; cbn [length]; rewrite ?length_app; cbn [length]; lia.
Qed.

Lemma delete_refused_witness :
  let s := Modal.mkState (sample_items 1 3) example_statuses 33 in
  let entry := Subtask.mk "s0" "Design" true in
  NoDup (map Subtask.id (Modal.subtasks s)) /\
  map Subtask.id
    (Modal.subtasks
       (Modal.exec
          (Modal.handleDeleteSubtask (Task.mk "t" (IdNum 2)) "s0" Modal.Failed)
          s))
  = ["s1"; "s2"; "s0"]%string.
Proof.
  intros s entry.
  assert (H : NoDup (map Subtask.id (Modal.subtasks s))).
  { cbn. repeat constructor; cbn; intuition discriminate. }
  split; [exact H|].
  destruct (delete_refused (Task.mk "t" (IdNum 2)) "s0" entry s H
              (or_introl eq_refl) eq_refl) as [E _].
  rewrite E. reflexivity.
Defined.

Lemma retitled_counts (id text : string) (l : list Subtask.t) :
  let l' := map (fun t => if Modal.id_is id t then Modal.set_title text t else t) l in
  map Subtask.id l' = map Subtask.id l /\
  map Subtask.is_completed l' = map Subtask.is_completed l.
Proof.
  cbv zeta. rewrite !map_map. split; apply map_ext; intros t;
    destruct (Modal.id_is id t); reflexivity.
Qed.

Lemma handleUpdateSubtaskText_any (id text : string) (r : Modal.Response unit)
    (s : Modal.State) :
  let s' := Modal.exec (Modal.handleUpdateSubtaskText id text r) s in
  map Subtask.id (Modal.subtasks s') = map Subtask.id (Modal.subtasks s) /\
  map Subtask.is_completed (Modal.subtasks s')
    = map Subtask.is_completed (Modal.subtasks s) /\
  (forall i t, nth_error (Modal.subtasks s) i = Some t ->
     nth_error (Modal.subtasks s') i
     = Some (if String.eqb (Subtask.id t) id
             then Subtask.mk (Subtask.id t) text (Subtask.is_completed t)
             else t)) /\
  Modal.progress s' = Modal.progress s /\
  s' = Modal.exec (Modal.handleUpdateSubtaskText id text Modal.Failed) s.
Proof.
  intros s'. subst s'.
  assert (E : forall r0,
            Modal.exec (Modal.handleUpdateSubtaskText id text r0) s
            = Modal.mkState
                (map (fun t => if Modal.id_is id t then Modal.set_title text t
                               else t) (Modal.subtasks s))
                (Modal.statuses s) (Modal.progress s)).
  { intros r0.
    unfold Modal.handleUpdateSubtaskText, Modal.handleUpdateSubtaskText_send,
      Modal.handleUpdateSubtaskText_receive, Modal.exec, Modal.final_state.
    run_handler. destruct r0; reflexivity. }
  rewrite !E. cbn [Modal.subtasks Modal.progress].
  destruct (retitled_counts id text (Modal.subtasks s)) as [Hi Hc].
  split; [exact Hi|]. split; [exact Hc|]. split; [|split; reflexivity].
  intros i t Ht. rewrite nth_error_map, Ht. reflexivity.
Qed.

(** Renaming: [updateText] gives the new title to the entries of that id
    and touches nothing else: ids, completion, order, length and Progress
    stay; and a failure of the store undoes nothing, the new title stays
    in the list. *)
Theorem rename_is_best_effort (id text : string) (r : Modal.Response unit)
    (s : Modal.State) :
  let s' := Modal.exec (Modal.handleUpdateSubtaskText id text r) s in
  map Subtask.id (Modal.subtasks s') = map Subtask.id (Modal.subtasks s) /\
  map Subtask.is_completed (Modal.subtasks s')
    = map Subtask.is_completed (Modal.subtasks s) /\
  (forall i t, nth_error (Modal.subtasks s) i = Some t ->
     nth_error (Modal.subtasks s') i
     = Some (if String.eqb (Subtask.id t) id
             then Subtask.mk (Subtask.id t) text (Subtask.is_completed t)
             else t)) /\
  Modal.progress s' = Modal.progress s /\
  s' = Modal.exec (Modal.handleUpdateSubtaskText id text Modal.Failed) s.
Proof. exact (handleUpdateSubtaskText_any id text r s). Qed.

(** ** Progress and the list agree while the store accepts *)

Lemma toggled_counts_total (id : string) (b : bool) (l : list Subtask.t) :
  total_count (toggled id b l) = total_count l.
Proof. unfold total_count, toggled. rewrite length_map. reflexivity. Qed.

Lemma retitled_progress (id text : string) (l : list Subtask.t) :
  derived_progress
    (map (fun t => if Modal.id_is id t then Modal.set_title text t else t) l)
  = derived_progress l.
Proof.
  apply derived_progress_counts; unfold total_count, completed_count.
  - rewrite length_map. reflexivity.
  - f_equal. induction l as [|x l IH]; [reflexivity|]. cbn [map filter].
    assert (E : Subtask.is_completed
                  (if Modal.id_is id x then Modal.set_title text x else x)
                = Subtask.is_completed x)
      by (destruct (Modal.id_is id x); reflexivity).
    rewrite E. destruct (Subtask.is_completed x); cbn [length]; rewrite IH;
      reflexivity.
Qed.

Lemma run_keeps_sync (task : Task.t) (op : Modal.Op) (s : Modal.State) :
  in_sync s -> accepted s op -> in_sync (Modal.exec (Modal.run task op) s).
Proof.
  unfold in_sync. intros Hs Ha. destruct op; cbn [Modal.run accepted] in *.
  - unfold Modal.loadSubtasks, Modal.loadSubtasks_send.
    destruct (String.eqb (Task.id task) ""); [exact Hs|].
    unfold Modal.loadSubtasks_receive, Modal.exec, Modal.final_state.
    destruct r; run_handler; reflexivity.
  - destruct r as [|data|]; [contradiction| |].
    + destruct Ha as [Hc Hfresh].
      destruct (handleAddSubtask_data task text tempId data s Hfresh)
        as (_ & _ & P).
      exact (P Hc).
    + unfold Modal.exec. rewrite handleAddSubtask_run. reflexivity.
  - unfold Modal.handleToggleSubtask. rewrite exec_bind.
    rewrite handleToggleSubtask_send_run. cbn [Modal.final_state fst snd].
    unfold Modal.exec. rewrite handleToggleSubtask_receive_run.
    destruct r; [contradiction| |]; reflexivity.
  - destruct (handleDeleteSubtask_kept task id r s Ha) as (_ & _ & _ & P).
    exact P.
  - destruct (handleUpdateSubtaskText_any id text r s) as (_ & _ & _ & P & _).
    rewrite P, Hs. symmetry.
    assert (E : Modal.subtasks
                  (Modal.exec (Modal.handleUpdateSubtaskText id text r) s)
                = map (fun t => if Modal.id_is id t
                                then Modal.set_title text t else t)
                      (Modal.subtasks s)).
    { unfold Modal.handleUpdateSubtaskText, Modal.handleUpdateSubtaskText_send,
        Modal.handleUpdateSubtaskText_receive, Modal.exec, Modal.final_state.
      run_handler. destruct r; reflexivity. }
    rewrite E. apply retitled_progress.
Qed.

(** An add whose temporary row is ticked, and the tick accepted, before
    the answer of the insert arrives. *)
Lemma add_overlapping_toggle_run (task : Task.t) (text tempId : string)
    (data : Subtask.t) (s : Modal.State) :
  (forall t, In t (Modal.subtasks s) -> Subtask.id t <> tempId) ->
  Modal.exec (add_overlapping_toggle task text tempId data true (Modal.Data tt))
             s
  = Modal.mkState (Modal.subtasks s ++ [data]) (Modal.statuses s)
      (derived_progress (Modal.subtasks s ++ [Subtask.mk tempId text true])).
Proof.
  intros Hfresh.
  assert (T : toggled tempId true
                (Modal.subtasks s ++ [Subtask.mk tempId text false])
              = Modal.subtasks s ++ [Subtask.mk tempId text true]).
  { pose proof (toggled_absent tempId true (Modal.subtasks s) Hfresh) as A.
    unfold toggled in A |- *. rewrite map_app, A.
    cbn [map]. unfold Modal.id_is. cbn [Subtask.id].
    rewrite String.eqb_refl. reflexivity. }
  unfold add_overlapping_toggle, Modal.handleToggleSubtask, Modal.exec,
    Modal.final_state, Modal.bind.
  rewrite handleAddSubtask_send_run. cbv beta iota zeta.
  rewrite handleToggleSubtask_send_run. cbv beta iota zeta.
  rewrite handleToggleSubtask_receive_run. cbv beta iota zeta.
  rewrite handleAddSubtask_receive_run. cbv beta iota zeta.
  cbn [fst snd Modal.subtasks Modal.statuses Modal.progress]. rewrite T.
  rewrite map_app, (replaced_absent tempId data _ Hfresh).
  cbn [map]. unfold Modal.id_is. cbn [Subtask.id].
  rewrite String.eqb_refl. reflexivity.
Qed.

(** While every operation is answered before the next one begins and the
    store accepts each, the Progress shown is the Progress of the list
    shown, from the first render on.  Operations that overlap can part
    the two although every answer is an acceptance: when the temporary
    row of an add is ticked, and the tick accepted, before the insert is
    answered, the list ends with the entity of the store, not completed,
    while Progress counts it as completed; from an empty list Progress is
    100 where the list gives 0. *)
Theorem progress_follows_accepted_operations (task : Task.t)
    (ops : list Modal.Op) :
  all_accepted task Modal.initial ops ->
  in_sync (run_all task ops) /\
  (forall text tempId data,
     Subtask.is_completed data = false ->
     (forall t, In t (Modal.subtasks (run_all task ops)) ->
                Subtask.id t <> tempId) ->
     let s' :=
       Modal.exec
         (add_overlapping_toggle task text tempId data true (Modal.Data tt))
         (run_all task ops) in
     Modal.subtasks s' = Modal.subtasks (run_all task ops) ++ [data] /\
     Modal.progress s'
     = derived_progress
         (Modal.subtasks (run_all task ops) ++ [Subtask.mk tempId text true]) /\
     (Modal.subtasks (run_all task ops) = [] ->
      Modal.progress s' = 100 /\ derived_progress (Modal.subtasks s') = 0 /\
      ~ in_sync s')).
Proof.
  assert (G : forall s, in_sync s -> all_accepted task s ops ->
            in_sync (fold_left (fun s op => Modal.exec (Modal.run task op) s)
                               ops s)).
  { induction ops as [|op ops IH]; intros s Hs Ha; cbn [fold_left]; [exact Hs|].
    destruct Ha as [Ha1 Ha2]. apply IH; [|exact Ha2].
    apply run_keeps_sync; assumption. }
  intros Ha. split.
  - unfold run_all. apply G; [reflexivity|exact Ha].
  - intros text tempId data Hc Hfresh s'. subst s'.
    rewrite (add_overlapping_toggle_run task text tempId data _ Hfresh).
    cbn [Modal.subtasks Modal.progress].
    split; [reflexivity|]. split; [reflexivity|].
    intros E. rewrite E. cbn [app].
    assert (P1 : derived_progress [Subtask.mk tempId text true] = 100)
      by (vm_compute; reflexivity).
    assert (P0 : derived_progress [data] = 0).
    { destruct data as [i t c]. cbn [Subtask.is_completed] in Hc. subst c.
      vm_compute. reflexivity. }
    split; [exact P1|]. split; [exact P0|].
    unfold in_sync. cbn [Modal.subtasks Modal.progress app].
    rewrite P1, P0. discriminate.
Qed.

Lemma progress_follows_accepted_operations_witness :
  let task := Task.mk "t" (IdNum 1) in
  let ops :=
    [ Modal.Load (Modal.Data (sample_items 1 2));
      Modal.Add "x" "tmp" (Modal.Data (Subtask.mk "srv" "x" false));
      Modal.Toggle "srv" true (Modal.Data tt);
      Modal.Delete "s1" (Modal.Data tt) ] in
  all_accepted task Modal.initial ops /\
  Modal.progress (run_all task ops) = 100.
Proof.
  intros task ops.
  assert (H : all_accepted task Modal.initial ops).
  { vm_compute. repeat split; try discriminate.
    intros t [<-|[<-|[]]]; discriminate. }
  split; [exact H|].
  destruct (progress_follows_accepted_operations task ops H) as [E _].
  rewrite E. vm_compute. reflexivity.
Defined.

(** ** The check box of a row *)

Lemma toggled_same (id : string) (b : bool) (l : list Subtask.t) :
  (forall t, In t l -> Subtask.id t = id -> Subtask.is_completed t = b) ->
  toggled id b l = l.
Proof.
  intros H. unfold toggled. rewrite <- (map_id l) at 2.
  apply map_ext_in. intros t Ht. unfold Modal.id_is.
  destruct (String.eqb_spec (Subtask.id t) id) as [E|_]; [|reflexivity].
  rewrite <- (H t Ht E). apply set_completed_same.
Qed.

Lemma nodup_same_entry (l : list Subtask.t) (row t : Subtask.t) :
  NoDup (map Subtask.id l) -> In row l -> In t l ->
  Subtask.id t = Subtask.id row -> t = row.
Proof.
  intros Hnd Hrow Ht Hid.
  induction l as [|x l IH]; [destruct Hrow|].
  cbn [map] in Hnd. inversion Hnd as [|? ? Hx Hl]; subst.
  destruct Hrow as [->|Hrow], Ht as [->|Ht]; try reflexivity.
  - exfalso. apply Hx. rewrite <- Hid. apply in_map. exact Ht.
  - exfalso. apply Hx. rewrite Hid. apply in_map. exact Hrow.
  - apply IH; assumption.
Qed.

(** A click on the check box of a row passes the negation of what the row
    shows.  With ids that are unique, a click the store refuses leaves
    the list exactly as it was; and a click the store accepts followed by
    a click on the row as it is then shown, accepted as well, gives the
    list back. *)
Theorem check_box_click (task : Task.t) (row : Subtask.t) (s : Modal.State) :
  NoDup (map Subtask.id (Modal.subtasks s)) ->
  In row (Modal.subtasks s) ->
  Modal.subtasks (Modal.exec (click_toggle task row Modal.Failed) s)
    = Modal.subtasks s /\
  (let s1 := Modal.exec (click_toggle task row (Modal.Data tt)) s in
   let shown := Modal.set_completed (negb (Subtask.is_completed row)) row in
   In shown (Modal.subtasks s1) /\
   Modal.exec (click_toggle task shown (Modal.Data tt)) s1
   = Modal.mkState (Modal.subtasks s) (Modal.statuses s)
                   (derived_progress (Modal.subtasks s))).
Proof.
  intros Hnd Hrow.
  assert (Hsame : forall t, In t (Modal.subtasks s) ->
            Subtask.id t = Subtask.id row ->
            Subtask.is_completed t = Subtask.is_completed row).
  { intros t Ht Hid. rewrite (nodup_same_entry _ row t Hnd Hrow Ht Hid).
    reflexivity. }
  assert (Run : forall b st,
            Modal.exec (Modal.handleToggleSubtask task (Subtask.id row) b
                          (Modal.Data tt)) st
            = Modal.mkState (toggled (Subtask.id row) b (Modal.subtasks st))
                (Modal.statuses st)
                (derived_progress
                   (toggled (Subtask.id row) b (Modal.subtasks st)))).
  { intros b st. unfold Modal.handleToggleSubtask. rewrite exec_bind.
    rewrite handleToggleSubtask_send_run. cbn [Modal.final_state fst snd].
    unfold Modal.exec. rewrite handleToggleSubtask_receive_run. reflexivity. }
  split.
  - unfold click_toggle, Modal.exec. rewrite handleToggleSubtask_run.
    cbn [Modal.final_state fst snd Modal.subtasks].
    rewrite Bool.negb_involutive. apply toggled_same. exact Hsame.
  - cbv zeta. unfold click_toggle.
    change (Subtask.id (Modal.set_completed (negb (Subtask.is_completed row)) row))
      with (Subtask.id row).
    change (Subtask.is_completed
              (Modal.set_completed (negb (Subtask.is_completed row)) row))
      with (negb (Subtask.is_completed row)).
    rewrite Run.
    split.
    + cbn [Modal.subtasks]. unfold toggled. apply in_map_iff.
      exists row. split; [|exact Hrow].
      unfold Modal.id_is. rewrite String.eqb_refl. reflexivity.
    + rewrite Run. cbn [Modal.subtasks Modal.statuses Subtask.is_completed].
      rewrite toggled_toggled, Bool.negb_involutive.
      rewrite (toggled_same _ _ _ Hsame). reflexivity.
Qed.

Lemma check_box_click_witness :
  let s := Modal.mkState (sample_items 1 2) example_statuses 50 in
  let row := Subtask.mk "s1" "Design" false in
  NoDup (map Subtask.id (Modal.subtasks s)) /\
  Modal.subtasks
    (Modal.exec (click_toggle (Task.mk "t" (IdNum 2)) row Modal.Failed) s)
  = Modal.subtasks s.
Proof.
  intros s row.
  assert (H : NoDup (map Subtask.id (Modal.subtasks s))).
  { cbn. repeat constructor; cbn; intuition discriminate. }
  split; [exact H|].
  destruct (check_box_click (Task.mk "t" (IdNum 2)) row s H
              (or_intror (or_introl eq_refl))) as [E _].
  exact E.
Defined.

(** ** What the inference pushes *)

(** One evaluation of the inference pushes at most one status.  What it
    pushes is the id of one of the statuses, one whose label matches the
    class of the list; it is truthy and is not the status the task is in;
    and once the task is in the pushed status, evaluating the inference on
    the same list pushes nothing. *)
Theorem inference_settles (task : Task.t) (items : list Subtask.t)
    (s : Modal.State) :
  let pushed :=
    status_updates (Modal.trace (Modal.checkAutoStatusUpdate task items s)) in
  (length pushed <= 1)%nat /\
  forall i, In i pushed ->
    (exists st, In st (Modal.statuses s) /\ Status.id st = i /\
       matches (classify (completed_count items) (total_count items)) st = true) /\
    truthy i = true /\
    i <> Task.status_id task /\
    status_updates
      (Modal.trace
         (Modal.checkAutoStatusUpdate (Task.mk (Task.id task) i) items s))
    = [].
Proof.
  intros pushed. subst pushed.
  rewrite status_updates_infer, newStatusId_eq.
  destruct (Z.eqb_spec (total_count items) 0) as [E0|E0];
    [cbn; split; [lia|intros i []]|].
  cbv zeta.
  destruct (find _ (Modal.statuses s)) as [st|] eqn:Ef;
    [|cbn; split; [lia|intros i []]].
  destruct (truthy (Status.id st)) eqn:Tr; cbn [andb];
    [|cbn; split; [lia|intros i []]].
  destruct (strict_eq (Task.status_id task) (Status.id st)) eqn:Eq; cbn [negb];
    [cbn; split; [lia|intros i []]|].
  rewrite Tr. cbn [length]. split; [lia|].
  intros i [<-|[]].
  destruct (find_some _ _ Ef) as [Hin Hm].
  assert (Refl : strict_eq (Status.id st) (Status.id st) = true)
    by (apply strict_eq_spec; reflexivity).
  split; [exists st; auto|]. split; [exact Tr|]. split.
  - intros E. rewrite <- E in Eq. congruence.
  - rewrite status_updates_infer, newStatusId_eq. cbn [Task.status_id].
    destruct (Z.eqb_spec (total_count items) 0); [contradiction|].
    cbv zeta. rewrite Ef, Refl, andb_false_r. reflexivity.
Qed.

(** ** The label patterns *)

Lemma same_upper_same_space (x y : ascii) :
  Regex.upper x = Regex.upper y -> Regex.is_space x = Regex.is_space y.
Proof.
  unfold Regex.upper, Regex.is_space.
  set (n := N_of_ascii x). set (m := N_of_ascii y).
  destruct ((97 <=? n) && (n <=? 122))%N eqn:Tn;
    destruct ((97 <=? m) && (m <=? 122))%N eqn:Tm; intros E;
    repeat match goal with
           | H : (_ && _)%bool = true |- _ => apply andb_true_iff in H as [? ?]
           | H : (_ && _)%bool = false |- _ => apply andb_false_iff in H
           | H : (_ <=? _)%N = true |- _ => apply N.leb_le in H
           end.
  - assert (n = m) by lia. subst m. congruence.
  - assert (F1 : (9 <=? n)%N && (n <=? 13)%N = false)
      by (apply andb_false_iff; right; apply N.leb_gt; lia).
    assert (F2 : (n =? 32)%N = false) by (apply N.eqb_neq; lia).
    assert (F3 : (n =? 160)%N = false) by (apply N.eqb_neq; lia).
    assert (G1 : (9 <=? m)%N && (m <=? 13)%N = false)
      by (apply andb_false_iff; right; apply N.leb_gt; lia).
    assert (G2 : (m =? 32)%N = false) by (apply N.eqb_neq; lia).
    assert (G3 : (m =? 160)%N = false) by (apply N.eqb_neq; lia).
    rewrite F1, F2, F3, G1, G2, G3. reflexivity.
  - assert (F1 : (9 <=? n)%N && (n <=? 13)%N = false)
      by (apply andb_false_iff; right; apply N.leb_gt; lia).
    assert (F2 : (n =? 32)%N = false) by (apply N.eqb_neq; lia).
    assert (F3 : (n =? 160)%N = false) by (apply N.eqb_neq; lia).
    assert (G1 : (9 <=? m)%N && (m <=? 13)%N = false)
      by (apply andb_false_iff; right; apply N.leb_gt; lia).
    assert (G2 : (m =? 32)%N = false) by (apply N.eqb_neq; lia).
    assert (G3 : (m =? 160)%N = false) by (apply N.eqb_neq; lia).
    rewrite F1, F2, F3, G1, G2, G3. reflexivity.
  - subst. rewrite E. reflexivity.
Qed.

Lemma match_here_same_upper (p : list Regex.atom) (s s' : list ascii) :
  Forall2 (fun x y => Regex.upper x = Regex.upper y) s s' ->
  Regex.match_here p s = Regex.match_here p s'.
Proof.
  revert s s'. induction p as [|a p IH]; intros s s' H; [reflexivity|].
  destruct a as [c|]; cbn [Regex.match_here].
  - destruct H as [|x y s s' Hxy H]; [reflexivity|].
    unfold Regex.chr_eq. rewrite Hxy, (IH s s' H). reflexivity.
  - rewrite (IH s s' H).
    destruct H as [|x y s s' Hxy H]; [reflexivity|].
    rewrite (same_upper_same_space x y Hxy), (IH s s' H). reflexivity.
Qed.

Lemma search_same_upper (re : Regex.t) (s s' : list ascii) :
  Forall2 (fun x y => Regex.upper x = Regex.upper y) s s' ->
  Regex.search re s = Regex.search re s'.
Proof.
  intros H.
  assert (E : forall u u',
            Forall2 (fun x y => Regex.upper x = Regex.upper y) u u' ->
            existsb (fun p => Regex.match_here p u) re
            = existsb (fun p => Regex.match_here p u') re).
  { intros u u' Hu. induction re as [|p re IHre]; [reflexivity|].
    cbn [existsb]. rewrite IHre, (match_here_same_upper p u u' Hu).
    reflexivity. }
  induction H as [|x y s s' Hxy H IH].
  - reflexivity.
  - cbn [Regex.search]. rewrite IH.
    rewrite (E (x :: s) (y :: s')) by (constructor; assumption).
    reflexivity.
Qed.

(** The three patterns of the inference classify a label without regard
    to the case of its ASCII letters, and by any part of it: two labels
    that differ at most in the case of their letters [a] to [z] match the
    same patterns, and a label that contains a matching label matches. *)
Theorem labels_match_by_content (cls : StatusClass) (label label' : string) :
  same_ascii_case label label' ->
  Regex.test (pattern_of cls) label' = Regex.test (pattern_of cls) label /\
  (Regex.test (pattern_of cls) label = true ->
   forall before after,
     Regex.test (pattern_of cls) (before ++ label' ++ after)%string = true).
Proof.
  intros Hsame.
  assert (E : Regex.test (pattern_of cls) label'
              = Regex.test (pattern_of cls) label).
  { unfold Regex.test. symmetry. apply search_same_upper. exact Hsame. }
  split; [exact E|].
  rewrite <- E. unfold Regex.test. intros H before after.
  apply search_spec in H as (pre & w & post & p & Ew & Hp & Hw).
  apply search_spec.
  assert (L : forall a b, list_ascii_of_string (a ++ b)%string
              = list_ascii_of_string a ++ list_ascii_of_string b).
  { intros a b. induction a as [|c a IH]; [reflexivity|].
    cbn. rewrite IH. reflexivity. }
  rewrite !L, Ew.
  exists (list_ascii_of_string before ++ pre), w,
    (post ++ list_ascii_of_string after), p.
  split; [|auto]. rewrite <- !app_assoc. reflexivity.
Qed.

Lemma labels_match_by_content_witness :
  same_ascii_case "In Progress" "IN PROGRESS" /\
  Regex.test (pattern_of InProgress) "Sprint: IN PROGRESS (dev)" = true.
Proof.
  assert (H : same_ascii_case "In Progress" "IN PROGRESS").
  { unfold same_ascii_case. cbn [list_ascii_of_string].
    repeat constructor. }
  split; [exact H|].
  destruct (labels_match_by_content InProgress "In Progress" "IN PROGRESS" H)
    as [_ M].
  exact (M eq_refl "Sprint: "%string " (dev)"%string).
Defined.

(** ** Progress as the list fills *)

Lemma progress_of_counts_mono (c1 c2 n : Z) :
  0 <= c1 <= c2 -> c2 <= n -> n < 2 ^ 32 ->
  progress_of_counts c1 n <= progress_of_counts c2 n.
Proof.
  intros [H0 H12] H2n Hn.
  destruct (Z.eq_dec c1 c2) as [->|Hne]; [lia|].
  destruct (Z.eq_dec c1 0) as [->|Hc1].
  - rewrite F64_facts.progress_of_zero.
    apply progress_of_counts_range. lia.
  - destruct (progress_of_counts_window c1 n (progress_of_counts c1 n))
      as [_ Hi]; [lia|exact Hn|].
    destruct (progress_of_counts_window c2 n (progress_of_counts c1 n))
      as [Lo _]; [lia|exact Hn|].
    apply Lo.
    assert (~ 200 * c1 + n + 1 <= 2 * n * progress_of_counts c1 n)
      by (intros F; specialize (Hi F); lia).
    lia.
Qed.

Lemma progress_of_all (n : Z) :
  0 < n < 2 ^ 32 -> progress_of_counts n n = 100.
Proof.
  intros [H0 Hn].
  destruct (progress_of_counts_window n n 100) as [Lo _]; [lia|exact Hn|].
  pose proof (progress_of_counts_range n n ltac:(lia)). 
  assert (100 <= progress_of_counts n n) by (apply Lo; lia). lia.
Qed.

Lemma toggled_true_counts (id : string) (l : list Subtask.t) :
  completed_count l <= completed_count (toggled id true l).
Proof.
  unfold completed_count, toggled. apply inj_le.
  induction l as [|x l IH]; [apply le_n|]. cbn [map filter].
  destruct (Modal.id_is id x).
  - cbn [Modal.set_completed Subtask.is_completed].
    destruct (Subtask.is_completed x); cbn [length]; lia.
  - destruct (Subtask.is_completed x); cbn [length]; lia.
Qed.

(** On every list (of fewer than [2 ^ 32] items): Progress is 0 when no
    subtask is completed and 100 when all are, and completing a subtask
    never lowers it. *)
Theorem progress_grows_with_completion (l : list Subtask.t) (id : string) :
  total_count l < 2 ^ 32 ->
  (completed_count l = 0 -> derived_progress l = 0) /\
  (l <> [] -> completed_count l = total_count l -> derived_progress l = 100) /\
  derived_progress l <= derived_progress (toggled id true l).
Proof.
  intros Hn. rewrite !derived_progress_eq, toggled_counts_total.
  pose proof (completed_le_total l) as Hc.
  pose proof (completed_le_total (toggled id true l)) as Hc'.
  rewrite toggled_counts_total in Hc'.
  pose proof (toggled_true_counts id l) as Hup.
  destruct (Z.eqb_spec (total_count l) 0) as [E|E].
  - split; [reflexivity|]. split; [|lia].
    intros Hne. destruct l; [contradiction|].
    unfold total_count in E. cbn in E. lia.
  - split; [|split].
    + intros ->. apply F64_facts.progress_of_zero.
    + intros _ ->. apply progress_of_all. lia.
    + apply progress_of_counts_mono; lia.
Qed.

Lemma progress_grows_with_completion_witness :
  total_count (sample_items 1 3) < 2 ^ 32 /\
  derived_progress (sample_items 1 3)
  <= derived_progress (toggled "s2" true (sample_items 1 3)).
Proof.
  assert (H : total_count (sample_items 1 3) < 2 ^ 32)
    by (vm_compute; reflexivity).
  split; [exact H|].
  destruct (progress_grows_with_completion (sample_items 1 3) "s2" H)
    as (_ & _ & M).
  exact M.
Defined.

(** ** The input row of the editor *)

Lemma trim_start_suffix (s : list ascii) :
  exists p, s = p ++ Editor.trim_start s /\
            Forall (fun x => Regex.is_space x = true) p.
Proof.
  induction s as [|x s (p & E & F)]; [exists []; split; [reflexivity|constructor]|].
  cbn [Editor.trim_start]. destruct (Regex.is_space x) eqn:Sx.
  - exists (x :: p). split; [cbn; f_equal; exact E|constructor; assumption].
  - exists []. split; [reflexivity|constructor].
Qed.

Lemma trim_start_head (s : list ascii) :
  match Editor.trim_start s with
  | [] => True
  | x :: _ => Regex.is_space x = false
  end.
Proof.
  induction s as [|x s IH]; [exact I|]. cbn [Editor.trim_start].
  destruct (Regex.is_space x) eqn:Sx; [exact IH|exact Sx].
Qed.

Lemma trim_start_fixed (s : list ascii) :
  match s with [] => True | x :: _ => Regex.is_space x = false end ->
  Editor.trim_start s = s.
Proof.
  destruct s as [|x s]; [reflexivity|]. cbn [Editor.trim_start].
  intros ->. reflexivity.
Qed.

Lemma trim_start_idem (s : list ascii) :
  Editor.trim_start (Editor.trim_start s) = Editor.trim_start s.
Proof. apply trim_start_fixed. apply trim_start_head. Qed.

Lemma trim_end_prefix (s : list ascii) :
  exists q, s = Editor.trim_end s ++ q /\
            Forall (fun x => Regex.is_space x = true) q.
Proof.
  unfold Editor.trim_end.
  destruct (trim_start_suffix (rev s)) as (p & E & F).
  exists (rev p). split.
  - rewrite <- rev_app_distr, <- E, rev_involutive. reflexivity.
  - apply Forall_rev. exact F.
Qed.

Lemma trim_end_last (s : list ascii) :
  match rev (Editor.trim_end s) with
  | [] => True
  | x :: _ => Regex.is_space x = false
  end.
Proof.
  unfold Editor.trim_end. rewrite rev_involutive. apply trim_start_head.
Qed.

(** Trimming leaves a text with no white space at either end. *)
Lemma trim_list_ends (s : list ascii) :
  let t := Editor.trim_list s in
  match t with [] => True | x :: _ => Regex.is_space x = false end /\
  match rev t with [] => True | x :: _ => Regex.is_space x = false end.
Proof.
  cbv zeta. unfold Editor.trim_list. split; [|apply trim_end_last].
  destruct (trim_end_prefix (Editor.trim_start s)) as (q & E & F).
  pose proof (trim_start_head s) as H.
  destruct (Editor.trim_end (Editor.trim_start s)) as [|x u]; [exact I|].
  rewrite E in H. exact H.
Qed.

Lemma trim_list_fixed (t : list ascii) :
  match t with [] => True | x :: _ => Regex.is_space x = false end ->
  match rev t with [] => True | x :: _ => Regex.is_space x = false end ->
  Editor.trim_list t = t.
Proof.
  intros H1 H2. unfold Editor.trim_list, Editor.trim_end.
  rewrite (trim_start_fixed t H1), (trim_start_fixed (rev t) H2).
  apply rev_involutive.
Qed.

Lemma trim_list_idem (s : list ascii) :
  Editor.trim_list (Editor.trim_list s) = Editor.trim_list s.
Proof.
  destruct (trim_list_ends s) as [H1 H2]. apply trim_list_fixed; assumption.
Qed.

Lemma trim_list_blank (s : list ascii) :
  Editor.trim_list s = [] -> Forall (fun x => Regex.is_space x = true) s.
Proof.
  unfold Editor.trim_list. intros E.
  destruct (trim_start_suffix s) as (p & Es & Fp).
  destruct (trim_end_prefix (Editor.trim_start s)) as (q & Eq & Fq).
  rewrite E in Eq. cbn [app] in Eq. rewrite Es, Eq.
  apply Forall_app. split; assumption.
Qed.

Lemma string_eq_nil (s : string) :
  String.eqb s "" = true <-> list_ascii_of_string s = [].
Proof.
  destruct s; cbn; split; intros H; try reflexivity; discriminate.
Qed.

(** The input row never adds a blank or untrimmed subtask.  When
    [handleAddItem] calls [onAdd], the text is the trimmed input: not
    empty, without white space at its ends, unchanged by a further trim;
    and the input is cleared.  When the input holds white space only,
    nothing is added and the input stays.  [add] then appends exactly that
    text, not completed. *)
Theorem editor_adds_trimmed_text (input : string) :
  match Editor.handleAddItem input with
  | (Some text, rest) =>
      text = Editor.trim input /\ text <> ""%string /\
      Editor.trim text = text /\
      match list_ascii_of_string text with
      | [] => True
      | x :: _ => Regex.is_space x = false
      end /\
      match rev (list_ascii_of_string text) with
      | [] => True
      | x :: _ => Regex.is_space x = false
      end /\
      rest = ""%string /\
      forall task tempId r s,
        add_from_editor task input tempId r s
        = Modal.handleAddSubtask task text tempId r s /\
        fst (fst (Modal.handleAddSubtask_send task text tempId s))
        = Modal.subtasks s ++ [Subtask.mk tempId text false]
  | (None, rest) =>
      rest = input /\
      Forall (fun x => Regex.is_space x = true) (list_ascii_of_string input) /\
      forall task tempId r s,
        add_from_editor task input tempId r s = (tt, s, [])
  end.
Proof.
  unfold Editor.handleAddItem.
  destruct (String.eqb (Editor.trim input) "") eqn:E.
  - split; [reflexivity|]. split.
    + apply string_eq_nil in E. unfold Editor.trim in E.
      rewrite list_ascii_of_string_of_list_ascii in E.
      apply trim_list_blank. exact E.
    + intros task tempId r s. unfold add_from_editor, Editor.handleAddItem.
      rewrite E. reflexivity.
  - split; [reflexivity|]. split.
    + intros F. rewrite F in E. discriminate.
    + assert (L : list_ascii_of_string (Editor.trim input)
                  = Editor.trim_list (list_ascii_of_string input)).
      { unfold Editor.trim. apply list_ascii_of_string_of_list_ascii. }
      destruct (trim_list_ends (list_ascii_of_string input)) as [H1 H2].
      split; [|split; [|split; [|split]]].
      * unfold Editor.trim at 1. rewrite L, trim_list_idem. reflexivity.
      * rewrite L. exact H1.
      * rewrite L. exact H2.
      * reflexivity.
      * intros task tempId r s. split.
        -- unfold add_from_editor, Editor.handleAddItem. rewrite E.
           reflexivity.
        -- rewrite handleAddSubtask_send_run. reflexivity.
Qed.

(** ** The clock text *)

Lemma uint_string_digits (d : Decimal.uint) :
  Forall (fun c => Ascii.eqb c ":" = false)
         (list_ascii_of_string (NilEmpty.string_of_uint d)).
Proof.
  induction d; cbn; constructor; try reflexivity; assumption.
Qed.

Lemma take_field_whole (f : string) :
  Forall (fun c => Ascii.eqb c ":" = false) (list_ascii_of_string f) ->
  Display.take_field f = (f, EmptyString) /\
  forall r, Display.take_field (f ++ String ":" r) = (f, r).
Proof.
  induction f as [|c f IH]; cbn; intros H.
  - split; reflexivity.
  - inversion H as [|? ? Hc Hf]; subst. rewrite Hc.
    destruct (IH Hf) as [E1 E2]. split.
    + rewrite E1. reflexivity.
    + intros r. rewrite E2. reflexivity.
Qed.

Lemma toString_nonneg (z : Z) :
  0 <= z ->
  exists d, Display.toString z = NilEmpty.string_of_uint d /\
            Z.of_N (N.of_uint d) = z.
Proof.
  intros Hz. unfold Display.toString.
  pose proof (DecimalZ.of_to z) as R.
  destruct (Z.to_int z) as [d|d] eqn:E.
  - exists d. split; [reflexivity|]. exact R.
  - exfalso. destruct z as [|p|p]; cbn in E; try discriminate. lia.
Qed.

Lemma padStart2_field (z : Z) :
  0 <= z ->
  Forall (fun c => Ascii.eqb c ":" = false)
         (list_ascii_of_string (Display.padStart2 (Display.toString z))) /\
  Display.field_value (Display.padStart2 (Display.toString z)) = Some z.
Proof.
  intros Hz. destruct (toString_nonneg z Hz) as (d & -> & V).
  pose proof (uint_string_digits d) as Dg.
  pose proof (NilEmpty.usu d) as U.
  unfold Display.padStart2, Display.field_value.
  destruct (NilEmpty.string_of_uint d) as [|c [|c' r]] eqn:E.
  - cbn. split; [repeat constructor|].
    cbn in U. injection U as <-. cbn in V. rewrite <- V. reflexivity.
  - cbn [String.length]. split.
    + cbn. constructor; [reflexivity|exact Dg].
    + cbn [NilEmpty.uint_of_string] in *. rewrite U. cbn. rewrite <- V.
      reflexivity.
  - cbn [String.length]. split; [exact Dg|]. rewrite U. cbn. rewrite V.
    reflexivity.
Qed.

Lemma padStart2_length (z : Z) :
  0 <= z < 100 ->
  String.length (Display.padStart2 (Display.toString z)) = 2%nat.
Proof.
  intros Hz. replace z with (Z.of_nat (Z.to_nat z)) by lia.
  assert (Hk : (Z.to_nat z < 100)%nat) by lia.
  generalize dependent (Z.to_nat z). clear z Hz. intros k Hk.
  do 100 (destruct k as [|k]; [reflexivity|]). lia.
Qed.

Lemma string_length_app (a b : string) :
  String.length (a ++ b) = (String.length a + String.length b)%nat.
Proof. induction a as [|c a IH]; cbn; [reflexivity|]. rewrite IH. reflexivity. Qed.

Lemma read_clock_formatTime (s : Z) :
  0 <= s -> Display.read_clock (Display.formatTime s) = Some s.
Proof.
  intros Hs. unfold Display.formatTime, Display.read_clock. cbv zeta.
  rewrite !Z.rem_mod_nonneg by lia.
  pose proof (Z.div_mod s 3600 ltac:(lia)) as D1.
  pose proof (Z.mod_pos_bound s 3600 ltac:(lia)) as B1.
  pose proof (Z.div_mod (s mod 3600) 60 ltac:(lia)) as D2.
  pose proof (Z.mod_pos_bound (s mod 3600) 60 ltac:(lia)) as B2.
  assert (M : s mod 60 = (s mod 3600) mod 60).
  { rewrite D1 at 1. replace (3600 * (s / 3600) + s mod 3600)
      with (s mod 3600 + (60 * (s / 3600)) * 60) by ring.
    apply Z_mod_plus_full. }
  assert (Hh : 0 <= s / 3600) by (apply Z.div_pos; lia).
  assert (Hm : 0 <= s mod 3600 / 60) by (apply Z.div_pos; lia).
  assert (Hsec : 0 <= s mod 60) by (apply Z.mod_pos_bound; lia).
  destruct (padStart2_field _ Hh) as [F1 V1].
  destruct (padStart2_field _ Hm) as [F2 V2].
  destruct (padStart2_field _ Hsec) as [F3 V3].
  cbn [String.append].
  rewrite (proj2 (take_field_whole _ F1)).
  rewrite (proj2 (take_field_whole _ F2)).
  rewrite (proj1 (take_field_whole _ F3)).
  rewrite V1, V2, V3. f_equal. lia.
Qed.

(** The clock text of a non-negative number of seconds reads back as that
    number: hours, minutes below 60 and seconds below 60, each of at least
    two digits.  So two different durations never show the same text; and
    below a hundred hours the text has eight characters. *)
Theorem clock_text_reads_back (seconds : Z) :
  0 <= seconds ->
  Display.read_clock (Display.formatTime seconds) = Some seconds /\
  (forall other, 0 <= other ->
     Display.formatTime other = Display.formatTime seconds ->
     other = seconds) /\
  (seconds < 360000 -> String.length (Display.formatTime seconds) = 8%nat).
Proof.
  pose proof read_clock_formatTime as R.
  intros Hs. split; [apply R; exact Hs|]. split.
  - intros other Ho E. pose proof (R other Ho) as Ro. rewrite E, (R seconds Hs) in Ro.
    injection Ro as ->. reflexivity.
  - intros Hlt. unfold Display.formatTime. cbv zeta.
    rewrite !Z.rem_mod_nonneg by lia.
    pose proof (Z.mod_pos_bound seconds 3600 ltac:(lia)) as B1.
    pose proof (Z.mod_pos_bound seconds 60 ltac:(lia)) as B3.
    assert (Bh : 0 <= seconds / 3600 < 100)
      by (split; [apply Z.div_pos; lia|apply Z.div_lt_upper_bound; lia]).
    assert (Bm : 0 <= seconds mod 3600 / 60 < 100)
      by (split; [apply Z.div_pos; lia|apply Z.div_lt_upper_bound; lia]).
    assert (Bs : 0 <= seconds mod 60 < 100) by lia.
    rewrite !string_length_app. cbn [String.length].
    rewrite (padStart2_length _ Bh), (padStart2_length _ Bm),
      (padStart2_length _ Bs).
    reflexivity.
Qed.

Lemma clock_text_reads_back_witness :
  0 <= 3725 /\ Display.read_clock (Display.formatTime 3725) = Some 3725.
Proof.
  assert (H : 0 <= 3725) by lia.
  split; [exact H|].
  destruct (clock_text_reads_back 3725 H) as [E _]. exact E.
Defined.

(** ** Starting: the other failures *)

(** A start that fails for another reason than the unique index leaves
    the guard Idle and the table as it was, and says that the timer could
    not be started.  A rejection that names the unique index while the
    table holds no open row of the pair (the other timer was stopped in
    between) leaves the guard Idle as well. *)
Theorem start_failure_stays_idle (user taskId name : string) (now later : Z)
    (new_id : string) (e : Store.Error) (w : Timer.World) :
  Timer.Idle w ->
  let w' := Timer.handleStartTimer (Some user) taskId name now later new_id
              (Some e) w in
  Timer.db w' = Timer.db w /\
  Timer.loading (Timer.guard w') = false /\
  (Timer.is_unique_violation e = false ->
   Timer.Idle w' /\
   Timer.out w'
   = Timer.out w ++ [Timer.ConsoleError "Error starting timer:";
                     Timer.Alert "Failed to start timer."]) /\
  (Timer.is_unique_violation e = true ->
   filter (Store.open_for taskId user) (Timer.db w) = [] ->
   Timer.Idle w' /\ Timer.out w' = Timer.out w ++ [Timer.already_running]).
Proof.
  intros Hidle w'. subst w'. unfold Timer.Idle in *.
  unfold Timer.handleStartTimer, Timer.may_start. rewrite Hidle.
  unfold Timer.start_request, Timer.handleStartTimer_receive.
  destruct (Timer.is_unique_violation e) eqn:U.
  - unfold Timer.loadActiveTimer, Store.select_open.
    cbn [Timer.db Timer.signal Timer.setDb Timer.setLoading].
    destruct (filter (Store.open_for taskId user) (Timer.db w))
      as [|row [|row' rest]] eqn:F;
      cbn [Timer.db Timer.guard Timer.loading Timer.setLoading
           Timer.setElapsedSeconds Timer.setActiveTimer];
      (split; [reflexivity|]); (split; [reflexivity|]);
      (split; [discriminate|]); intros _ G; try discriminate.
    cbn [Timer.activeTimer Timer.out]. split; [exact Hidle|reflexivity].
  - cbn [Timer.db Timer.signal Timer.setDb Timer.setLoading Timer.guard
         Timer.loading].
    split; [reflexivity|]. split; [reflexivity|].
    split; [|discriminate]. intros _.
    cbn [Timer.activeTimer Timer.out Timer.guard Timer.signal Timer.setLoading
         Timer.setDb Timer.db].
    rewrite <- app_assoc.
    split; [exact Hidle|reflexivity].
Qed.

Lemma start_failure_stays_idle_witness :
  let w := Timer.mkWorld Timer.initial [] [] in
  Timer.Idle w /\
  Timer.db
    (Timer.handleStartTimer (Some "u"%string) "t" "Design" 1000 1000 "l1"
       (Some (Store.mkError "" "Failed to fetch")) w)
  = [].
Proof.
  intros w. assert (H : Timer.Idle w) by reflexivity.
  split; [exact H|].
  destruct (start_failure_stays_idle "u" "t" "Design" 1000 1000 "l1"
              (Store.mkError "" "Failed to fetch") w H) as [E _].
  exact E.
Defined.

(** ** Reading the open row *)

(** [loadActiveTimer] takes the open row of the pair when the store has
    exactly one, with its name and start time and the seconds elapsed
    since; in every other case it changes nothing.  It never clears the
    active timer: a guard that shows a timer keeps showing one, also when
    the store has no open row any more. *)
Theorem load_active_timer_only_adopts (user taskId : string) (now : Z)
    (w : Timer.World) :
  let w' := Timer.loadActiveTimer (Some user) taskId now w in
  Timer.db w' = Timer.db w /\ Timer.out w' = Timer.out w /\
  (forall row,
     filter (Store.open_for taskId user) (Timer.db w) = [row] ->
     Timer.Running user taskId
       (Timer.mkActive (SubtaskTimeLog.id row)
          (SubtaskTimeLog.subtask_name row) (SubtaskTimeLog.start_time row))
       w' /\
     1000 * Timer.elapsedSeconds (Timer.guard w')
       <= now - SubtaskTimeLog.start_time row
       < 1000 * Timer.elapsedSeconds (Timer.guard w') + 1000) /\
  ((forall row, filter (Store.open_for taskId user) (Timer.db w) <> [row]) ->
   w' = w) /\
  (Timer.activeTimer (Timer.guard w) <> None ->
   Timer.activeTimer (Timer.guard w') <> None).
Proof.
  cbv zeta. unfold Timer.loadActiveTimer, Store.select_open.
  destruct (filter (Store.open_for taskId user) (Timer.db w))
    as [|row [|row' rest]] eqn:F;
    cbn [Timer.db Timer.out Timer.guard Timer.setElapsedSeconds
         Timer.setActiveTimer Timer.activeTimer Timer.elapsedSeconds].
  - repeat split; try reflexivity; try discriminate; auto.
  - split; [reflexivity|]. split; [reflexivity|]. split; [|split].
    + intros r [= <-]. split.
      * split; [reflexivity|]. exists row. cbn [Timer.db Timer.id].
        split; [exact F|reflexivity].
      * unfold Timer.seconds_between.
        pose proof (Z.div_mod (now - SubtaskTimeLog.start_time row) 1000
                      ltac:(lia)).
        pose proof (Z.mod_pos_bound (now - SubtaskTimeLog.start_time row) 1000
                      ltac:(lia)).
        lia.
    + intros N. exfalso. exact (N row eq_refl).
    + discriminate.
  - repeat split; try reflexivity; try discriminate; auto.
Qed.

(** ** What starting and stopping write *)

Lemma start_db (user : option string) (taskId name : string) (now later : Z)
    (new_id : string) (fault : option Store.Error) (w : Timer.World) :
  Timer.db (Timer.handleStartTimer user taskId name now later new_id fault w)
  = Timer.db w \/
  exists u,
    user = Some u /\
    Timer.db (Timer.handleStartTimer user taskId name now later new_id fault w)
    = Timer.db w
      ++ [SubtaskTimeLog.mk new_id taskId u name now None None].
Proof.
  unfold Timer.handleStartTimer.
  destruct (Timer.may_start user w) as [u|] eqn:M; [|left; reflexivity].
  assert (Hu : user = Some u).
  { unfold Timer.may_start in M. destruct user as [u'|]; [|discriminate].
    destruct (Timer.activeTimer (Timer.guard w)); [discriminate|].
    injection M as ->. reflexivity. }
  assert (D : forall res d w0,
            Timer.db (Timer.handleStartTimer_receive user taskId name now
                        later res (Timer.setDb d w0)) = d).
  { intros res d w0. unfold Timer.handleStartTimer_receive.
    destruct res as [e|data]; [|reflexivity].
    destruct (Timer.is_unique_violation e); [|reflexivity].
    unfold Timer.loadActiveTimer. destruct user as [u'|]; [|reflexivity].
    cbn [Timer.db Timer.signal Timer.setDb].
    destruct (Store.select_open taskId u' d); reflexivity. }
  unfold Timer.start_request. destruct fault as [e|].
  - left. rewrite D. reflexivity.
  - unfold Store.insert. cbn [Timer.db Timer.setLoading].
    destruct (_ && _).
    + left. rewrite D. reflexivity.
    + right. exists u. split; [exact Hu|]. rewrite D. reflexivity.
Qed.

Lemma stop_db (user : option string) (taskId : string) (now later : Z)
    (fault logs_fault : option Store.Error) (w : Timer.World) :
  Timer.db (Timer.handleStopTimer user taskId now later fault logs_fault w)
  = Timer.db w \/
  exists a,
    Timer.activeTimer (Timer.guard w) = Some a /\ fault = None /\
    Timer.db (Timer.handleStopTimer user taskId now later fault logs_fault w)
    = Store.close (Timer.id a) now
        (Timer.seconds_between (Timer.startTime a) now) (Timer.db w).
Proof.
  unfold Timer.handleStopTimer.
  destruct (Timer.activeTimer (Timer.guard w)) as [a|]; [|left; reflexivity].
  destruct user as [u|]; [|left; reflexivity].
  destruct fault as [e|]; [left; reflexivity|].
  right. exists a. split; [reflexivity|]. split; [reflexivity|].
  cbv zeta. unfold Timer.loadActiveTimer, Timer.loadTimeLogs.
  destruct logs_fault;
    cbn [Timer.db Timer.setTimeLogs Timer.setElapsedSeconds
         Timer.setActiveTimer Timer.setDb Timer.setLoading Timer.signal];
    destruct (Store.select_open _ _ _); reflexivity.
Qed.

Lemma close_keeps_unique (i : string) (e dur : Z) (d : Store.t) :
  Timer.unique_open d -> Timer.unique_open (Store.close i e dur d).
Proof.
  intros U task user. specialize (U task user).
  rewrite close_not_open.
  assert (L : forall l,
            (length (filter (fun x => Store.open_for task user x
                       && negb (String.eqb (SubtaskTimeLog.id x) i)) l)
             <= length (filter (Store.open_for task user) l))%nat).
  { induction l as [|x l IH]; [apply le_n|]. cbn [filter].
    destruct (Store.open_for task user x); cbn [andb].
    - destruct (negb _); cbn [length]; lia.
    - exact IH. }
  specialize (L d). lia.
Qed.

(** Whatever the sessions of whatever users do, in whatever state their
    guards are, the table never holds two open rows of one (task, user)
    pair, and a row that is open has no duration. *)
Theorem table_invariants (d : Store.t) :
  reachable_db d -> Timer.unique_open d /\ open_rows_have_no_duration d.
Proof.
  induction 1 as [|g o d op Hreach [U S]].
  - split; [exact unique_open_nil|]. intros l [].
  - destruct op as [user taskId name now later new_id fault
                   |user taskId now later fault logs_fault]; cbn [apply_op].
    + split.
      * apply start_keeps_unique. exact U.
      * destruct (start_db user taskId name now later new_id fault
                    (Timer.mkWorld g d o)) as [->|(u & _ & ->)];
          cbn [Timer.db]; [exact S|].
        intros l Hl Ho. apply in_app_iff in Hl as [Hl|[<-|[]]];
          [exact (S l Hl Ho)|reflexivity].
    + destruct (stop_db user taskId now later fault logs_fault
                  (Timer.mkWorld g d o))
        as [->|(a & _ & _ & ->)]; cbn [Timer.db]; [split; assumption|].
      split; [apply close_keeps_unique; exact U|apply close_keeps_shape; exact S].
Qed.

Lemma table_invariants_witness :
  let d :=
    Timer.db
      (apply_op (OpStart (Some "u"%string) "t" "Design" 1000 1000 "l1" None)
         (Timer.mkWorld Timer.initial [] [])) in
  reachable_db d /\ Timer.unique_open d.
Proof.
  intros d.
  assert (H : reachable_db d) by (apply reach_step; apply reach_empty).
  split; [exact H|].
  destruct (table_invariants d H) as [U _]. exact U.
Defined.

(** A start writes at most one row, at the end of the table, open and
    with the name and the start time of the call; a stop writes to the
    rows of the tracked id only, and only their [end_time] and
    [duration_seconds].  A stop does not ask whether the row is still
    open: a row of the tracked id that another session closed gets the
    end time and the duration of this stop. *)
Theorem timer_writes_are_local (user : option string) (taskId name : string)
    (now later : Z) (new_id : string) (fault logs_fault : option Store.Error)
    (w : Timer.World) :
  (let w' := Timer.handleStartTimer user taskId name now later new_id fault w in
   Timer.db w' = Timer.db w \/
   exists u, user = Some u /\
     Timer.db w'
     = Timer.db w ++ [SubtaskTimeLog.mk new_id taskId u name now None None]) /\
  (let w' := Timer.handleStopTimer user taskId now later fault logs_fault w in
   length (Timer.db w') = length (Timer.db w) /\
   forall i row, nth_error (Timer.db w) i = Some row ->
     nth_error (Timer.db w') i = Some row \/
     exists a,
       Timer.activeTimer (Timer.guard w) = Some a /\
       SubtaskTimeLog.id row = Timer.id a /\
       nth_error (Timer.db w') i
       = Some (closed_at now
                 (Timer.seconds_between (Timer.startTime a) now) row)).
Proof.
  split; [apply start_db|]. cbv zeta.
  destruct (stop_db user taskId now later fault logs_fault w)
    as [->|(a & Ha & _ & ->)].
  - split; [reflexivity|]. intros i row Hi. left. exact Hi.
  - unfold Store.close. rewrite length_map. split; [reflexivity|].
    intros i row Hi. rewrite nth_error_map, Hi. cbn [option_map].
    destruct (String.eqb_spec (SubtaskTimeLog.id row) (Timer.id a)) as [E|_].
    + right. exists a. repeat split; auto.
    + left. reflexivity.
Qed.

(** ** Stopping books the session *)

Lemma list_sum_Z_app (l1 l2 : list Z) :
  list_sum_Z (l1 ++ l2) = list_sum_Z l1 + list_sum_Z l2.
Proof.
  unfold list_sum_Z. induction l1 as [|x l1 IH]; cbn [app fold_right]; lia.
Qed.

Lemma list_sum_Z_rev (l : list Z) : list_sum_Z (rev l) = list_sum_Z l.
Proof.
  induction l as [|x l IH]; [reflexivity|].
  cbn [rev]. rewrite list_sum_Z_app, IH. unfold list_sum_Z. cbn [fold_right].
  lia.
Qed.

(** The total of a name over the rows of a task, read off the table. *)
Lemma total_of_select_logs (taskId name : string) (d : Store.t) :
  total_of (Store.select_logs taskId d) name
  = list_sum_Z
      (map (fun l =>
              if String.eqb (SubtaskTimeLog.task_id l) taskId
                 && (String.eqb (SubtaskTimeLog.subtask_name l) name
                     && Timer.has_duration l)
              then Timer.duration_or_zero l else 0)
           d).
Proof.
  unfold total_of, Timer.getTotalTimeForSubtask, Store.select_logs.
  cbn [Timer.timeLogs]. rewrite fold_left_sum, Z.add_0_l.
  rewrite filter_rev, map_rev, list_sum_Z_rev.
  induction d as [|x d IH]; [reflexivity|].
  cbn [filter map].
  destruct (String.eqb (SubtaskTimeLog.task_id x) taskId); cbn [andb filter].
  - destruct (_ && _); cbn [map]; unfold list_sum_Z in *; cbn [fold_right];
      rewrite IH; reflexivity.
  - unfold list_sum_Z in *. cbn [fold_right]. rewrite IH. reflexivity.
Qed.

Lemma close_absent (i : string) (e dur : Z) (d : Store.t) :
  ~ In i (map SubtaskTimeLog.id d) -> Store.close i e dur d = d.
Proof.
  unfold Store.close. induction d as [|x d IH]; [reflexivity|].
  cbn [map]. intros N.
  destruct (String.eqb_spec (SubtaskTimeLog.id x) i) as [E|_].
  - exfalso. apply N. left. exact E.
  - rewrite IH; [reflexivity|]. intros F. apply N. right. exact F.
Qed.

Lemma close_books (taskId name : string) (i : string) (e dur : Z)
    (row : SubtaskTimeLog.t) (d : Store.t) :
  NoDup (map SubtaskTimeLog.id d) ->
  In row d -> SubtaskTimeLog.id row = i ->
  SubtaskTimeLog.task_id row = taskId ->
  SubtaskTimeLog.duration_seconds row = None ->
  total_of (Store.select_logs taskId (Store.close i e dur d)) name
  = total_of (Store.select_logs taskId d) name
    + (if String.eqb (SubtaskTimeLog.subtask_name row) name then dur else 0).
Proof.
  intros Hnd Hin Hid Htask Hdur. rewrite !total_of_select_logs.
  induction d as [|x d IH]; [destruct Hin|].
  cbn [map] in Hnd. apply NoDup_cons_iff in Hnd as [Hx Hnd].
  destruct (String.eqb_spec (SubtaskTimeLog.id x) i) as [E|NE].
  - assert (x = row).
    { destruct Hin as [Hin|Hin]; [exact Hin|].
      exfalso. apply Hx. rewrite E, <- Hid. apply in_map. exact Hin. }
    subst x.
    assert (C : Store.close i e dur (row :: d)
                = closed_at e dur row :: d).
    { pose proof (close_absent i e dur d) as A. unfold Store.close in A |- *.
      cbn [map]. rewrite A by (rewrite <- Hid; exact Hx).
      destruct (String.eqb_spec (SubtaskTimeLog.id row) i); [|contradiction].
      reflexivity. }
    rewrite C. cbn [map]. unfold list_sum_Z. cbn [fold_right].
    unfold closed_at at 1 2 3 4.
    unfold Timer.has_duration, Timer.duration_or_zero.
    cbn [SubtaskTimeLog.task_id SubtaskTimeLog.subtask_name
         SubtaskTimeLog.duration_seconds].
    rewrite Hdur, Htask, String.eqb_refl, !andb_false_r. cbn [andb].
    destruct (String.eqb (SubtaskTimeLog.subtask_name row) name); cbn [andb].
    + destruct (Z.eqb_spec dur 0) as [->|_]; cbn [negb]; lia.
    + lia.
  - assert (Hin' : In row d).
    { destruct Hin as [->|Hin]; [contradiction|exact Hin]. }
    assert (C : Store.close i e dur (x :: d) = x :: Store.close i e dur d).
    { unfold Store.close. cbn [map].
      destruct (String.eqb_spec (SubtaskTimeLog.id x) i); [contradiction|].
      reflexivity. }
    rewrite C. cbn [map]. unfold list_sum_Z in *. cbn [fold_right].
    rewrite (IH Hnd Hin'). lia.
Qed.

(** When the ids of the table are distinct and its open rows have no
    duration, an accepted stop from Running adds [now - start_time], in
    whole seconds, to the total that the table holds for the name of the
    tracked row, and leaves the total of every other name as it was.
    These are the seconds that a tick less than a second before the stop
    showed, or one more.  The component shows the totals of the table
    when the reload of the logs succeeds; when the reload fails it keeps
    the rows it had, and so the totals it showed before. *)
Theorem stop_books_the_session (user taskId : string) (a : Timer.ActiveTimer)
    (now later : Z) (logs_fault : option Store.Error) (w : Timer.World) :
  Timer.Running user taskId a w ->
  NoDup (map SubtaskTimeLog.id (Timer.db w)) ->
  open_rows_have_no_duration (Timer.db w) ->
  let w' := Timer.handleStopTimer (Some user) taskId now later None
              logs_fault w in
  let booked := (now - Timer.startTime a) / 1000 in
  (exists row,
     filter (Store.open_for taskId user) (Timer.db w) = [row] /\
     forall name,
       total_of (Store.select_logs taskId (Timer.db w')) name
       = total_of (Store.select_logs taskId (Timer.db w)) name
         + (if String.eqb (SubtaskTimeLog.subtask_name row) name
            then booked else 0)) /\
  (forall shown,
     shown <= now < shown + 1000 ->
     let seen := Timer.elapsedSeconds (Timer.guard (Display.tick shown w)) in
     seen <= booked <= seen + 1) /\
  (logs_fault = None ->
   forall name,
     Timer.displayed_seconds (Timer.guard w') name
     = total_of (Store.select_logs taskId (Timer.db w')) name) /\
  (logs_fault <> None ->
   Timer.timeLogs (Timer.guard w') = Timer.timeLogs (Timer.guard w) /\
   forall name,
     Timer.displayed_seconds (Timer.guard w') name
     = Timer.getTotalTimeForSubtask (Timer.guard w) name).
Proof.
  intros Hrun Hnd Hshape w' booked. subst w'.
  rewrite (stop_success user taskId a now later logs_fault w Hrun). cbv zeta.
  destruct Hrun as [Hact (row & Hone & Hid)].
  assert (Hin : In row (filter (Store.open_for taskId user) (Timer.db w)))
    by (rewrite Hone; left; reflexivity).
  apply filter_In in Hin as [Hin Hopen].
  unfold Store.open_for in Hopen.
  apply andb_true_iff in Hopen as [Hopen Ho].
  apply andb_true_iff in Hopen as [Ht _].
  apply String.eqb_eq in Ht.
  assert (B : forall name,
            total_of
              (Store.select_logs taskId
                 (Store.close (Timer.id a) now
                    (Timer.seconds_between (Timer.startTime a) now)
                    (Timer.db w))) name
            = total_of (Store.select_logs taskId (Timer.db w)) name
              + (if String.eqb (SubtaskTimeLog.subtask_name row) name
                 then booked else 0)).
  { intros name.
    apply (close_books taskId name (Timer.id a) now _ row); auto. }
  split; [|split; [|split]].
  - exists row. split; [exact Hone|]. intros name.
    destruct logs_fault; cbn [Timer.db]; apply B.
  - intros shown Hs. unfold Display.tick. rewrite Hact.
    cbn [Timer.guard Timer.setElapsedSeconds Timer.elapsedSeconds].
    unfold Timer.seconds_between, booked.
    pose proof (Z.div_le_mono (shown - Timer.startTime a)
                  (now - Timer.startTime a) 1000 ltac:(lia) ltac:(lia)) as L.
    pose proof (Z.div_le_mono (now - Timer.startTime a)
                  (shown - Timer.startTime a + 1 * 1000) 1000
                  ltac:(lia) ltac:(lia)) as U.
    rewrite Z.div_add in U by lia. lia.
  - intros -> name. cbn [Timer.guard Timer.db].
    unfold Timer.displayed_seconds, Timer.isActive. cbn [Timer.activeTimer].
    reflexivity.
  - intros Hf. destruct logs_fault as [e|]; [|contradiction].
    cbn [Timer.guard Timer.timeLogs]. split; [reflexivity|]. intros name.
    unfold Timer.displayed_seconds, Timer.isActive. cbn [Timer.activeTimer].
    reflexivity.
Qed.

Lemma stop_books_the_session_witness :
  let row := SubtaskTimeLog.mk "l1" "t" "u" "Design" 1000 None None in
  let w :=
    Timer.mkWorld
      (Timer.mkState (Some (Timer.mkActive "l1" "Design" 1000)) 0 [] false)
      [row] [] in
  let w' :=
    Timer.handleStopTimer (Some "u"%string) "t" 66000 66000 None None w in
  Timer.Running "u" "t" (Timer.mkActive "l1" "Design" 1000) w /\
  NoDup (map SubtaskTimeLog.id (Timer.db w)) /\
  open_rows_have_no_duration (Timer.db w) /\
  Timer.elapsedSeconds (Timer.guard (Display.tick 65999 w)) = 64 /\
  Timer.displayed_seconds (Timer.guard w') "Design" = 65.
Proof.
  intros row w w'.
  assert (R : Timer.Running "u" "t" (Timer.mkActive "l1" "Design" 1000) w).
  { split; [reflexivity|]. exists row. split; reflexivity. }
  assert (N : NoDup (map SubtaskTimeLog.id (Timer.db w))).
  { cbn. constructor; [intros []|constructor]. }
  assert (S : open_rows_have_no_duration (Timer.db w)).
  { intros l [<-|[]] _. reflexivity. }
  split; [exact R|]. split; [exact N|]. split; [exact S|].
  split; [reflexivity|].
  destruct (stop_books_the_session "u" "t" (Timer.mkActive "l1" "Design" 1000)
              66000 66000 None w R N S)
    as ((r & Hr & Bk) & _ & Sh & _).
  unfold w'. rewrite (Sh eq_refl "Design"%string), (Bk "Design"%string).
  injection Hr as <-. reflexivity.
Defined.

(** ** The colour of the status selector *)

Lemma lower_folds (c x : ascii) :
  let n := N_of_ascii c in
  ((97 <=? n) && (n <=? 122))%N = true ->
  Ascii.eqb c (lower x) = true -> Regex.chr_eq c x = true.
Proof.
  intros n Hn E. apply Ascii.eqb_eq in E. subst c n.
  destruct x as [[] [] [] [] [] [] [] []]; vm_compute in Hn |- *;
    first [reflexivity|discriminate].
Qed.

Lemma includes_at_match (w s : list ascii) :
  lower_word w ->
  Timer.includes_at w (map lower s) = true ->
  Regex.match_here (map Regex.Chr w) s = true.
Proof.
  intros Hw. revert s. induction Hw as [|c w Hc Hw IH]; intros s H;
    [reflexivity|].
  destruct s as [|x s]; [discriminate|].
  cbn [map Timer.includes_at Regex.match_here] in *.
  apply andb_true_iff in H as [E H].
  rewrite (lower_folds c x Hc E), (IH s H). reflexivity.
Qed.

Lemma includes_search (re : Regex.t) (word label : string) :
  lower_word (list_ascii_of_string word) ->
  In (Regex.lit word) re ->
  Timer.includes (toLowerCase label) word = true ->
  Regex.test re label = true.
Proof.
  intros Hw Hin. unfold Timer.includes, toLowerCase, Regex.test.
  rewrite list_ascii_of_string_of_list_ascii.
  induction (list_ascii_of_string label) as [|x s IH];
    cbn [map Timer.includes_list Regex.search]; intros H.
  - rewrite orb_false_r in H |- *. apply existsb_exists.
    exists (Regex.lit word). split; [exact Hin|].
    apply (includes_at_match _ [] Hw H).
  - apply orb_true_iff in H as [H|H]; apply orb_true_iff.
    + left. apply existsb_exists. exists (Regex.lit word).
      split; [exact Hin|]. apply (includes_at_match _ (x :: s) Hw H).
    + right. exact (IH H).
Qed.

(** The selector is coloured by the label of the task's current status,
    and its colours follow the classes of the inference: a green status
    is one that the all-completed rule looks for, a blue status is one
    that the partly-completed rule looks for, and a task whose status is
    not in the list gets the default colour. *)
Theorem colour_follows_inference_classes (sts : list Status.t) (task : Task.t) :
  (status_colour sts task = Green ->
   exists current,
     find (fun s => strict_eq (Status.id s) (Task.status_id task)) sts
     = Some current /\
     Regex.test done_re (Status.label current) = true) /\
  (status_colour sts task = Blue ->
   exists current,
     find (fun s => strict_eq (Status.id s) (Task.status_id task)) sts
     = Some current /\
     Regex.test in_progress_re (Status.label current) = true) /\
  (find (fun s => strict_eq (Status.id s) (Task.status_id task)) sts = None ->
   status_colour sts task = Default).
Proof.
  unfold status_colour.
  destruct (find _ sts) as [current|].
  - assert (W : forall word, lower_word (list_ascii_of_string word) ->
              forall re, In (Regex.lit word) re ->
              Timer.includes (toLowerCase (Status.label current)) word = true ->
              Regex.test re (Status.label current) = true)
      by (intros word Hw re Hin; apply includes_search; assumption).
    assert (L : forall word,
              forallb (fun c => ((97 <=? N_of_ascii c)
                                 && (N_of_ascii c <=? 122))%N)
                      (list_ascii_of_string word) = true ->
              lower_word (list_ascii_of_string word)).
    { intros word H. apply Forall_forall. intros c Hc.
      exact (proj1 (forallb_forall _ _) H c Hc). }
    destruct (Timer.includes _ "done") eqn:D1.
    { split; [|split]; [|discriminate|discriminate]. intros _.
      exists current. split; [reflexivity|].
      apply (W "done"%string); [apply L; reflexivity| |exact D1].
      cbn. auto. }
    destruct (Timer.includes _ "complete") eqn:D2.
    { split; [|split]; [|discriminate|discriminate]. intros _.
      exists current. split; [reflexivity|].
      apply (W "complete"%string); [apply L; reflexivity| |exact D2].
      cbn. auto. }
    destruct (Timer.includes _ "finish") eqn:D3.
    { split; [|split]; [|discriminate|discriminate]. intros _.
      exists current. split; [reflexivity|].
      apply (W "finish"%string); [apply L; reflexivity| |exact D3].
      cbn. auto 6. }
    cbn [orb].
    destruct (Timer.includes _ "progress") eqn:B1.
    { split; [|split]; [discriminate| |discriminate]. intros _.
      exists current. split; [reflexivity|].
      apply (W "progress"%string); [apply L; reflexivity| |exact B1].
      cbn. auto. }
    destruct (Timer.includes _ "review") eqn:B2.
    { split; [|split]; [discriminate| |discriminate]. intros _.
      exists current. split; [reflexivity|].
      apply (W "review"%string); [apply L; reflexivity| |exact B2].
      cbn. auto. }
    cbn [orb]. split; [|split]; discriminate.
  - split; [|split]; [vm_compute; discriminate..|reflexivity].
Qed.

(** ** The migration script *)

Module Migrate_facts.
Import Migrate.

Lemma strip_no_lt (in_tag : bool) (s : list ascii) :
  Forall (fun x => Ascii.eqb x lt = false) (strip in_tag s).
Proof.
  revert in_tag. induction s as [|x s IH]; intros in_tag; [constructor|].
  cbn [strip]. destruct in_tag; [apply IH|].
  destruct (Ascii.eqb x lt) eqn:E; [apply IH|].
  constructor; [exact E|apply IH].
Qed.

Lemma strip_plain (s : list ascii) :
  Forall (fun x => Ascii.eqb x lt = false) s -> strip false s = s.
Proof.
  induction 1 as [|x s Hx _ IH]; [reflexivity|].
  cbn [strip]. rewrite Hx, IH. reflexivity.
Qed.

Lemma trim_list_keeps (P : ascii -> Prop) (s : list ascii) :
  Forall P s -> Forall P (Editor.trim_list s).
Proof.
  intros H. unfold Editor.trim_list.
  destruct (trim_start_suffix s) as (p & Es & _).
  destruct (trim_end_prefix (Editor.trim_start s)) as (q & Eq & _).
  rewrite Es in H. apply Forall_app in H as [_ H].
  rewrite Eq in H. apply Forall_app in H as [H _]. exact H.
Qed.

Lemma greedy_shrinks (k : list ascii -> option result) :
  shrinks k -> shrinks (greedy k).
Proof.
  intros Hk s. induction s as [|x s IH]; intros r; cbn [greedy].
  - apply Hk.
  - destruct (Ascii.eqb x gt); [apply Hk|].
    destruct (greedy k s) as [r'|] eqn:G.
    + intros [= <-]. specialize (IH r' eq_refl). cbn [length]. lia.
    + apply Hk.
Qed.

Lemma lazy_shrinks (k : list ascii -> list ascii -> option result) :
  (forall got, shrinks (fun s => k s got)) ->
  forall acc, shrinks (lazy k acc).
Proof.
  intros Hk acc s. revert acc. induction s as [|x s IH]; intros acc r;
    cbn [lazy].
  - destruct (k [] (rev acc)) as [r'|] eqn:K; [|discriminate].
    intros [= <-]. exact (Hk _ _ _ K).
  - destruct (k (x :: s) (rev acc)) as [r'|] eqn:K.
    + intros [= <-]. exact (Hk _ _ _ K).
    + destruct (is_line_terminator x); [discriminate|].
      intros H. specialize (IH _ _ H). cbn [length]. lia.
Qed.

Lemma starts_with_shrinks (p s s' : list ascii) :
  starts_with p s = Some s' -> (length s' <= length s)%nat.
Proof.
  unfold starts_with. revert s. induction p as [|a p IH]; intros s.
  - intros [= <-]. apply le_n.
  - destruct s as [|x s]; [discriminate|].
    destruct (Ascii.eqb a x); [|discriminate].
    intros H. specialize (IH _ H). cbn [length]. lia.
Qed.

Lemma run_shrinks (p : list node) (checked : bool) (inner : list ascii) :
  shrinks (fun s => run p s checked inner).
Proof.
  revert checked inner. induction p as [|n p IH]; intros checked inner s r.
  - cbn [run]. intros [= <-]. apply le_n.
  - destruct n; cbn [run].
    + destruct s as [|x s]; [discriminate|].
      destruct (Ascii.eqb c x); [|discriminate].
      intros H. pose proof (IH _ _ _ _ H). cbn [length]. lia.
    + apply (greedy_shrinks (fun s' => run p s' checked inner)). apply IH.
    + destruct (starts_with (list_ascii_of_string "true") s) as [s1|] eqn:T.
      * destruct (run p s1 true inner) as [r1|] eqn:R1.
        -- intros [= <-]. pose proof (IH _ _ _ _ R1).
           pose proof (starts_with_shrinks _ _ _ T). lia.
        -- destruct (starts_with (list_ascii_of_string "false") s)
             as [s2|] eqn:F; [|discriminate].
           intros H. pose proof (IH _ _ _ _ H).
           pose proof (starts_with_shrinks _ _ _ F). lia.
      * destruct (starts_with (list_ascii_of_string "false") s)
          as [s2|] eqn:F; [|discriminate].
        intros H. pose proof (IH _ _ _ _ H).
        pose proof (starts_with_shrinks _ _ _ F). lia.
    + apply (lazy_shrinks (fun s' got => run p s' checked got)).
      intros got. apply IH.
Qed.

(** A match is not empty. *)
Lemma exec_consumes (s : list ascii) (r : result) :
  exec s = Some r -> (length (snd r) < length s)%nat.
Proof.
  induction s as [|x s IH].
  - cbn. discriminate.
  - cbn [exec]. destruct (run pattern (x :: s) false []) as [r'|] eqn:R.
    + intros [= <-]. change pattern with (Lit "<" :: tl pattern) in R.
      cbn [run] in R. destruct (Ascii.eqb "<" x); [|discriminate].
      pose proof (run_shrinks _ _ _ _ _ R). cbn [length]. lia.
    + intros H. specialize (IH H). cbn [length]. lia.
Qed.

Lemma exec_without_lt (s : list ascii) :
  Forall (fun x => Ascii.eqb x lt = false) s -> exec s = None.
Proof.
  induction 1 as [|x s Hx _ IH]; [reflexivity|].
  cbn [exec]. change pattern with (Lit "<" :: tl pattern). cbn [run].
  assert (E : Ascii.eqb "<" x = false) by (rewrite Ascii.eqb_sym; exact Hx).
  rewrite E. exact IH.
Qed.

(** The rounds of the length of the input are enough. *)
Lemma collect_fuel (uuid : nat -> string) (n m k : nat) (s : list ascii) :
  (length s <= n)%nat -> (length s <= m)%nat ->
  collect n uuid k s = collect m uuid k s.
Proof.
  revert m k s. induction n as [|n IH]; intros m k s Hn Hm.
  - destruct s; [|cbn in Hn; lia]. destruct m; reflexivity.
  - destruct m as [|m].
    + destruct s; [reflexivity|cbn in Hm; lia].
    + cbn [collect]. destruct (exec s) as [[[c i] rest]|] eqn:E;
        [|reflexivity].
      pose proof (exec_consumes _ _ E) as L. cbn [snd] in L.
      rewrite (IH m k rest), (IH m (S k) rest) by lia. reflexivity.
Qed.

Lemma collect_clean (uuid : nat -> string) (n k : nat) (s : list ascii) :
  Forall clean_text (collect n uuid k s).
Proof.
  revert k s. induction n as [|n IH]; intros k s; [constructor|].
  cbn [collect]. destruct (exec s) as [[[c i] rest]|]; [|constructor].
  destruct (clean i) as [|x t] eqn:C; [apply IH|].
  constructor; [|apply IH]. unfold clean_text. cbn [text].
  split; [discriminate|]. unfold Editor.trim.
  rewrite list_ascii_of_string_of_list_ascii, <- C. split.
  - unfold clean. apply trim_list_keeps. apply strip_no_lt.
  - unfold clean. rewrite trim_list_idem. reflexivity.
Qed.

Lemma collect_ids (uuid : nat -> string) (n k : nat) (s : list ascii) :
  map id (collect n uuid k s)
  = map uuid (seq k (length (collect n uuid k s))).
Proof.
  revert k s. induction n as [|n IH]; intros k s; [reflexivity|].
  cbn [collect]. destruct (exec s) as [[[c i] rest]|]; [|reflexivity].
  destruct (clean i) as [|x t]; [apply IH|].
  cbn [map length seq id]. rewrite IH. reflexivity.
Qed.

Lemma length_list_ascii (s : string) :
  length (list_ascii_of_string s) = String.length s.
Proof. induction s as [|c s IH]; cbn; [reflexivity|]. rewrite IH. reflexivity. Qed.

(** The closing tag ends the text at its first occurrence. *)
Lemma lazy_finds (c : bool) (text rest acc : list ascii) :
  Forall (fun x => Ascii.eqb x lt = false /\ is_line_terminator x = false)
         text ->
  lazy (fun s' got => run (lits "</li>") s' c got) acc
       (text ++ list_ascii_of_string "</li>" ++ rest)
  = Some (c, rev acc ++ text, rest).
Proof.
  intros H. revert acc. induction H as [|x t [Hx Hl] _ IH]; intros acc.
  - rewrite app_nil_r. cbn [app]. destruct rest; reflexivity.
  - cbn [app lazy]. change (lits "</li>") with (Lit "<" :: tl (lits "</li>")).
    assert (E : Ascii.eqb "<" x = false) by (rewrite Ascii.eqb_sym; exact Hx).
    cbn [run]. rewrite E, Hl.
    change (Lit "<" :: tl (lits "</li>")) with (lits "</li>").
    rewrite IH. cbn [rev]. rewrite <- app_assoc. reflexivity.
Qed.

Lemma run_render_item (c : bool) (text rest : list ascii) :
  Forall (fun x => Ascii.eqb x lt = false /\ is_line_terminator x = false)
         text ->
  run pattern (render_item c text ++ rest) false [] = Some (c, text, rest).
Proof.
  intros H. unfold render_item.
  destruct c;
    match goal with
    | |- _ = Some (?b, _, _) =>
        pose proof (lazy_finds b text rest [] H) as K
    end;
    cbn [rev app] in K;
    repeat (rewrite <- ?app_assoc; cbn [app list_ascii_of_string]);
    cbn;
    match goal with
    | |- context [lazy ?k ?a ?s] =>
        match type of K with
        | _ = ?v => replace (lazy k a s) with v by (symmetry; exact K)
        end
    end; reflexivity.
Qed.

End Migrate_facts.

(** Every subtask the script writes has a text that is not empty, holds
    no [<] and is trimmed; the ids are the values of [randomUUID] in the
    order of the calls, one per subtask written.  The loop ends within as
    many rounds as the content has characters, so more rounds find
    nothing more; and a content without [<] yields no subtask, so that
    the task is not updated. *)
Theorem migrated_subtasks_are_clean (uuid : nat -> string) (html : string) :
  let subtasks := Migrate.parse_subtasks uuid html in
  Forall Migrate.clean_text subtasks /\
  map Migrate.id subtasks = map uuid (seq 0 (length subtasks)) /\
  (forall more,
     Migrate.collect (String.length html + more) uuid 0
       (list_ascii_of_string html) = subtasks) /\
  (Forall (fun x => Ascii.eqb x Migrate.lt = false) (list_ascii_of_string html) ->
   Migrate.migrate_task uuid html = None).
Proof.
  cbv zeta. unfold Migrate.parse_subtasks. split; [|split; [|split]].
  - apply Migrate_facts.collect_clean.
  - apply Migrate_facts.collect_ids.
  - intros more. apply Migrate_facts.collect_fuel;
      rewrite Migrate_facts.length_list_ascii; lia.
  - intros H. unfold Migrate.migrate_task, Migrate.parse_subtasks.
    destruct html as [|c html]; [reflexivity|].
    cbn [String.length Migrate.collect].
    rewrite (Migrate_facts.exec_without_lt _ H). reflexivity.
Qed.

Lemma collect_render (uuid : nat -> string) (n k : nat)
    (items : list (bool * list ascii)) :
  Forall (fun it => Migrate.plain (snd it)) items ->
  (length items <= n)%nat ->
  Migrate.collect n uuid k (Migrate.render items)
  = Migrate.imported uuid k items.
Proof.
  intros H. revert n k. induction H as [|[c t] items Hp _ IH]; intros n k Hn.
  - destruct n; reflexivity.
  - destruct n as [|n]; [cbn in Hn; lia|].
    cbn [length] in Hn. cbn [snd] in Hp. destruct Hp as (Hne & Hall & Htrim).
    unfold Migrate.render. cbn [flat_map fst snd Migrate.collect].
    fold (Migrate.render items).
    assert (E : Migrate.exec (Migrate.render_item c t ++ Migrate.render items)
                = Some (c, t, Migrate.render items)).
    { assert (R := Migrate_facts.run_render_item c t (Migrate.render items)
                     Hall).
      destruct (Migrate.render_item c t ++ Migrate.render items);
        cbn [Migrate.exec]; rewrite R; reflexivity. }
    rewrite E. unfold Migrate.clean.
    rewrite Migrate_facts.strip_plain
      by (eapply Forall_impl; [|exact Hall]; intros a [Ha _]; exact Ha).
    rewrite Htrim. destruct t as [|x t]; [contradiction|].
    cbn [Migrate.imported fst snd]. rewrite IH by lia. reflexivity.
Qed.

Lemma render_length (items : list (bool * list ascii)) :
  (length items <= length (Migrate.render items))%nat.
Proof.
  induction items as [|[c t] items IH]; [apply le_n|].
  unfold Migrate.render. cbn [flat_map length]. fold (Migrate.render items).
  rewrite length_app. unfold Migrate.render_item.
  cbn [app length fst snd list_ascii_of_string]. lia.
Qed.

(** A list of task items as the legacy editor stored them, each with a
    text that is not empty, holds no [<] and no line break and has no
    blank at either end, comes back whole: one subtask per item, in the
    order of the items, with the text and the check mark of the item; so
    the task is updated whenever there is an item. *)
Theorem legacy_items_come_back (uuid : nat -> string)
    (items : list (bool * list ascii)) :
  Forall (fun it => Migrate.plain (snd it)) items ->
  let html := string_of_list_ascii (Migrate.render items) in
  Migrate.parse_subtasks uuid html = Migrate.imported uuid 0 items /\
  map Migrate.completed (Migrate.parse_subtasks uuid html) = map fst items /\
  map Migrate.text (Migrate.parse_subtasks uuid html)
  = map (fun it => string_of_list_ascii (snd it)) items /\
  (items <> [] -> Migrate.migrate_task uuid html <> None).
Proof.
  intros H html.
  assert (E : Migrate.parse_subtasks uuid html = Migrate.imported uuid 0 items).
  { unfold Migrate.parse_subtasks, html.
    rewrite list_ascii_of_string_of_list_ascii.
    apply collect_render; [exact H|].
    rewrite <- Migrate_facts.length_list_ascii,
      list_ascii_of_string_of_list_ascii.
    apply render_length. }
  assert (G : forall k,
            map Migrate.completed (Migrate.imported uuid k items)
            = map fst items /\
            map Migrate.text (Migrate.imported uuid k items)
            = map (fun it => string_of_list_ascii (snd it)) items).
  { clear. induction items as [|it items IH]; intros k; [split; reflexivity|].
    destruct (IH (S k)) as [A B]. cbn [Migrate.imported map].
    rewrite A, B. split; reflexivity. }
  split; [exact E|]. rewrite E. destruct (G 0%nat) as [A B].
  split; [exact A|]. split; [exact B|].
  intros Hne. unfold Migrate.migrate_task. rewrite E.
  destruct items as [|it items]; [contradiction|].
  cbn [Migrate.imported]. discriminate.
Qed.

Lemma legacy_items_come_back_witness :
  let items := [(true, list_ascii_of_string "Buy milk");
                (false, list_ascii_of_string "Call Ana")] in
  Forall (fun it => Migrate.plain (snd it)) items /\
  map Migrate.text
    (Migrate.parse_subtasks (fun _ => "id"%string)
       (string_of_list_ascii (Migrate.render items)))
  = ["Buy milk"%string; "Call Ana"%string].
Proof.
  intros items.
  assert (H : Forall (fun it => Migrate.plain (snd it)) items).
  { repeat constructor; try discriminate. }
  split; [exact H|].
  destruct (legacy_items_come_back (fun _ => "id"%string) items H)
    as (_ & _ & E & _).
  exact E.
Defined.

(** ** The time column *)

Lemma closed_total_nonneg (logs : list SubtaskTimeLog.t) (name : string) :
  (forall l, In l logs -> 0 <= Timer.duration_or_zero l) ->
  0 <= Timer.closed_total logs name.
Proof.
  unfold Timer.closed_total. induction logs as [|x logs IH]; intros H.
  - cbn. lia.
  - assert (IH' := IH (fun l Hl => H l (or_intror Hl))).
    cbn [filter]. destruct (_ && _); [|exact IH'].
    cbn [map]. unfold list_sum_Z in *. cbn [fold_right].
    pose proof (H x (or_introl eq_refl)). lia.
Qed.

(** While no recorded duration and no elapsed time is negative, the text
    of the time column of a row reads back as the seconds elapsed when
    the title of the row is the one being timed, and as the sum of the
    closed rows of that title otherwise. *)
Theorem time_column_reads_back (s : Timer.State) (title : string) :
  open_rows_have_no_duration (Timer.timeLogs s) ->
  (forall l, In l (Timer.timeLogs s) -> 0 <= Timer.duration_or_zero l) ->
  0 <= Timer.elapsedSeconds s ->
  Display.read_clock (Display.time_column s title)
  = Some (if Timer.isActive s title then Timer.elapsedSeconds s
          else Timer.closed_total (Timer.timeLogs s) title).
Proof.
  intros Hshape Hdur He. unfold Display.time_column, Timer.displayed_seconds.
  destruct (Timer.isActive s title).
  - apply read_clock_formatTime. exact He.
  - rewrite (getTotalTimeForSubtask_closed s title Hshape).
    apply read_clock_formatTime. apply closed_total_nonneg. exact Hdur.
Qed.

Lemma time_column_reads_back_witness :
  let s :=
    Timer.mkState None 0
      [SubtaskTimeLog.mk "l2" "t" "u" "Design" 70000 None None;
       SubtaskTimeLog.mk "l1" "t" "u" "Design" 1000 (Some 66000) (Some 65)]
      false in
  Display.read_clock (Display.time_column s "Design") = Some 65.
Proof.
  intros s.
  assert (H1 : open_rows_have_no_duration (Timer.timeLogs s)).
  { intros l [<-|[<-|[]]]; [reflexivity|discriminate]. }
  assert (H2 : forall l, In l (Timer.timeLogs s) ->
                         0 <= Timer.duration_or_zero l).
  { intros l [<-|[<-|[]]]; cbn; lia. }
  assert (H3 : 0 <= Timer.elapsedSeconds s) by (cbn; lia).
  exact (time_column_reads_back s "Design" H1 H2 H3).
Defined.

(** [formatTime] does not guard its argument: for a negative number of
    seconds, as when the clock of the browser is behind the start time of
    the open row, the text starts with a minus sign and is not a clock
    text.  On the state side, the elapsed seconds that [loadActiveTimer]
    and the tick compute are negative exactly then. *)
Theorem negative_seconds_are_shown_signed (seconds : Z) :
  seconds < 0 ->
  (exists rest, Display.formatTime seconds = String "-" rest) /\
  Display.read_clock (Display.formatTime seconds) = None /\
  (forall start now,
     Timer.seconds_between start now < 0 <-> now < start).
Proof.
  intros Hneg.
  assert (Hh : seconds / 3600 < 0) by (apply Z.div_lt_upper_bound; lia).
  unfold Display.formatTime. cbv zeta.
  destruct (seconds / 3600) as [|p|p] eqn:E; try lia.
  assert (TS : Display.toString (Z.neg p)
               = String "-" (NilEmpty.string_of_uint (Pos.to_uint p)))
    by reflexivity.
  rewrite TS.
  pose proof (DecimalPos.Unsigned.to_uint_nonnil p) as Nn.
  pose proof (uint_string_digits (Pos.to_uint p)) as Dg.
  assert (P : Display.padStart2
                (String "-" (NilEmpty.string_of_uint (Pos.to_uint p)))
              = String "-" (NilEmpty.string_of_uint (Pos.to_uint p))).
  { unfold Display.padStart2. cbn [String.length].
    destruct (Pos.to_uint p); try contradiction; reflexivity. }
  rewrite P. split; [|split].
  - eexists. cbn [String.append]. reflexivity.
  - unfold Display.read_clock. cbn [String.append].
    assert (F : Forall (fun c => Ascii.eqb c ":" = false)
                  (list_ascii_of_string
                     (String "-" (NilEmpty.string_of_uint (Pos.to_uint p)))))
      by (cbn; constructor; [reflexivity|exact Dg]).
    pose proof (proj2 (take_field_whole _ F)) as T.
    cbn [String.append] in T. rewrite T.
    destruct (Display.take_field _) as [b r2].
    destruct (Display.take_field r2) as [c r3].
    unfold Display.field_value at 1. cbn [NilEmpty.uint_of_string].
    destruct (NilEmpty.uint_of_string _); reflexivity.
  - intros start now. unfold Timer.seconds_between. split; intros H.
    + destruct (Z.lt_ge_cases now start) as [L|G]; [exact L|].
      pose proof (Z.div_pos (now - start) 1000 ltac:(lia) ltac:(lia)). lia.
    + apply Z.div_lt_upper_bound; lia.
Qed.

Lemma negative_seconds_are_shown_signed_witness :
  -5 < 0 /\ Display.read_clock (Display.formatTime (-5)) = None.
Proof.
  assert (H : -5 < 0) by lia.
  split; [exact H|].
  destruct (negative_seconds_are_shown_signed (-5) H) as (_ & E & _).
  exact E.
Defined.
